(** * package menulist: a navigable, selectable menu

    A shallow embedding of [my-packages/menulist/menulist.go].  The Go code
    works on a garbage-collected heap: colours, the selection cursor and the
    item images are reached through pointers, and the item slice of the
    built list shares its backing array with the slice of the construction
    input.  The embedding keeps that heap explicit ([World]) and runs every
    function in a state monad that can also panic ([M]).

    Calls into the rendering engine (image allocation, fill, text drawing,
    compositing) are recorded, in order, in the world's [trace].

    The file also holds the program that uses the menu (package main:
    [update], [main]), in the module [Main]. *)

From Stdlib Require Import ZArith Lia.
From Stdlib Require Import PrimFloat SpecFloat FloatOps FloatAxioms.
From stdpp Require Import gmap strings list.

Local Open Scope Z_scope.

(* ================================================================== *)
(** ** Machine numbers *)

(** Go's [int] on the 64-bit targets of the engine: arithmetic wraps. *)
Module GoInt.
Definition min_int : Z := - 2 ^ 63.
Definition max_int : Z := 2 ^ 63 - 1.
Definition wrap (z : Z) : Z := (z - min_int) mod 2 ^ 64 + min_int.
Definition add (x y : Z) : Z := wrap (x + y).
Definition sub (x y : Z) : Z := wrap (x - y).
Definition in_range (z : Z) : Prop := min_int <= z <= max_int.
End GoInt.

(** Go's [float64] is IEEE binary64, which is what the kernel's primitive
    floats are.  [float64_of_int] is the conversion [float64(n)]: the
    nearest binary64 value, ties to even. *)
Definition float64 : Set := float.

Definition float64_of_int (n : Z) : float64 :=
  SF2Prim (binary_normalize prec emax n 0 false).

(* ================================================================== *)
(** ** Heap objects and pointers *)

Definition loc : Set := positive.

(** A Go pointer: [None] is [nil]. *)
Definition ptr : Set := option loc.

(** [color.NRGBA{R, G, B, A}], four [uint8] channels. *)
Record NRGBA : Set := mkNRGBA {
  R : Byte.byte; G : Byte.byte; B : Byte.byte; A : Byte.byte;
}.

(** [error]: [None] is [nil], [errors.New msg] carries its message. *)
Definition error : Set := option string.

Definition errors_New (msg : string) : error := Some msg.

(** MenuItem represents an item in a menu list. *)
Module MenuItem.
Record t : Set := mk {
  Name : string;
  Text : string;
  TxtX : Z;
  TxtY : Z;
  image : ptr;
  BgColour : ptr;
  TxtColour : ptr;
  SelBgColour : ptr;
  SelTxtColour : ptr;
}.

Definition with_TxtY (v : Z) (it : t) : t :=
  mk (Name it) (Text it) (TxtX it) v (image it)
     (BgColour it) (TxtColour it) (SelBgColour it) (SelTxtColour it).
Definition with_image (v : ptr) (it : t) : t :=
  mk (Name it) (Text it) (TxtX it) (TxtY it) v
     (BgColour it) (TxtColour it) (SelBgColour it) (SelTxtColour it).
Definition with_BgColour (v : ptr) (it : t) : t :=
  mk (Name it) (Text it) (TxtX it) (TxtY it) (image it)
     v (TxtColour it) (SelBgColour it) (SelTxtColour it).
Definition with_TxtColour (v : ptr) (it : t) : t :=
  mk (Name it) (Text it) (TxtX it) (TxtY it) (image it)
     (BgColour it) v (SelBgColour it) (SelTxtColour it).
Definition with_SelBgColour (v : ptr) (it : t) : t :=
  mk (Name it) (Text it) (TxtX it) (TxtY it) (image it)
     (BgColour it) (TxtColour it) v (SelTxtColour it).
Definition with_SelTxtColour (v : ptr) (it : t) : t :=
  mk (Name it) (Text it) (TxtX it) (TxtY it) (image it)
     (BgColour it) (TxtColour it) (SelBgColour it) v.
End MenuItem.

(** A slice header [[]MenuItem]: the backing array and the length.  The
    zero value ([nil]) has no array and length 0. *)
Record slice : Set := mkSlice { s_data : ptr; s_len : nat }.

Definition nil_slice : slice := mkSlice None 0.

(** [len(s)], a Go [int]. *)
Definition len (s : slice) : Z := Z.of_nat (s_len s).

(** MenuList is a navigatable, selectable menu. *)
Module MenuList.
Record t : Set := mk {
  Tx : float64;
  Ty : float64;
  Width : Z;
  Height : Z;
  Offx : float64;
  Offy : float64;
  DefaultBgColour : ptr;
  DefaultTxtColour : ptr;
  DefaultSelBgColour : ptr;
  DefaultSelTxtColour : ptr;
  SelectedIndex : ptr;
  MenuItems : slice;
}.

(** [MenuList{}] *)
Definition zero : t :=
  mk 0%float 0%float 0 0 0%float 0%float None None None None None nil_slice.
End MenuList.

(** MenuListInput is an object used to create a menu list. *)
Module MenuListInput.
Record t : Set := mk {
  Tx : float64;
  Ty : float64;
  Width : Z;
  Height : Z;
  Offx : float64;
  Offy : float64;
  DefaultBgColour : ptr;
  DefaultTxtColour : ptr;
  DefaultSelBGColour : ptr;
  DefaultSelTxtColour : ptr;
  MenuItems : slice;
}.

Definition with_Offy (v : float64) (i : t) : t :=
  mk (Tx i) (Ty i) (Width i) (Height i) (Offx i) v (DefaultBgColour i)
     (DefaultTxtColour i) (DefaultSelBGColour i) (DefaultSelTxtColour i)
     (MenuItems i).
Definition with_DefaultBgColour (v : ptr) (i : t) : t :=
  mk (Tx i) (Ty i) (Width i) (Height i) (Offx i) (Offy i) v
     (DefaultTxtColour i) (DefaultSelBGColour i) (DefaultSelTxtColour i)
     (MenuItems i).
Definition with_DefaultTxtColour (v : ptr) (i : t) : t :=
  mk (Tx i) (Ty i) (Width i) (Height i) (Offx i) (Offy i)
     (DefaultBgColour i) v (DefaultSelBGColour i) (DefaultSelTxtColour i)
     (MenuItems i).
Definition with_DefaultSelBGColour (v : ptr) (i : t) : t :=
  mk (Tx i) (Ty i) (Width i) (Height i) (Offx i) (Offy i)
     (DefaultBgColour i) (DefaultTxtColour i) v (DefaultSelTxtColour i)
     (MenuItems i).
Definition with_DefaultSelTxtColour (v : ptr) (i : t) : t :=
  mk (Tx i) (Ty i) (Width i) (Height i) (Offx i) (Offy i)
     (DefaultBgColour i) (DefaultTxtColour i) (DefaultSelBGColour i) v
     (MenuItems i).
End MenuListInput.

(* ================================================================== *)
(** ** The rendering engine, as the package sees it

    The engine ([github.com/hajimehoshi/ebiten]) is not part of the
    package.  This is its interface as the package uses it: an allocation
    hands back a new image, a call goes through when the images and colours
    it is given are there and panics on [nil], and a [GeoM] accumulates
    its translations in [float64]. *)

(** [ebiten.Filter]; the package only ever passes [FilterNearest]. *)
Inductive Filter : Set := FilterDefault | FilterNearest | FilterLinear.

(** An [ebiten.Image] as allocated: its size and filter. *)
Record Image : Set := mkImage {
  img_width : Z;
  img_height : Z;
  img_filter : Filter;
}.

(** [ebiten.GeoM] restricted to what [Draw] uses.  The zero value is the
    identity and [Translate] adds to the translation part in [float64];
    the linear part stays the identity, so it is not represented. *)
Record GeoM : Set := mkGeoM { g_tx : float64; g_ty : float64 }.

Definition GeoM_zero : GeoM := mkGeoM 0%float 0%float.

Definition GeoM_Translate (g : GeoM) (tx ty : float64) : GeoM :=
  mkGeoM (g_tx g + tx)%float (g_ty g + ty)%float.

(** The font face built by [init]: M+ 1p regular, 24 points at 72 dpi,
    full hinting. *)
Inductive Hinting : Set := HintingNone | HintingVertical | HintingFull.

Record Face : Set := mkFace {
  face_size : Z;
  face_dpi : Z;
  face_hinting : Hinting;
}.

Definition mplusNormalFont : Face := mkFace 24 72 HintingFull.

(** One call into the engine that went through, with the arguments as they
    were passed. *)
Inductive Event : Set :=
| EvFill (img : ptr) (clr : ptr)
| EvText (img : ptr) (text : string) (face : Face) (x y : Z) (clr : ptr)
| EvDrawImage (dst src : ptr) (geom : GeoM).

(* ================================================================== *)
(** ** The heap and the monad *)

Record World : Type := mkWorld {
  colours : gmap loc NRGBA;
  ints : gmap loc Z;
  arrays : gmap loc (list MenuItem.t);
  images : gmap loc Image;
  trace : list Event;
}.

Definition with_colours (v : gmap loc NRGBA) (w : World) : World :=
  mkWorld v (ints w) (arrays w) (images w) (trace w).
Definition with_ints (v : gmap loc Z) (w : World) : World :=
  mkWorld (colours w) v (arrays w) (images w) (trace w).
Definition with_arrays (v : gmap loc (list MenuItem.t)) (w : World) : World :=
  mkWorld (colours w) (ints w) v (images w) (trace w).
Definition with_images (v : gmap loc Image) (w : World) : World :=
  mkWorld (colours w) (ints w) (arrays w) v (trace w).
Definition with_trace (v : list Event) (w : World) : World :=
  mkWorld (colours w) (ints w) (arrays w) (images w) v.

(** Run-time panics of the Go runtime. *)
Inductive panic : Set :=
| NilDereference
| IndexOutOfRange
| InvalidMemory.

Inductive result (T : Type) : Type :=
| Ok (v : T) (w : World)
| Panicked (p : panic).
Arguments Ok {T} v w.
Arguments Panicked {T} p.

Definition M (T : Type) : Type := World → result T.

#[global] Instance M_ret : MRet M := λ T (v : T) w, Ok v w.

#[global] Instance M_bind : MBind M := λ T U (k : T → M U) (m : M T) w,
  match m w with
  | Ok v w' => k v w'
  | Panicked p => Panicked p
  end.

Definition throw {T} (p : panic) : M T := λ _, Panicked p.

(** [new(int)] initialised to [v]; the cell is fresh. *)
Definition new_int (v : Z) : M ptr := λ w,
  let l := fresh (dom (ints w)) in
  Ok (Some l) (with_ints (<[l := v]> (ints w)) w).

(** [*p] for [p : *int]. *)
Definition load_int (p : ptr) : M Z := λ w,
  match p with
  | None => Panicked NilDereference
  | Some l =>
      match ints w !! l with
      | Some v => Ok v w
      | None => Panicked InvalidMemory
      end
  end.

(** [*p = v] for [p : *int]. *)
Definition store_int (p : ptr) (v : Z) : M unit := λ w,
  match p with
  | None => Panicked NilDereference
  | Some l =>
      match ints w !! l with
      | Some _ => Ok tt (with_ints (<[l := v]> (ints w)) w)
      | None => Panicked InvalidMemory
      end
  end.

(** [&color.NRGBA{...}]: a fresh colour object. *)
Definition new_NRGBA (c : NRGBA) : M ptr := λ w,
  let l := fresh (dom (colours w)) in
  Ok (Some l) (with_colours (<[l := c]> (colours w)) w).

(** [s[i]], bounds-checked against [len(s)]. *)
Definition slice_index (s : slice) (i : Z) : M MenuItem.t := λ w,
  if bool_decide (0 <= i < len s) then
    match s_data s with
    | None => Panicked NilDereference
    | Some l =>
        match arrays w !! l ≫= (.!! Z.to_nat i) with
        | Some it => Ok it w
        | None => Panicked InvalidMemory
        end
    end
  else Panicked IndexOutOfRange.

(** [s[i].F = v], written as the field update [f]; bounds-checked. *)
Definition slice_update (s : slice) (i : Z) (f : MenuItem.t → MenuItem.t)
  : M unit := λ w,
  if bool_decide (0 <= i < len s) then
    match s_data s with
    | None => Panicked NilDereference
    | Some l =>
        match arrays w !! l with
        | Some items =>
            match items !! Z.to_nat i with
            | Some it =>
                Ok tt (with_arrays
                         (<[l := <[Z.to_nat i := f it]> items]> (arrays w)) w)
            | None => Panicked InvalidMemory
            end
        | None => Panicked InvalidMemory
        end
    end
  else Panicked IndexOutOfRange.

(** A counted loop [for i := first; i < first + count; i++] that threads the
    loop-carried state [s]. *)
Fixpoint range_loop {S : Type} (body : nat → S → M S) (first count : nat)
  (s : S) : M S :=
  match count with
  | O => mret s
  | Datatypes.S count' =>
      s' ← body first s; range_loop body (Datatypes.S first) count' s'
  end.

(** [ebiten.NewImage(width, height, filter)].  The engine hands back a new
    image and an error it documents as always [nil]. *)
Definition ebiten_NewImage (width height : Z) (filter : Filter)
  : M (ptr * error) := λ w,
  let l := fresh (dom (images w)) in
  Ok (Some l, None)
     (with_images (<[l := mkImage width height filter]> (images w)) w).

Definition emit (e : Event) : M unit := λ w,
  Ok tt (with_trace (trace w ++ [e]) w).

(** [img.Fill(clr)] with [clr] a [*color.NRGBA]. *)
Definition Image_Fill (img : ptr) (clr : ptr) : M error :=
  match img, clr with
  | Some _, Some _ => _ ← emit (EvFill img clr); mret None
  | _, _ => throw NilDereference
  end.

(** [text.Draw(dst, text, face, x, y, clr)]. *)
Definition text_Draw (dst : ptr) (text : string) (face : Face) (x y : Z)
  (clr : ptr) : M unit :=
  match dst, clr with
  | Some _, Some _ => emit (EvText dst text face x y clr)
  | _, _ => throw NilDereference
  end.

(** [dst.DrawImage(src, opts)]: the engine reads the options at the call. *)
Definition Image_DrawImage (dst src : ptr) (opts : GeoM) : M error :=
  match dst, src with
  | Some _, Some _ => _ ← emit (EvDrawImage dst src opts); mret None
  | _, _ => throw NilDereference
  end.

(* ================================================================== *)
(** ** The package's functions

    The methods have pointer receivers but never assign to a field of the
    receiver: they write through [SelectedIndex] and into the images only.
    So each takes the [MenuList] it is called on as a value. *)

(** The fixed fallback colours of [NewMenu]. *)
Definition cyan : NRGBA := mkNRGBA Byte.x00 Byte.xff Byte.xff Byte.xff.
Definition black : NRGBA := mkNRGBA Byte.x00 Byte.x00 Byte.x00 Byte.xff.
Definition magenta : NRGBA := mkNRGBA Byte.xff Byte.x00 Byte.xff Byte.xff.
Definition white : NRGBA := mkNRGBA Byte.xff Byte.xff Byte.xff Byte.xff.

(** [if p == nil { p = &c }], returning the pointer to use from then on. *)
Definition default_colour (p : ptr) (c : NRGBA) : M ptr :=
  match p with
  | None => new_NRGBA c
  | Some _ => mret p
  end.

(** The body of the first loop of [NewMenu]: [item] is the copy the
    [range] clause made of element [i]; every assignment goes to
    [ml.MenuItems[i]] in the backing array. *)
Definition NewMenu_resolve (input : MenuListInput.t) (ml : MenuList.t)
  (i : nat) : M unit :=
  let i := Z.of_nat i in
  item ← slice_index (MenuListInput.MenuItems input) i;
  _ ← (match MenuItem.BgColour item with
       | Some _ =>
           slice_update (MenuList.MenuItems ml) i
             (MenuItem.with_BgColour (MenuItem.BgColour item))
       | None =>
           slice_update (MenuList.MenuItems ml) i
             (MenuItem.with_BgColour (MenuList.DefaultBgColour ml))
       end);
  _ ← (match MenuItem.TxtColour item with
       | Some _ =>
           slice_update (MenuList.MenuItems ml) i
             (MenuItem.with_TxtColour (MenuItem.TxtColour item))
       | None =>
           slice_update (MenuList.MenuItems ml) i
             (MenuItem.with_TxtColour (MenuList.DefaultTxtColour ml))
       end);
  _ ← (match MenuItem.SelBgColour item with
       | Some _ =>
           slice_update (MenuList.MenuItems ml) i
             (MenuItem.with_SelBgColour (MenuItem.SelBgColour item))
       | None =>
           slice_update (MenuList.MenuItems ml) i
             (MenuItem.with_SelBgColour (MenuList.DefaultSelBgColour ml))
       end);
  _ ← (match MenuItem.SelTxtColour item with
       | Some _ =>
           slice_update (MenuList.MenuItems ml) i
             (MenuItem.with_SelTxtColour (MenuItem.SelTxtColour item))
       | None =>
           slice_update (MenuList.MenuItems ml) i
             (MenuItem.with_SelTxtColour (MenuList.DefaultSelTxtColour ml))
       end);
  if MenuItem.TxtY item =? 0 then
    slice_update (MenuList.MenuItems ml) i
      (MenuItem.with_TxtY (GoInt.sub (MenuList.Height ml) 5))
  else mret tt.

(** The body of the second loop of [NewMenu]; the error of [NewImage] is
    dropped. *)
Definition NewMenu_allocate (ml : MenuList.t) (i : nat) : M unit :=
  r ← ebiten_NewImage (MenuList.Width ml) (MenuList.Height ml) FilterNearest;
  slice_update (MenuList.MenuItems ml) (Z.of_nat i)
    (MenuItem.with_image (fst r)).

(** NewMenu constructs a new menu from a MenuListInput. *)
Definition NewMenu (input : MenuListInput.t) : M (MenuList.t * error) :=
  if MenuListInput.Width input =? 0 then
    mret (MenuList.zero, errors_New "Mandatory input field width is missing")
  else if MenuListInput.Height input =? 0 then
    mret (MenuList.zero, errors_New "Mandatory input field height is missing")
  else if len (MenuListInput.MenuItems input) <? 1 then
    mret (MenuList.zero,
          errors_New "Mandatory input field MenuItems is missing")
  else
    let input :=
      if (MenuListInput.Offy input =? 0)%float
      then MenuListInput.with_Offy
             (float64_of_int (MenuListInput.Height input)) input
      else input in
    bg ← default_colour (MenuListInput.DefaultBgColour input) cyan;
    let input := MenuListInput.with_DefaultBgColour bg input in
    txt ← default_colour (MenuListInput.DefaultTxtColour input) black;
    let input := MenuListInput.with_DefaultTxtColour txt input in
    selbg ← default_colour (MenuListInput.DefaultSelBGColour input) magenta;
    let input := MenuListInput.with_DefaultSelBGColour selbg input in
    seltxt ← default_colour (MenuListInput.DefaultSelTxtColour input) white;
    let input := MenuListInput.with_DefaultSelTxtColour seltxt input in
    defaultSelectedIndex ← new_int 0;
    let ml :=
      MenuList.mk
        (MenuListInput.Tx input) (MenuListInput.Ty input)
        (MenuListInput.Width input) (MenuListInput.Height input)
        (MenuListInput.Offx input) (MenuListInput.Offy input)
        (MenuListInput.DefaultBgColour input)
        (MenuListInput.DefaultTxtColour input)
        (MenuListInput.DefaultSelBGColour input)
        (MenuListInput.DefaultSelTxtColour input)
        defaultSelectedIndex
        (MenuListInput.MenuItems input) in
    _ ← range_loop (λ i _, NewMenu_resolve input ml i)
          0 (s_len (MenuListInput.MenuItems input)) tt;
    _ ← range_loop (λ i _, NewMenu_allocate ml i)
          0 (s_len (MenuList.MenuItems ml)) tt;
    mret (ml, None).

(** GetSelectedItem returns the name of the selected item. *)
Definition GetSelectedItem (m : MenuList.t) : M string :=
  sel ← load_int (MenuList.SelectedIndex m);
  item ← slice_index (MenuList.MenuItems m) sel;
  mret (MenuItem.Name item).

(** IncrementSelected increments the selected index provided it is not
    already at maximum. *)
Definition IncrementSelected (m : MenuList.t) : M unit :=
  let maxIndex := GoInt.sub (len (MenuList.MenuItems m)) 1 in
  sel ← load_int (MenuList.SelectedIndex m);
  if sel <? maxIndex then
    sel ← load_int (MenuList.SelectedIndex m);
    store_int (MenuList.SelectedIndex m) (GoInt.add sel 1)
  else mret tt.

(** DecrementSelected decrements the selected index provided it is not
    already at minimum. *)
Definition DecrementSelected (m : MenuList.t) : M unit :=
  let minIndex := 0 in
  sel ← load_int (MenuList.SelectedIndex m);
  if sel >? minIndex then
    sel ← load_int (MenuList.SelectedIndex m);
    store_int (MenuList.SelectedIndex m) (GoInt.sub sel 1)
  else mret tt.

(** The body of the loop of [Draw]; [opts] is the loop-carried
    [opts.GeoM]. *)
Definition Draw_item (m : MenuList.t) (screen : ptr) (index : nat)
  (opts : GeoM) : M GeoM :=
  item ← slice_index (MenuList.MenuItems m) (Z.of_nat index);
  sel ← load_int (MenuList.SelectedIndex m);
  _ ← (if Z.of_nat index =? sel
       then Image_Fill (MenuItem.image item) (MenuItem.SelBgColour item)
       else Image_Fill (MenuItem.image item) (MenuItem.BgColour item));
  sel ← load_int (MenuList.SelectedIndex m);
  _ ← (if Z.of_nat index =? sel
       then text_Draw (MenuItem.image item) (MenuItem.Text item)
              mplusNormalFont (MenuItem.TxtX item) (MenuItem.TxtY item)
              (MenuItem.SelTxtColour item)
       else text_Draw (MenuItem.image item) (MenuItem.Text item)
              mplusNormalFont (MenuItem.TxtX item) (MenuItem.TxtY item)
              (MenuItem.TxtColour item));
  _ ← Image_DrawImage screen (MenuItem.image item) opts;
  mret (GeoM_Translate opts (MenuList.Offx m) (MenuList.Offy m)).

(** Draw draws the menu to the screen. *)
Definition Draw (m : MenuList.t) (screen : ptr) : M unit :=
  let opts := GeoM_zero in
  let opts := GeoM_Translate opts (MenuList.Tx m) (MenuList.Ty m) in
  _ ← range_loop (Draw_item m screen) 0 (s_len (MenuList.MenuItems m)) opts;
  mret tt.

(* ================================================================== *)
(** ** Vocabulary of the statements *)

(** A slice as the Go runtime keeps it: its length fits an [int] and its
    backing array holds at least that many elements. *)
Definition slice_ok (w : World) (s : slice) : bool :=
  bool_decide (len s <= GoInt.max_int) &&
  match s_data s with
  | None => bool_decide (s_len s = 0%nat)
  | Some l =>
      match arrays w !! l with
      | Some items => bool_decide (s_len s ≤ length items)%nat
      | None => false
      end
  end.

(** The elements [s[0]], ..., [s[len(s)-1]] as the heap has them. *)
Definition slice_items (w : World) (s : slice) : list MenuItem.t :=
  match s_data s with
  | None => []
  | Some l => take (s_len s) (default [] (arrays w !! l))
  end.

(** The value of the selection cursor, [*m.SelectedIndex]. *)
Definition selected (w : World) (m : MenuList.t) : option Z :=
  MenuList.SelectedIndex m ≫= λ c, ints w !! c.

(** A colour field after resolution: the override if there is one, else
    the default. *)
Definition override (own default : ptr) : ptr :=
  match own with
  | Some _ => own
  | None => default
  end.

(** Element [i] after the first loop of [NewMenu] has passed it. *)
Definition resolve (ml : MenuList.t) (item : MenuItem.t) : MenuItem.t :=
  MenuItem.mk
    (MenuItem.Name item) (MenuItem.Text item) (MenuItem.TxtX item)
    (if MenuItem.TxtY item =? 0
     then GoInt.sub (MenuList.Height ml) 5 else MenuItem.TxtY item)
    (MenuItem.image item)
    (override (MenuItem.BgColour item) (MenuList.DefaultBgColour ml))
    (override (MenuItem.TxtColour item) (MenuList.DefaultTxtColour ml))
    (override (MenuItem.SelBgColour item) (MenuList.DefaultSelBgColour ml))
    (override (MenuItem.SelTxtColour item) (MenuList.DefaultSelTxtColour ml)).

(** How a default colour of the list relates to the one of the input:
    the caller's pointer if there is one, else a colour object that did not
    exist before and holds the fallback. *)
Definition default_resolved (w w' : World) (given built : ptr)
  (fallback : NRGBA) : Prop :=
  match given with
  | Some _ => built = given
  | None =>
      ∃ q, built = Some q ∧ colours w !! q = None
           ∧ colours w' !! q = Some fallback
  end.

(** A call of the host on its menu: the two navigation methods, the query
    and the render onto a screen image. *)
Inductive call : Set :=
| CallIncrement
| CallDecrement
| CallGetSelectedItem
| CallDraw (screen : loc).

Definition perform (m : MenuList.t) (k : call) : M unit :=
  match k with
  | CallIncrement => IncrementSelected m
  | CallDecrement => DecrementSelected m
  | CallGetSelectedItem => _ ← GetSelectedItem m; mret tt
  | CallDraw screen => Draw m (Some screen)
  end.

Fixpoint perform_all (m : MenuList.t) (ks : list call) : M unit :=
  match ks with
  | [] => mret tt
  | k :: ks => _ ← perform m k; perform_all m ks
  end.

(** The cursor after one call on a list of [n] items, as the specification
    words it: navigation clamps at both ends and does not wrap, nothing
    else touches the cursor. *)
Definition clamp_step (n : Z) (s : Z) (k : call) : Z :=
  match k with
  | CallIncrement => if s <? n - 1 then s + 1 else s
  | CallDecrement => if 0 <? s then s - 1 else s
  | CallGetSelectedItem | CallDraw _ => s
  end.

Definition clamp_steps (n : Z) (s : Z) (ks : list call) : Z :=
  foldl (clamp_step n) s ks.

(** [opts.GeoM] when [Draw] reaches item [i]: one [Translate(Tx, Ty)] on the
    identity, then one [Translate(Offx, Offy)] per earlier item. *)
Definition translation_at (m : MenuList.t) (i : nat) : GeoM :=
  Nat.iter i
    (λ g, GeoM_Translate g (MenuList.Offx m) (MenuList.Offy m))
    (GeoM_Translate GeoM_zero (MenuList.Tx m) (MenuList.Ty m)).

(** The translation in closed form, [(tx + i*offx, ty + i*offy)], computed
    in [float64]. *)
Definition translation_closed_form (m : MenuList.t) (i : nat) : GeoM :=
  mkGeoM
    (MenuList.Tx m + float64_of_int (Z.of_nat i) * MenuList.Offx m)%float
    (MenuList.Ty m + float64_of_int (Z.of_nat i) * MenuList.Offy m)%float.

(** The engine calls of one item as the specification lists them: fill,
    text, composite, with the selected colours for the selected item. *)
Definition render_item (screen : ptr) (sel : Z) (i : nat)
  (item : MenuItem.t) (at_ : GeoM) : list Event :=
  let selected := Z.of_nat i =? sel in
  [ EvFill (MenuItem.image item)
      (if selected then MenuItem.SelBgColour item
       else MenuItem.BgColour item);
    EvText (MenuItem.image item) (MenuItem.Text item) mplusNormalFont
      (MenuItem.TxtX item) (MenuItem.TxtY item)
      (if selected then MenuItem.SelTxtColour item
       else MenuItem.TxtColour item);
    EvDrawImage screen (MenuItem.image item) at_ ].

(** The engine calls of a whole render, item 0 first, where [place i] is
    the translation item [i] is composited at. *)
Definition render (place : nat → GeoM) (screen : ptr) (sel : Z)
  (items : list MenuItem.t) : list Event :=
  concat (imap (λ i item, render_item screen sel i item (place i)) items).

(** An item that [Draw] can render: image and colours are there. *)
Definition renderable (item : MenuItem.t) : Prop :=
  is_Some (MenuItem.image item) ∧
  is_Some (MenuItem.BgColour item) ∧ is_Some (MenuItem.TxtColour item) ∧
  is_Some (MenuItem.SelBgColour item) ∧ is_Some (MenuItem.SelTxtColour item).

(** What the second loop has done to the array [items] and the images
    [imgs0] once it has passed the first [k] elements. *)
Definition images_allocated (ml : MenuList.t) (imgs0 : gmap loc Image)
  (items : list MenuItem.t) (k : nat)
  (imgs : gmap loc Image) (items' : list MenuItem.t) : Prop :=
  imgs0 ⊆ imgs ∧ length items' = length items ∧
  (∀ j, (k ≤ j)%nat → items' !! j = items !! j) ∧
  (∀ j x, (j < k)%nat → items !! j = Some x →
     ∃ img, items' !! j = Some (MenuItem.with_image (Some img) x)
            ∧ imgs0 !! img = None
            ∧ imgs !! img
              = Some (mkImage (MenuList.Width ml) (MenuList.Height ml)
                        FilterNearest)) ∧
  (∀ j1 j2 y1 y2, (j1 < j2 < k)%nat →
     items' !! j1 = Some y1 → items' !! j2 = Some y2 →
     MenuItem.image y1 ≠ MenuItem.image y2).

(** What a successful [NewMenu input] run from world [w] returns and
    leaves behind: the list [ml] and the world [w']. *)
Record built (input : MenuListInput.t) (w : World) (ml : MenuList.t)
  (w' : World) : Prop := mkBuilt {
  built_Tx : MenuList.Tx ml = MenuListInput.Tx input;
  built_Ty : MenuList.Ty ml = MenuListInput.Ty input;
  built_Width : MenuList.Width ml = MenuListInput.Width input;
  built_Height : MenuList.Height ml = MenuListInput.Height input;
  built_Offx : MenuList.Offx ml = MenuListInput.Offx input;
  built_Offy :
    MenuList.Offy ml
    = if (MenuListInput.Offy input =? 0)%float
      then float64_of_int (MenuListInput.Height input)
      else MenuListInput.Offy input;
  built_MenuItems : MenuList.MenuItems ml = MenuListInput.MenuItems input;
  built_Bg :
    default_resolved w w' (MenuListInput.DefaultBgColour input)
      (MenuList.DefaultBgColour ml) cyan;
  built_Txt :
    default_resolved w w' (MenuListInput.DefaultTxtColour input)
      (MenuList.DefaultTxtColour ml) black;
  built_SelBg :
    default_resolved w w' (MenuListInput.DefaultSelBGColour input)
      (MenuList.DefaultSelBgColour ml) magenta;
  built_SelTxt :
    default_resolved w w' (MenuListInput.DefaultSelTxtColour input)
      (MenuList.DefaultSelTxtColour ml) white;
  built_colours : colours w ⊆ colours w';
  built_cursor :
    ∃ c, MenuList.SelectedIndex ml = Some c ∧ ints w !! c = None
         ∧ ints w' = <[c := 0]> (ints w);
  built_arrays :
    ∃ l items items',
      s_data (MenuList.MenuItems ml) = Some l
      ∧ arrays w !! l = Some items
      ∧ arrays w' = <[l := items']> (arrays w)
      ∧ images_allocated ml (images w)
          ((resolve ml <$> take (s_len (MenuList.MenuItems ml)) items)
           ++ drop (s_len (MenuList.MenuItems ml)) items)
          (s_len (MenuList.MenuItems ml)) (images w') items';
  built_trace : trace w' = trace w;
}.

(** The world with the cursor cell [c] set to [s]. *)
Definition set_cursor (c : loc) (s : Z) (w : World) : World :=
  with_ints (<[c := s]> (ints w)) w.

(** The world with the engine calls [es] appended to the trace. *)
Definition add_trace (es : list Event) (w : World) : World :=
  with_trace (trace w ++ es) w.

(** A list in a world where every method can run: the cursor is the cell
    [c], the items are the first [len] elements of the array [l], which
    holds [items], and each of them can be rendered. *)
Record ready (w : World) (m : MenuList.t) (c l : loc)
  (items : list MenuItem.t) : Prop := mkReady {
  ready_cursor : MenuList.SelectedIndex m = Some c;
  ready_data : s_data (MenuList.MenuItems m) = Some l;
  ready_array : arrays w !! l = Some items;
  ready_len : 1 <= len (MenuList.MenuItems m) <= GoInt.max_int;
  ready_cap : (s_len (MenuList.MenuItems m) ≤ length items)%nat;
  ready_renderable :
    Forall renderable (take (s_len (MenuList.MenuItems m)) items);
}.

(** The engine calls one call of the host makes when the cursor is [s]. *)
Definition call_events (m : MenuList.t) (s : Z) (items : list MenuItem.t)
  (k : call) : list Event :=
  match k with
  | CallDraw screen =>
      render (translation_at m) (Some screen) s
        (take (s_len (MenuList.MenuItems m)) items)
  | _ => []
  end.

(** The three messages of the validation in [NewMenu]. *)
Definition width_missing : string :=
  "Mandatory input field width is missing".
Definition height_missing : string :=
  "Mandatory input field height is missing".
Definition items_missing : string :=
  "Mandatory input field MenuItems is missing".

(** The navigation methods among the calls. *)
Definition is_navigation (k : call) : bool :=
  match k with
  | CallIncrement | CallDecrement => true
  | CallGetSelectedItem | CallDraw _ => false
  end.

(** *** The menu of the host program

    The construction input of [main]: three buttons with their own
    background colours, a purple default for the selected background,
    128 by 36 pixels at (128, 128).  The palette entries the input points
    to are the colour objects 1 to 4 of [host_world]; its image 1 is the
    400 by 300 screen of [ebiten.Run]. *)
Definition green1 : NRGBA := mkNRGBA Byte.x00 Byte.x38 Byte.x40 Byte.xff.
Definition green2 : NRGBA := mkNRGBA Byte.x00 Byte.x5a Byte.x5b Byte.xff.
Definition green3 : NRGBA := mkNRGBA Byte.x00 Byte.x73 Byte.x69 Byte.xff.
Definition purple3 : NRGBA := mkNRGBA Byte.x5f Byte.x49 Byte.x73 Byte.xff.

Definition newMenuItems : list MenuItem.t :=
  [ MenuItem.mk "playButton" "PLAY" 36 25 None (Some 1%positive)
      None None None;
    MenuItem.mk "optionButton" "OPTIONS" 12 25 None (Some 2%positive)
      None None None;
    MenuItem.mk "quitButton" "QUIT" 36 25 None (Some 3%positive)
      None None None ].

Definition host_world : World :=
  mkWorld
    (<[1%positive := green1]> (<[2%positive := green2]>
       (<[3%positive := green3]> (<[4%positive := purple3]> ∅))))
    ∅
    (<[1%positive := newMenuItems]> ∅)
    (<[1%positive := mkImage 400 300 FilterDefault]> ∅)
    [].

Definition newMenuInput : MenuListInput.t :=
  MenuListInput.mk 128%float 128%float 128 36 0%float 0%float
    None None (Some 4%positive) None (mkSlice (Some 1%positive) 3).

(** Inputs the validation rejects: the input of [main] with both sizes at
    zero; one with a width but neither a height nor items; one with both
    sizes but no items. *)
Definition input_without_size : MenuListInput.t :=
  MenuListInput.mk 128%float 128%float 0 0 0%float 0%float
    None None (Some 4%positive) None (mkSlice (Some 1%positive) 3).

Definition input_without_height : MenuListInput.t :=
  MenuListInput.mk 128%float 128%float 128 0 0%float 0%float
    None None (Some 4%positive) None nil_slice.

Definition input_without_items : MenuListInput.t :=
  MenuListInput.mk 128%float 128%float 128 36 0%float 0%float
    None None (Some 4%positive) None nil_slice.

(** *** The scenario of the specification

    Three items A, B, C of 128 by 36 pixels; no default colour is given;
    B alone brings a background of its own (green, the colour object 1);
    no item sets its text offset. *)
Definition green : NRGBA := mkNRGBA Byte.x00 Byte.xff Byte.x00 Byte.xff.

Definition scenario_items : list MenuItem.t :=
  [ MenuItem.mk "A" "first" 0 0 None None None None None;
    MenuItem.mk "B" "second" 0 0 None (Some 1%positive) None None None;
    MenuItem.mk "C" "third" 0 0 None None None None None ].

Definition scenario_world : World :=
  mkWorld (<[1%positive := green]> ∅) ∅
    (<[1%positive := scenario_items]> ∅)
    (<[1%positive := mkImage 400 300 FilterDefault]> ∅)
    [].

Definition scenario_input : MenuListInput.t :=
  MenuListInput.mk 0%float 0%float 128 36 0%float 0%float
    None None None None (mkSlice (Some 1%positive) 3).

(** The session of the specification's scenario: read the selection,
    go down twice, read, down once more, read, up three times, read, up
    once more, read. *)
Definition scenario_session (m : MenuList.t) : M (list string) :=
  a ← GetSelectedItem m;
  _ ← IncrementSelected m; _ ← IncrementSelected m;
  b ← GetSelectedItem m;
  _ ← IncrementSelected m;
  c ← GetSelectedItem m;
  _ ← DecrementSelected m; _ ← DecrementSelected m;
  _ ← DecrementSelected m;
  d ← GetSelectedItem m;
  _ ← DecrementSelected m;
  e ← GetSelectedItem m;
  mret [a; b; c; d; e].

(** *** A row of eleven items a tenth of a pixel apart

    Eleven plain items, the list at the origin, [Offx] the [float64]
    nearest to 0.1 and [Offy] left to its default. *)
Definition tenth : float64 := 0x1.999999999999ap-4%float.

Definition tenths_items : list MenuItem.t :=
  replicate 11 (MenuItem.mk "item" "ITEM" 0 0 None None None None None).

Definition tenths_world : World :=
  mkWorld ∅ ∅ (<[1%positive := tenths_items]> ∅)
    (<[1%positive := mkImage 400 300 FilterDefault]> ∅) [].

Definition tenths_input : MenuListInput.t :=
  MenuListInput.mk 0%float 0%float 128 36 tenth 0%float
    None None None None (mkSlice (Some 1%positive) 11).

(** The translation of the last compositing call in the trace. *)
Definition last_translation (w : World) : option GeoM :=
  match last (trace w) with
  | Some (EvDrawImage _ _ g) => Some g
  | _ => None
  end.

(* ================================================================== *)
(** ** package main: the host program

    The program around the menu: a title screen with the menu, a play
    screen and an options screen, each frame handled by [update].  Its
    globals ([state], [square], [mainMenu]) are the fields of [Host],
    beside the heap.  [calls] is every engine call of the program in
    order: the host's own and, wrapped in [HvEngine], the ones the menu
    package made.

    Package main carries its own copy of the menu types and functions,
    line for line the code of package menulist, so the program runs on
    the embedding above.  [ebiten.Run] is the loop [frames]: one call of
    [update] per frame, with the keys of that frame, until [update]
    returns an error. *)
Module Main.

Inductive gameState : Set := titleScreen | options | play | quit.

(** The keys [update] asks about, and the answer of
    [inpututil.IsKeyJustPressed] for each of them in one frame. *)
Inductive Key : Set := KeyUp | KeyDown | KeyEnter | KeyEscape.

Definition Input : Set := Key → bool.

Definition IsKeyJustPressed (pressed : Input) (k : Key) : bool := pressed k.

Inductive HostEvent : Set :=
| HvFill (img : ptr) (clr : NRGBA)
| HvDebugPrint (img : ptr) (str : string)
| HvLog (msg : string)
| HvEngine (e : Event).

Record Host : Type := mkHost {
  world : World;
  state : gameState;
  square : ptr;
  mainMenu : MenuList.t;
  calls : list HostEvent;
}.

(** How a computation of the host ends: it returns, it panics, or the
    process exits with a code. *)
Inductive outcome (T : Type) : Type :=
| Done (v : T) (h : Host)
| Crashed (p : panic)
| Exited (code : Z) (h : Host).
Arguments Done {T} v h.
Arguments Crashed {T} p.
Arguments Exited {T} code h.

Definition H (T : Type) : Type := Host → outcome T.

#[global] Instance H_ret : MRet H := λ T (v : T) h, Done v h.

#[global] Instance H_bind : MBind H := λ T U (k : T → H U) (m : H T) h,
  match m h with
  | Done v h' => k v h'
  | Crashed p => Crashed p
  | Exited code h' => Exited code h'
  end.

(** A call into the menu package or the engine, run on the heap of the
    host; the engine calls it made are added to [calls]. *)
Definition lift {T : Type} (m : M T) : H T := λ h,
  match m (world h) with
  | Ok v w' =>
      Done v (mkHost w' (state h) (square h) (mainMenu h)
                (calls h ++ (HvEngine <$> drop (length (trace (world h)))
                                           (trace w'))))
  | Panicked p => Crashed p
  end.

Definition get_state : H gameState := λ h, Done (state h) h.
Definition set_state (st : gameState) : H unit := λ h,
  Done tt (mkHost (world h) st (square h) (mainMenu h) (calls h)).
Definition get_square : H ptr := λ h, Done (square h) h.
Definition set_square (p : ptr) : H unit := λ h,
  Done tt (mkHost (world h) (state h) p (mainMenu h) (calls h)).
Definition get_mainMenu : H MenuList.t := λ h, Done (mainMenu h) h.
Definition set_mainMenu (m : MenuList.t) : H unit := λ h,
  Done tt (mkHost (world h) (state h) (square h) m (calls h)).

Definition say (e : HostEvent) : H unit := λ h,
  Done tt (mkHost (world h) (state h) (square h) (mainMenu h)
             (calls h ++ [e])).

(** [img.Fill(clr)] with [clr] a [color.NRGBA] value. *)
Definition Image_Fill_value (img : ptr) (clr : NRGBA) : H error :=
  match img with
  | Some _ => _ ← say (HvFill img clr); mret None
  | None => λ _, Crashed NilDereference
  end.

(** [ebitenutil.DebugPrint(img, str)]. *)
Definition ebitenutil_DebugPrint (img : ptr) (str : string) : H error :=
  match img with
  | Some _ => _ ← say (HvDebugPrint img str); mret None
  | None => λ _, Crashed NilDereference
  end.

(** [os.Exit(code)]. *)
Definition os_Exit {T : Type} (code : Z) : H T := λ h, Exited code h.

(** [log.Printf] of [main]: "unable to create menu: " and the error (the
    time stamp and the final newline of the log line are left out). *)
Definition log_unable_to_create (msg : string) : H unit :=
  say (HvLog ("unable to create menu: " ++ msg)).

(** The body shared by the play and the options screen, up to the colour
    of the square: allocate the square on first use, fill it, composite it
    at (64, 64). *)
Definition draw_square (screen : ptr) (clr : NRGBA) : H unit :=
  sq ← get_square;
  _ ← (match sq with
       | None =>
           r ← lift (ebiten_NewImage 32 32 FilterNearest);
           set_square (fst r)
       | Some _ => mret tt
       end);
  someColor ← lift (new_NRGBA clr);
  sq ← get_square;
  _ ← lift (Image_Fill sq someColor);
  let opts := GeoM_Translate GeoM_zero 64%float 64%float in
  _ ← lift (Image_DrawImage screen sq opts);
  mret tt.

(** The title-screen block of [update].  [Some e] is an early
    [return e], [None] falls through to the rest of [update]. *)
Definition update_titleScreen (pressed : Input) (screen : ptr)
  : H (option error) :=
  _ ← ebitenutil_DebugPrint screen "Title screen";
  m ← get_mainMenu;
  _ ← lift (Draw m screen);
  _ ← (if IsKeyJustPressed pressed KeyUp
       then m ← get_mainMenu; lift (DecrementSelected m)
       else mret tt);
  _ ← (if IsKeyJustPressed pressed KeyDown
       then m ← get_mainMenu; lift (IncrementSelected m)
       else mret tt);
  if IsKeyJustPressed pressed KeyEnter then
    m ← get_mainMenu;
    name ← lift (GetSelectedItem m);
    _ ← (if String.eqb name "playButton" then set_state play
         else if String.eqb name "optionButton" then set_state options
         else if String.eqb name "quitButton" then os_Exit 0
         else mret tt);
    mret (Some None)
  else mret None.

(** The play-screen block of [update]. *)
Definition update_play (pressed : Input) (screen : ptr) : H (option error) :=
  _ ← ebitenutil_DebugPrint screen "Play screen";
  _ ← draw_square screen (mkNRGBA Byte.x7f Byte.xff Byte.x00 Byte.xff);
  if IsKeyJustPressed pressed KeyEscape then
    _ ← set_state titleScreen; mret (Some None)
  else mret None.

(** The options-screen block of [update]. *)
Definition update_options (pressed : Input) (screen : ptr)
  : H (option error) :=
  _ ← ebitenutil_DebugPrint screen "Options screen";
  _ ← draw_square screen (mkNRGBA Byte.x8a Byte.x2b Byte.xe2 Byte.xff);
  if IsKeyJustPressed pressed KeyEscape then
    _ ← set_state titleScreen; mret (Some None)
  else mret None.

#[global] Instance gameState_eq_dec : EqDecision gameState.
Proof. solve_decision. Defined.

#[global] Instance Key_eq_dec : EqDecision Key.
Proof. solve_decision. Defined.

(** [if state == st { block }]: run the block when the state is [st]. *)
Definition when_state (st : gameState) (block : H (option error))
  : H (option error) :=
  cur ← get_state;
  if decide (cur = st) then block else mret None.

(** [update], one frame. *)
Definition update (pressed : Input) (screen : ptr) : H error :=
  _ ← Image_Fill_value screen (mkNRGBA Byte.x00 Byte.x00 Byte.x00 Byte.xff);
  r ← when_state titleScreen (update_titleScreen pressed screen);
  match r with
  | Some e => mret e
  | None =>
      r ← when_state play (update_play pressed screen);
      match r with
      | Some e => mret e
      | None =>
          r ← when_state options (update_options pressed screen);
          match r with
          | Some e => mret e
          | None => mret None
          end
      end
  end.

(** [main] up to the call of [ebiten.Run]. *)
Definition main : H unit :=
  r ← lift (NewMenu newMenuInput);
  let newMenu := fst r in
  let err := snd r in
  _ ← (match err with
       | Some msg => log_unable_to_create msg
       | None => mret tt
       end);
  _ ← set_mainMenu newMenu;
  set_state titleScreen.

(** The program as it starts: the heap holds the palette and the item
    literal of [main], the globals have their zero values. *)
Definition boot : Host := mkHost host_world titleScreen None MenuList.zero [].

(** The frames of a run: [update] once per frame, until it returns an
    error. *)
Fixpoint frames (screen : ptr) (inputs : list Input) : H error :=
  match inputs with
  | [] => mret None
  | pressed :: inputs =>
      e ← update pressed screen;
      match e with
      | Some _ => mret e
      | None => frames screen inputs
      end
  end.

End Main.

(* ================================================================== *)
(** ** Vocabulary of the statements about the host *)

(** The engine calls a computation on the heap added to the trace. *)
Definition new_events (w w' : World) : list Event :=
  drop (length (trace w)) (trace w').

(** A host whose menu is ready, with the cursor cell [c] holding [s], in
    range. *)
Definition host_ok (h : Main.Host) (c l : loc) (items : list MenuItem.t)
  (s : Z) : Prop :=
  ready (Main.world h) (Main.mainMenu h) c l items
  ∧ ints (Main.world h) !! c = Some s
  ∧ 0 <= s <= len (MenuList.MenuItems (Main.mainMenu h)) - 1.

(** The cursor after the key handling of a title-screen frame: up is
    handled before down. *)
Definition title_cursor (n s : Z) (pressed : Main.Input) : Z :=
  let s := if pressed Main.KeyUp then clamp_step n s CallDecrement else s in
  if pressed Main.KeyDown then clamp_step n s CallIncrement else s.

(** The cursor after a frame that starts in state [st]. *)
Definition frame_cursor (st : Main.gameState) (n s : Z)
  (pressed : Main.Input) : Z :=
  match st with
  | Main.titleScreen => title_cursor n s pressed
  | _ => s
  end.

(** How a frame ends: the program goes on in a state, or exits. *)
Inductive verdict : Set :=
| Continue (st : Main.gameState)
| Exit (code : Z).

(** What the enter key does on the item called [name]. *)
Definition enter (name : string) : verdict :=
  if String.eqb name "playButton" then Continue Main.play
  else if String.eqb name "optionButton" then Continue Main.options
  else if String.eqb name "quitButton" then Exit 0
  else Continue Main.titleScreen.

(** The screens as a transition table: on the title screen only enter
    matters, on the play and the options screen only escape. *)
Definition frame_verdict (st : Main.gameState) (name : string)
  (pressed : Main.Input) : verdict :=
  match st with
  | Main.titleScreen =>
      if pressed Main.KeyEnter then enter name
      else Continue Main.titleScreen
  | Main.play | Main.options =>
      if pressed Main.KeyEscape then Continue Main.titleScreen
      else Continue st
  | Main.quit => Continue Main.quit
  end.

(** The name of the item at index [s]. *)
Definition name_at (items : list MenuItem.t) (s : Z) : string :=
  from_option MenuItem.Name "" (items !! Z.to_nat s).

(** The host with its state set to [st]. *)
Definition host_with_state (st : Main.gameState) (h : Main.Host)
  : Main.Host :=
  Main.mkHost (Main.world h) st (Main.square h) (Main.mainMenu h)
    (Main.calls h).

(** The host after the call [k] on its menu, the cursor being [s]. *)
Definition after_call (h : Main.Host) (c : loc) (s : Z)
  (items : list MenuItem.t) (k : call) : Main.Host :=
  Main.mkHost
    (add_trace (call_events (Main.mainMenu h) s items k)
       (set_cursor c
          (clamp_step (len (MenuList.MenuItems (Main.mainMenu h))) s k)
          (Main.world h)))
    (Main.state h) (Main.square h) (Main.mainMenu h)
    (Main.calls h
     ++ (Main.HvEngine <$> call_events (Main.mainMenu h) s items k)).

(** The outcome of a block of [update] that ends as [v] says, from the
    host [h'] it has reached: an early [return nil] in the new state, or
    the exit. *)
Definition block_outcome (v : option verdict) (h' : Main.Host)
  : Main.outcome (option error) :=
  match v with
  | None => Main.Done None h'
  | Some (Continue st) => Main.Done (Some None) (host_with_state st h')
  | Some (Exit code) => Main.Exited code h'
  end.

(** The colours of [update]: the clear colour and the two squares. *)
Definition clear_colour : NRGBA :=
  mkNRGBA Byte.x00 Byte.x00 Byte.x00 Byte.xff.
Definition play_colour : NRGBA :=
  mkNRGBA Byte.x7f Byte.xff Byte.x00 Byte.xff.
Definition options_colour : NRGBA :=
  mkNRGBA Byte.x8a Byte.x2b Byte.xe2 Byte.xff.

(** The square over a frame from [h] to [h']: the play and the options
    screen use the square there is and allocate one, 32 by 32, only when
    there is none; a frame of another screen leaves square and images
    alone. *)
Definition square_step (h h' : Main.Host) : Prop :=
  match Main.state h with
  | Main.play | Main.options =>
      ∃ q, Main.square h' = Some q
           ∧ match Main.square h with
             | Some q0 =>
                 q = q0
                 ∧ images (Main.world h') = images (Main.world h)
             | None =>
                 images (Main.world h) !! q = None
                 ∧ images (Main.world h')
                   = <[q := mkImage 32 32 FilterNearest]>
                       (images (Main.world h))
             end
  | Main.titleScreen | Main.quit =>
      Main.square h' = Main.square h
      ∧ images (Main.world h') = images (Main.world h)
  end.

(** The engine calls of the square over a frame from [h] to [h']: fill
    with a new colour object, one that did not exist in [h] and is the
    only colour object the frame adds, holding [clr]; composite at
    (64, 64). *)
Definition square_calls (h h' : Main.Host) (scr : loc) (clr : NRGBA)
  (es : list Main.HostEvent) : Prop :=
  ∃ p, colours (Main.world h) !! p = None
       ∧ colours (Main.world h') = <[p := clr]> (colours (Main.world h))
       ∧ es = [Main.HvEngine (EvFill (Main.square h') (Some p));
               Main.HvEngine
                 (EvDrawImage (Some scr) (Main.square h')
                    (GeoM_Translate GeoM_zero 64%float 64%float))].

(** The engine calls of a frame that starts in [h] with the cursor at [s]
    and ends in [h']: the clear, then the debug text and the drawing of
    the screen the frame started on. *)
Definition frame_calls (h h' : Main.Host) (scr : loc) (s : Z)
  (items : list MenuItem.t) : Prop :=
  ∃ es,
    Main.calls h'
    = Main.calls h ++ Main.HvFill (Some scr) clear_colour :: es
    ∧ match Main.state h with
      | Main.titleScreen =>
          es = Main.HvDebugPrint (Some scr) "Title screen"
               :: (Main.HvEngine
                   <$> render (translation_at (Main.mainMenu h)) (Some scr) s
                         (take (s_len (MenuList.MenuItems (Main.mainMenu h)))
                            items))
          ∧ colours (Main.world h') = colours (Main.world h)
      | Main.play =>
          ∃ es', es = Main.HvDebugPrint (Some scr) "Play screen" :: es'
                 ∧ square_calls h h' scr play_colour es'
      | Main.options =>
          ∃ es', es = Main.HvDebugPrint (Some scr) "Options screen" :: es'
                 ∧ square_calls h h' scr options_colour es'
      | Main.quit =>
          es = [] ∧ colours (Main.world h') = colours (Main.world h)
      end.

(** The screens and the cursor over a run of frames, as a machine whose
    only state is the screen [st] and the cursor [s]: where the run ends
    (in which state, or with which exit code) and the cursor it ends
    with. *)
Fixpoint screens (n : Z) (items : list MenuItem.t) (st : Main.gameState)
  (s : Z) (inputs : list Main.Input) : verdict * Z :=
  match inputs with
  | [] => (Continue st, s)
  | pressed :: inputs =>
      let s' := frame_cursor st n s pressed in
      match frame_verdict st (name_at items s') pressed with
      | Continue st' => screens n items st' s' inputs
      | Exit code => (Exit code, s')
      end
  end.

(** The square over a run from [h] to [h']: a square that is there stays
    the same image and no image is added; when there is none, at most one
    image is added, 32 by 32, and it is the square. *)
Definition square_run (h h' : Main.Host) : Prop :=
  match Main.square h with
  | Some q =>
      Main.square h' = Some q
      ∧ images (Main.world h') = images (Main.world h)
  | None =>
      (Main.square h' = None
       ∧ images (Main.world h') = images (Main.world h))
      ∨ ∃ q, Main.square h' = Some q
             ∧ images (Main.world h) !! q = None
             ∧ images (Main.world h')
               = <[q := mkImage 32 32 FilterNearest]> (images (Main.world h))
  end.

(** The outcome of a run that ends as [v] says, in the host [h']. *)
Definition run_outcome (v : verdict) (h' : Main.Host) : Main.outcome error :=
  match v with
  | Continue _ => Main.Done None h'
  | Exit code => Main.Exited code h'
  end.

(** The answer of [IsKeyJustPressed] in a frame in which exactly the keys
    [ks] were pressed. *)
Definition press (ks : list Main.Key) : Main.Input := λ k,
  match k with
  | Main.KeyUp => bool_decide (Main.KeyUp ∈ ks)
  | Main.KeyDown => bool_decide (Main.KeyDown ∈ ks)
  | Main.KeyEnter => bool_decide (Main.KeyEnter ∈ ks)
  | Main.KeyEscape => bool_decide (Main.KeyEscape ∈ ks)
  end.

(* ================================================================== *)
(** ** Whole numbers in binary64

    Vocabulary for the exact case of [float64] arithmetic: a whole number
    below 2^53 in magnitude is a binary64 number, and sums and products
    of such numbers that stay below 2^53 are computed without
    rounding. *)

(** [c] shifted left by [k] bits. *)
Definition shl (c : positive) (k : nat) : positive := Nat.iter k xO c.

(** The number of binary digits of [c]. *)
Definition digits (c : positive) : Z := Zpos (digits2_pos c).

(** [c], of at most 53 digits, shifted to exactly 53 digits. *)
Definition norm53 (c : positive) : positive :=
  shl c (Z.to_nat (53 - digits c)).

(** The binary64 number that is the whole number [z], for [|z| < 2^53]:
    the mantissa is [|z|] shifted to 53 digits. *)
Definition whole (z : Z) : spec_float :=
  match z with
  | Z0 => S754_zero false
  | Zpos c => S754_finite false (norm53 c) (digits c - 53)
  | Zneg c => S754_finite true (norm53 c) (digits c - 53)
  end.

(** Calls of a host that holds two lists, in the order it makes them:
    each call goes to the first list ([true]) or to the second
    ([false]). *)
Fixpoint perform_both (m1 m2 : MenuList.t) (ks : list (bool * call))
  : M unit :=
  match ks with
  | [] => mret tt
  | (first, k) :: ks =>
      _ ← perform (if first then m1 else m2) k; perform_both m1 m2 ks
  end.

(** The calls of [ks] that went to the first list ([which = true]),
    respectively to the second. *)
Fixpoint calls_of (which : bool) (ks : list (bool * call)) : list call :=
  match ks with
  | [] => []
  | (first, k) :: ks =>
      if Bool.eqb first which then k :: calls_of which ks
      else calls_of which ks
  end.

(** Tactics that compute record projections and world updates. *)
Ltac input_simpl :=
  cbn [MenuListInput.Tx MenuListInput.Ty MenuListInput.Width
       MenuListInput.Height MenuListInput.Offx MenuListInput.Offy
       MenuListInput.DefaultBgColour MenuListInput.DefaultTxtColour
       MenuListInput.DefaultSelBGColour MenuListInput.DefaultSelTxtColour
       MenuListInput.MenuItems MenuListInput.with_Offy
       MenuListInput.with_DefaultBgColour MenuListInput.with_DefaultTxtColour
       MenuListInput.with_DefaultSelBGColour
       MenuListInput.with_DefaultSelTxtColour] in *.

Ltac world_simpl :=
  cbn [colours ints arrays images trace with_colours with_ints with_arrays
       with_images with_trace] in *.

(* ================================================================== *)
(** ** Basic facts: numbers, the monad, loops *)

Lemma wrap_in_range z : GoInt.in_range z → GoInt.wrap z = z.
Proof.
  unfold GoInt.in_range, GoInt.wrap, GoInt.min_int, GoInt.max_int.
  intros Hz. rewrite Z.mod_small; lia.
Qed.

Lemma bind_Ok {T U} (m : M T) (k : T → M U) w v w' :
  m w = Ok v w' → (m ≫= k) w = k v w'.
Proof. unfold mbind, M_bind. now intros ->. Qed.

Lemma bind_inv {T U} (m : M T) (k : T → M U) w u w'' :
  (m ≫= k) w = Ok u w'' → ∃ v w', m w = Ok v w' ∧ k v w' = Ok u w''.
Proof.
  unfold mbind, M_bind. destruct (m w) as [v w'|p]; [eauto | discriminate].
Qed.

(** Hoare-style rule for [range_loop]: an invariant that every iteration
    re-establishes holds at the end, and the loop does not panic. *)
Lemma range_loop_inv {S : Type} (I : nat → S → World → Prop)
  (body : nat → S → M S) (count first : nat) (s : S) (w : World) :
  I first s w →
  (∀ i s w, (first ≤ i < first + count)%nat → I i s w →
            ∃ s' w', body i s w = Ok s' w' ∧ I (Datatypes.S i) s' w') →
  ∃ s' w', range_loop body first count s w = Ok s' w'
           ∧ I (first + count)%nat s' w'.
Proof.
  revert first s w. induction count as [|count IH]; intros first s w H0 Hstep.
  - exists s, w. rewrite Nat.add_0_r. easy.
  - destruct (Hstep first s w) as (s1 & w1 & Hb & H1); [lia | exact H0 |].
    destruct (IH (Datatypes.S first) s1 w1 H1) as (s2 & w2 & Hl & H2).
    + intros i s' w' Hi. apply Hstep. lia.
    + exists s2, w2. split.
      * cbn [range_loop]. now rewrite (bind_Ok _ _ _ _ _ Hb).
      * now replace (first + Datatypes.S count)%nat
          with (Datatypes.S first + count)%nat by lia.
Qed.

(** *** World updates *)

Lemma with_arrays_twice a b w :
  with_arrays a (with_arrays b w) = with_arrays a w.
Proof. reflexivity. Qed.

Lemma with_arrays_same w : with_arrays (arrays w) w = w.
Proof. now destruct w. Qed.

Lemma with_ints_same w : with_ints (ints w) w = w.
Proof. now destruct w. Qed.

(** *** Slices *)

Lemma slice_ok_inv w s :
  slice_ok w s = true →
  len s <= GoInt.max_int ∧
  (s_len s = 0%nat ∨
   ∃ l items, s_data s = Some l ∧ arrays w !! l = Some items
              ∧ (s_len s ≤ length items)%nat).
Proof.
  unfold slice_ok. intros [H1 H2]%andb_prop.
  apply bool_decide_eq_true in H1. split; [exact H1 |].
  destruct (s_data s) as [l|].
  - destruct (arrays w !! l) as [items|] eqn:E; [| discriminate].
    apply bool_decide_eq_true in H2. right. eauto.
  - apply bool_decide_eq_true in H2. now left.
Qed.

Lemma slice_index_ok s (i : nat) w l items it :
  s_data s = Some l → arrays w !! l = Some items → (i < s_len s)%nat →
  items !! i = Some it →
  slice_index s (Z.of_nat i) w = Ok it w.
Proof.
  intros Hd Ha Hi Hit. unfold slice_index, len.
  rewrite bool_decide_eq_true_2 by lia.
  rewrite Hd, Ha. cbn. now rewrite Nat2Z.id, Hit.
Qed.

Lemma slice_update_ok s (i : nat) f w l items it :
  s_data s = Some l → arrays w !! l = Some items → (i < s_len s)%nat →
  items !! i = Some it →
  slice_update s (Z.of_nat i) f w
  = Ok tt (with_arrays (<[l := <[i := f it]> items]> (arrays w)) w).
Proof.
  intros Hd Ha Hi Hit. unfold slice_update, len.
  rewrite bool_decide_eq_true_2 by lia.
  now rewrite Hd, Ha, Nat2Z.id, Hit.
Qed.

(** The world in which element [i] of the array at [l] holds [x]. *)
Lemma slice_update_at s (i : nat) f w l items x :
  s_data s = Some l → (i < s_len s)%nat → (i < length items)%nat →
  slice_update s (Z.of_nat i) f
    (with_arrays (<[l := <[i := x]> items]> (arrays w)) w)
  = Ok tt (with_arrays (<[l := <[i := f x]> items]> (arrays w)) w).
Proof.
  intros Hd Hi Hlt.
  rewrite (slice_update_ok s i f _ l (<[i := x]> items) x); trivial.
  - cbn [arrays with_arrays]. rewrite with_arrays_twice.
    now rewrite insert_insert_eq, list_insert_insert_eq.
  - cbn [arrays with_arrays]. apply lookup_insert_eq.
  - now apply list_lookup_insert_eq.
Qed.

Lemma slice_index_at s (i : nat) w l items x :
  s_data s = Some l → (i < s_len s)%nat → (i < length items)%nat →
  slice_index s (Z.of_nat i)
    (with_arrays (<[l := <[i := x]> items]> (arrays w)) w)
  = Ok x (with_arrays (<[l := <[i := x]> items]> (arrays w)) w).
Proof.
  intros Hd Hi Hlt.
  apply (slice_index_ok s i _ l (<[i := x]> items)); trivial.
  - cbn [arrays with_arrays]. apply lookup_insert_eq.
  - now apply list_lookup_insert_eq.
Qed.

Lemma world_at w l (i : nat) items x :
  arrays w !! l = Some items → items !! i = Some x →
  with_arrays (<[l := <[i := x]> items]> (arrays w)) w = w.
Proof.
  intros Ha Hx. rewrite (list_insert_id _ _ _ Hx), (insert_id _ _ _ Ha).
  apply with_arrays_same.
Qed.

(** *** The first loop of [NewMenu] *)

Lemma NewMenu_resolve_at input ml (i : nat) w l items x :
  MenuList.MenuItems ml = MenuListInput.MenuItems input →
  s_data (MenuList.MenuItems ml) = Some l →
  (i < s_len (MenuList.MenuItems ml))%nat → (i < length items)%nat →
  NewMenu_resolve input ml i
    (with_arrays (<[l := <[i := x]> items]> (arrays w)) w)
  = Ok tt (with_arrays (<[l := <[i := resolve ml x]> items]> (arrays w)) w).
Proof.
  intros Hsame Hd Hi Hlt. unfold NewMenu_resolve. rewrite <- Hsame.
  rewrite (bind_Ok _ _ _ _ _ (slice_index_at _ i w l items x Hd Hi Hlt)).
  destruct x as [name text tx ty img bg txt selbg seltxt].
  unfold resolve. cbn [MenuItem.Name MenuItem.Text MenuItem.TxtX MenuItem.TxtY
    MenuItem.image MenuItem.BgColour MenuItem.TxtColour MenuItem.SelBgColour
    MenuItem.SelTxtColour].
  destruct bg, txt, selbg, seltxt, (ty =? 0);
    repeat (erewrite bind_Ok by (apply slice_update_at; eassumption));
    try (erewrite slice_update_at by eassumption);
    reflexivity.
Qed.

Lemma NewMenu_resolve_ok input ml (i : nat) w l items x :
  MenuList.MenuItems ml = MenuListInput.MenuItems input →
  s_data (MenuList.MenuItems ml) = Some l →
  (i < s_len (MenuList.MenuItems ml))%nat →
  arrays w !! l = Some items → items !! i = Some x →
  NewMenu_resolve input ml i w
  = Ok tt (with_arrays (<[l := <[i := resolve ml x]> items]> (arrays w)) w).
Proof.
  intros Hsame Hd Hi Ha Hx.
  rewrite <- (world_at w l i items x Ha Hx) at 1.
  apply NewMenu_resolve_at; trivial. now apply lookup_lt_Some in Hx.
Qed.

Lemma resolved_prefix_step {T} (f : T → T) (k : nat) (items : list T) x :
  items !! k = Some x →
  <[k := f x]> ((f <$> take k items) ++ drop k items)
  = (f <$> take (S k) items) ++ drop (S k) items.
Proof.
  intros Hx. pose proof (lookup_lt_Some _ _ _ Hx) as Hlt.
  rewrite (take_S_r _ _ _ Hx), (drop_S _ _ _ Hx), fmap_app.
  cbn [fmap list_fmap]. rewrite <- app_assoc. cbn [app].
  rewrite insert_app_r_alt; rewrite length_fmap, length_take; [| lia].
  now replace (k - k `min` length items)%nat with 0%nat by lia.
Qed.

Lemma resolved_prefix_lookup {T} (f : T → T) (k : nat) (items : list T) :
  ((f <$> take k items) ++ drop k items) !! k = items !! k.
Proof.
  destruct (decide (k < length items)%nat) as [Hlt|Hge].
  - rewrite lookup_app_r; rewrite length_fmap, length_take; [| lia].
    rewrite lookup_drop. f_equal. lia.
  - rewrite take_ge, drop_ge by lia. rewrite app_nil_r.
    rewrite !lookup_ge_None_2; [easy | lia | rewrite length_fmap; lia].
Qed.

Lemma NewMenu_resolve_loop input ml w l items :
  MenuList.MenuItems ml = MenuListInput.MenuItems input →
  s_data (MenuList.MenuItems ml) = Some l →
  arrays w !! l = Some items →
  (s_len (MenuList.MenuItems ml) ≤ length items)%nat →
  range_loop (λ i _, NewMenu_resolve input ml i)
    0 (s_len (MenuList.MenuItems ml)) tt w
  = Ok tt (with_arrays
             (<[l := (resolve ml <$> take (s_len (MenuList.MenuItems ml)) items)
                     ++ drop (s_len (MenuList.MenuItems ml)) items]>
                (arrays w)) w).
Proof.
  intros Hsame Hd Ha Hn.
  destruct (range_loop_inv
    (λ k _ wk, wk = with_arrays
       (<[l := (resolve ml <$> take k items) ++ drop k items]> (arrays w)) w)
    (λ i _, NewMenu_resolve input ml i)
    (s_len (MenuList.MenuItems ml)) 0 tt w) as ([] & w' & Hrun & Hw').
  - rewrite take_0, drop_0. cbn [fmap list_fmap app].
    now rewrite (insert_id _ _ _ Ha), with_arrays_same.
  - intros i [] wk Hi ->.
    destruct (lookup_lt_is_Some_2 items i) as [x Hx]; [lia |].
    exists tt. eexists. split; [| reflexivity].
    rewrite (NewMenu_resolve_ok input ml i _ l
               ((resolve ml <$> take i items) ++ drop i items) x); trivial.
    + cbn [arrays with_arrays]. rewrite with_arrays_twice, insert_insert_eq.
      now rewrite (resolved_prefix_step _ _ _ _ Hx).
    + lia.
    + cbn [arrays with_arrays]. apply lookup_insert_eq.
    + now rewrite resolved_prefix_lookup.
  - now rewrite Hrun, Hw'.
Qed.

(** *** The second loop of [NewMenu] *)

Lemma fresh_lookup_None {V} (m : gmap loc V) : m !! fresh (dom m) = None.
Proof. apply not_elem_of_dom, is_fresh. Qed.

Lemma NewMenu_allocate_step ml w0 l items (i : nat) imgs items' :
  s_data (MenuList.MenuItems ml) = Some l →
  (i < s_len (MenuList.MenuItems ml))%nat →
  (s_len (MenuList.MenuItems ml) ≤ length items)%nat →
  images_allocated ml (images w0) items i imgs items' →
  ∃ imgs1 items1,
    NewMenu_allocate ml i
      (with_images imgs (with_arrays (<[l := items']> (arrays w0)) w0))
    = Ok tt (with_images imgs1
               (with_arrays (<[l := items1]> (arrays w0)) w0))
    ∧ images_allocated ml (images w0) items (S i) imgs1 items1.
Proof.
  intros Hd Hi Hn (Hsub & Hlen & Hrest & Hdone & Hdiff).
  destruct (lookup_lt_is_Some_2 items i) as [x Hx]; [lia |].
  set (img := fresh (dom imgs)).
  set (im := mkImage (MenuList.Width ml) (MenuList.Height ml) FilterNearest).
  assert (Hfresh : imgs !! img = None) by apply fresh_lookup_None.
  exists (<[img := im]> imgs),
    (<[i := MenuItem.with_image (Some img) x]> items').
  split.
  - unfold NewMenu_allocate, ebiten_NewImage.
    unfold mbind at 1, M_bind. cbn [fst images with_images with_arrays].
    fold img im.
    rewrite (slice_update_ok _ i _ _ l items' x); trivial.
    + cbn [arrays with_arrays with_images colours ints images trace].
      unfold with_arrays, with_images. cbn. now rewrite insert_insert_eq.
    + cbn. apply lookup_insert_eq.
    + rewrite Hrest by lia. exact Hx.
  - split; [| split; [| split; [| split]]].
    + etrans; [exact Hsub |]. now apply insert_subseteq.
    + now rewrite length_insert.
    + intros j Hj. rewrite list_lookup_insert_ne by lia. apply Hrest. lia.
    + intros j y Hj Hy. destruct (decide (j = i)) as [->|Hne].
      * exists img. rewrite Hx in Hy. injection Hy as <-.
        split; [| split].
        -- apply list_lookup_insert_eq. lia.
        -- eapply lookup_weaken_None; eassumption.
        -- apply lookup_insert_eq.
      * destruct (Hdone j y) as (img' & H1 & H2 & H3); [lia | exact Hy |].
        exists img'. split; [| split; [exact H2 |]].
        -- now rewrite list_lookup_insert_ne by lia.
        -- rewrite lookup_insert_ne; [exact H3 |]. intros ->. congruence.
    + intros j1 j2 y1 y2 Hj. rewrite (list_lookup_insert_ne _ i j1) by lia.
      intros Hy1. destruct (decide (j2 = i)) as [->|Hne].
      * rewrite list_lookup_insert_eq by lia. intros [= <-].
        destruct (lookup_lt_is_Some_2 items j1) as [x1 Hx1]; [lia |].
        destruct (Hdone j1 x1) as (img1 & H1 & _ & H3); [lia | exact Hx1 |].
        rewrite Hy1 in H1. injection H1 as ->. cbn. intros [= ->].
        congruence.
      * rewrite list_lookup_insert_ne by lia. intros Hy2.
        apply (Hdiff j1 j2 y1 y2); [lia | exact Hy1 | exact Hy2].
Qed.

Lemma NewMenu_allocate_loop ml w l items :
  s_data (MenuList.MenuItems ml) = Some l →
  arrays w !! l = Some items →
  (s_len (MenuList.MenuItems ml) ≤ length items)%nat →
  ∃ imgs items',
    range_loop (λ i _, NewMenu_allocate ml i)
      0 (s_len (MenuList.MenuItems ml)) tt w
    = Ok tt (with_images imgs (with_arrays (<[l := items']> (arrays w)) w))
    ∧ images_allocated ml (images w) items
        (s_len (MenuList.MenuItems ml)) imgs items'.
Proof.
  intros Hd Ha Hn.
  destruct (range_loop_inv
    (λ k _ wk, ∃ imgs items',
       wk = with_images imgs (with_arrays (<[l := items']> (arrays w)) w)
       ∧ images_allocated ml (images w) items k imgs items')
    (λ i _, NewMenu_allocate ml i)
    (s_len (MenuList.MenuItems ml)) 0 tt w)
    as ([] & w' & Hrun & imgs & items' & -> & Hinv).
  - exists (images w), items. split.
    + rewrite (insert_id _ _ _ Ha). now destruct w.
    + repeat split; first [easy | intros; lia].
  - intros i [] wk Hi (imgs & items' & -> & Hinv).
    destruct (NewMenu_allocate_step ml w l items i imgs items')
      as (imgs1 & items1 & Hstep & Hinv1); trivial; [lia |].
    exists tt. eexists. split; [exact Hstep |]. eauto.
  - exists imgs, items'. now split.
Qed.

(** *** [NewMenu] as a whole *)

Lemma with_colours_twice a b w :
  with_colours a (with_colours b w) = with_colours a w.
Proof. reflexivity. Qed.

Lemma default_colour_spec p c w :
  ∃ p' cs,
    default_colour p c w = Ok p' (with_colours cs w)
    ∧ colours w ⊆ cs
    ∧ match p with
      | Some _ => p' = p
      | None =>
          ∃ q, p' = Some q ∧ colours w !! q = None ∧ cs !! q = Some c
      end.
Proof.
  destruct p as [q|]; cbn [default_colour].
  - exists (Some q), (colours w). split; [| easy].
    unfold mret, M_ret. now destruct w.
  - unfold new_NRGBA. eexists _, _. split; [reflexivity |].
    pose proof (fresh_lookup_None (colours w)) as Hf. split.
    + now apply insert_subseteq.
    + eexists. split; [reflexivity |]. split; [exact Hf |].
      apply lookup_insert_eq.
Qed.

Lemma NewMenu_valid input w :
  slice_ok w (MenuListInput.MenuItems input) = true →
  MenuListInput.Width input ≠ 0 → MenuListInput.Height input ≠ 0 →
  1 <= len (MenuListInput.MenuItems input) →
  ∃ ml w', NewMenu input w = Ok (ml, None) w' ∧ built input w ml w'.
Proof.
  intros Hok HW HH Hlen.
  destruct (slice_ok_inv _ _ Hok) as [Hmax [Hz | (l & items & Hd & Ha & Hn)]];
    [unfold len in Hlen; lia |].
  unfold NewMenu.
  rewrite (proj2 (Z.eqb_neq _ _) HW), (proj2 (Z.eqb_neq _ _) HH).
  rewrite (proj2 (Z.ltb_ge _ _) Hlen).
  set (input1 := if (MenuListInput.Offy input =? 0)%float then _ else _).
  assert (Hsame : ∀ {T} (f : MenuListInput.t → T),
             (∀ v i, f (MenuListInput.with_Offy v i) = f i) →
             f input1 = f input).
  { intros T f Hf. subst input1. destruct (_ =? _)%float; [apply Hf | easy]. }
  destruct (default_colour_spec (MenuListInput.DefaultBgColour input1) cyan w)
    as (bg & cs1 & Hrun1 & Hsub1 & Hbg).
  rewrite (bind_Ok _ _ _ _ _ Hrun1). input_simpl.
  destruct (default_colour_spec (MenuListInput.DefaultTxtColour input1) black
              (with_colours cs1 w))
    as (txt & cs2 & Hrun2 & Hsub2 & Htxt).
  rewrite (bind_Ok _ _ _ _ _ Hrun2). input_simpl.
  destruct (default_colour_spec (MenuListInput.DefaultSelBGColour input1)
              magenta (with_colours cs2 (with_colours cs1 w)))
    as (selbg & cs3 & Hrun3 & Hsub3 & Hselbg).
  rewrite (bind_Ok _ _ _ _ _ Hrun3). input_simpl.
  destruct (default_colour_spec (MenuListInput.DefaultSelTxtColour input1)
              white (with_colours cs3 (with_colours cs2 (with_colours cs1 w))))
    as (seltxt & cs4 & Hrun4 & Hsub4 & Hseltxt).
  rewrite (bind_Ok _ _ _ _ _ Hrun4). input_simpl.
  rewrite !with_colours_twice in *. world_simpl.
  unfold new_int at 1. unfold mbind at 1, M_bind at 1. world_simpl.
  set (c := fresh (dom (ints w))).
  set (w5 := with_ints _ _).
  match goal with |- context [NewMenu_resolve ?i ?m] =>
    set (input5 := i); set (ml := m) end.
  assert (Hi1 : MenuListInput.MenuItems input1 = MenuListInput.MenuItems input)
    by (apply (Hsame _ MenuListInput.MenuItems); reflexivity).
  assert (Hml : MenuList.MenuItems ml = MenuListInput.MenuItems input5)
    by reflexivity.
  assert (Hd' : s_data (MenuList.MenuItems ml) = Some l)
    by (cbn [ml MenuList.MenuItems]; now rewrite Hi1).
  assert (Hn' : (s_len (MenuList.MenuItems ml) ≤ length items)%nat)
    by (cbn [ml MenuList.MenuItems]; now rewrite Hi1).
  change (s_len (MenuListInput.MenuItems input1))
    with (s_len (MenuList.MenuItems ml)).
  rewrite (bind_Ok _ _ _ _ _
             (NewMenu_resolve_loop input5 ml w5 l items Hml Hd' Ha Hn')).
  set (n := s_len (MenuList.MenuItems ml)) in *.
  set (items1 := (resolve ml <$> take n items) ++ drop n items).
  set (w6 := with_arrays _ w5).
  destruct (NewMenu_allocate_loop ml w6 l items1)
    as (imgs & items' & Hrun & Hall).
  { exact Hd'. }
  { apply lookup_insert_eq. }
  { subst items1.
    rewrite length_app, length_fmap, length_take, length_drop. lia. }
  rewrite (bind_Ok _ _ _ _ _ Hrun).
  eexists _, _. split; [reflexivity |].
  assert (Hdef : ∀ given built' fallback csa csb,
            colours w ⊆ csa → csb ⊆ cs4 →
            match given with
            | Some _ => built' = given
            | None => ∃ q, built' = Some q ∧ csa !! q = None
                           ∧ csb !! q = Some fallback
            end →
            default_resolved w
              (with_images imgs (with_arrays (<[l:=items']> (arrays w6)) w6))
              given built' fallback).
  { intros given built' fallback csa csb Ha' Hb' Hm. unfold default_resolved.
    destruct given; [exact Hm |]. destruct Hm as (q & -> & Hq1 & Hq2).
    exists q. split; [easy |]. split.
    - eapply lookup_weaken_None; eassumption.
    - cbn. eapply lookup_weaken; eassumption. }
  assert (H12 : colours w ⊆ cs2) by (etrans; eassumption).
  assert (H13 : colours w ⊆ cs3) by (etrans; eassumption).
  assert (H24 : cs2 ⊆ cs4) by (etrans; eassumption).
  assert (H14 : cs1 ⊆ cs4) by (etrans; eassumption).
  constructor.
  - apply (Hsame _ MenuListInput.Tx); reflexivity.
  - apply (Hsame _ MenuListInput.Ty); reflexivity.
  - apply (Hsame _ MenuListInput.Width); reflexivity.
  - apply (Hsame _ MenuListInput.Height); reflexivity.
  - apply (Hsame _ MenuListInput.Offx); reflexivity.
  - cbn [ml MenuList.Offy]. subst input1.
    now destruct (MenuListInput.Offy input =? 0)%float.
  - exact Hi1.
  - rewrite <- (Hsame _ MenuListInput.DefaultBgColour) by reflexivity.
    now apply (Hdef _ _ _ (colours w) cs1).
  - rewrite <- (Hsame _ MenuListInput.DefaultTxtColour) by reflexivity.
    now apply (Hdef _ _ _ cs1 cs2).
  - rewrite <- (Hsame _ MenuListInput.DefaultSelBGColour) by reflexivity.
    now apply (Hdef _ _ _ cs2 cs3).
  - rewrite <- (Hsame _ MenuListInput.DefaultSelTxtColour) by reflexivity.
    now apply (Hdef _ _ _ cs3 cs4).
  - cbn. etrans; eassumption.
  - exists c. split; [reflexivity |].
    split; [apply fresh_lookup_None | reflexivity].
  - exists l, items, items'. split; [exact Hd' |]. split; [exact Ha |]. split.
    + cbn. now rewrite insert_insert_eq.
    + exact Hall.
  - reflexivity.
Qed.

Lemma NewMenu_invalid input w :
  NewMenu input w
  = if MenuListInput.Width input =? 0 then
      Ok (MenuList.zero,
          errors_New "Mandatory input field width is missing") w
    else if MenuListInput.Height input =? 0 then
      Ok (MenuList.zero,
          errors_New "Mandatory input field height is missing") w
    else if len (MenuListInput.MenuItems input) <? 1 then
      Ok (MenuList.zero,
          errors_New "Mandatory input field MenuItems is missing") w
    else NewMenu input w.
Proof.
  unfold NewMenu.
  destruct (_ =? 0); [reflexivity |].
  destruct (_ =? 0); [reflexivity |].
  destruct (_ <? 1); reflexivity.
Qed.

(** A run of [NewMenu] that returns a list without an error went past the
    validation, and left the world as [built] says. *)
Lemma NewMenu_success input w ml w' :
  slice_ok w (MenuListInput.MenuItems input) = true →
  NewMenu input w = Ok (ml, None) w' →
  (MenuListInput.Width input ≠ 0 ∧ MenuListInput.Height input ≠ 0
   ∧ 1 <= len (MenuListInput.MenuItems input))
  ∧ built input w ml w'.
Proof.
  intros Hok Hrun.
  assert (Hvalid : MenuListInput.Width input ≠ 0
                   ∧ MenuListInput.Height input ≠ 0
                   ∧ 1 <= len (MenuListInput.MenuItems input)).
  { rewrite NewMenu_invalid in Hrun. unfold errors_New in Hrun.
    destruct (MenuListInput.Width input =? 0) eqn:EW; [discriminate |].
    destruct (MenuListInput.Height input =? 0) eqn:EH; [discriminate |].
    destruct (len (MenuListInput.MenuItems input) <? 1) eqn:EL;
      [discriminate |].
    apply Z.eqb_neq in EW, EH. apply Z.ltb_ge in EL. easy. }
  split; [exact Hvalid |].
  destruct Hvalid as (HW & HH & HL).
  destruct (NewMenu_valid input w Hok HW HH HL) as (ml' & w'' & Hrun' & Hb).
  rewrite Hrun in Hrun'. now injection Hrun' as <- <-.
Qed.

(* ================================================================== *)
(** ** Navigation *)

Lemma set_cursor_same c s w : ints w !! c = Some s → set_cursor c s w = w.
Proof.
  intros H. unfold set_cursor. rewrite (insert_id _ _ _ H).
  apply with_ints_same.
Qed.

Lemma load_int_ok c s w :
  ints w !! c = Some s → load_int (Some c) w = Ok s w.
Proof. intros H. cbn [load_int]. now rewrite H. Qed.

Lemma store_int_ok c s v w :
  ints w !! c = Some s → store_int (Some c) v w = Ok tt (set_cursor c v w).
Proof. intros H. cbn [store_int]. now rewrite H. Qed.

Lemma IncrementSelected_run m w c s :
  MenuList.SelectedIndex m = Some c → ints w !! c = Some s →
  IncrementSelected m w
  = Ok tt (if s <? GoInt.sub (len (MenuList.MenuItems m)) 1
           then set_cursor c (GoInt.add s 1) w else w).
Proof.
  intros Hc Hs. unfold IncrementSelected. rewrite Hc.
  rewrite (bind_Ok _ _ _ _ _ (load_int_ok c s w Hs)).
  destruct (s <? _); [| reflexivity].
  rewrite (bind_Ok _ _ _ _ _ (load_int_ok c s w Hs)).
  now apply (store_int_ok c s).
Qed.

Lemma DecrementSelected_run m w c s :
  MenuList.SelectedIndex m = Some c → ints w !! c = Some s →
  DecrementSelected m w
  = Ok tt (if s >? 0 then set_cursor c (GoInt.sub s 1) w else w).
Proof.
  intros Hc Hs. unfold DecrementSelected. rewrite Hc.
  rewrite (bind_Ok _ _ _ _ _ (load_int_ok c s w Hs)).
  destruct (s >? 0); [| reflexivity].
  rewrite (bind_Ok _ _ _ _ _ (load_int_ok c s w Hs)).
  now apply (store_int_ok c s).
Qed.

(* ================================================================== *)
(** ** Reading the selection and rendering *)

Lemma GetSelectedItem_ok m w c s l items it :
  MenuList.SelectedIndex m = Some c → ints w !! c = Some s →
  s_data (MenuList.MenuItems m) = Some l → arrays w !! l = Some items →
  0 <= s < len (MenuList.MenuItems m) →
  items !! Z.to_nat s = Some it →
  GetSelectedItem m w = Ok (MenuItem.Name it) w.
Proof.
  intros Hc Hs Hd Ha Hr Hit. unfold GetSelectedItem. rewrite Hc.
  rewrite (bind_Ok _ _ _ _ _ (load_int_ok c s w Hs)).
  rewrite <- (Z2Nat.id s) at 1 by lia.
  rewrite (bind_Ok _ _ _ _ _
             (slice_index_ok _ (Z.to_nat s) w l items it Hd Ha
                ltac:(unfold len in Hr; lia) Hit)).
  reflexivity.
Qed.

Lemma add_trace_twice es es' w :
  add_trace es' (add_trace es w) = add_trace (es ++ es') w.
Proof.
  unfold add_trace. world_simpl. unfold with_trace. cbn.
  now rewrite app_assoc.
Qed.

Lemma add_trace_nil w : add_trace [] w = w.
Proof. unfold add_trace. rewrite app_nil_r. now destruct w. Qed.

Lemma Image_Fill_ok img clr w :
  Image_Fill (Some img) (Some clr) w
  = Ok None (add_trace [EvFill (Some img) (Some clr)] w).
Proof. reflexivity. Qed.

Lemma text_Draw_ok img text face x y clr w :
  text_Draw (Some img) text face x y (Some clr) w
  = Ok tt (add_trace [EvText (Some img) text face x y (Some clr)] w).
Proof. reflexivity. Qed.

Lemma Image_DrawImage_ok dst src g w :
  Image_DrawImage (Some dst) (Some src) g w
  = Ok None (add_trace [EvDrawImage (Some dst) (Some src) g] w).
Proof. reflexivity. Qed.

Lemma render_snoc place screen sel items x :
  render place screen sel (items ++ [x])
  = render place screen sel items
    ++ render_item screen sel (length items) x (place (length items)).
Proof.
  unfold render. rewrite imap_app, concat_app. cbn [imap concat].
  now rewrite Nat.add_0_r, app_nil_r.
Qed.

(** One pass of the loop of [Draw] over a renderable item. *)
Lemma Draw_item_ok m scr w c s l items (i : nat) x g :
  MenuList.SelectedIndex m = Some c → ints w !! c = Some s →
  s_data (MenuList.MenuItems m) = Some l → arrays w !! l = Some items →
  (i < s_len (MenuList.MenuItems m))%nat → items !! i = Some x →
  renderable x →
  Draw_item m (Some scr) i g w
  = Ok (GeoM_Translate g (MenuList.Offx m) (MenuList.Offy m))
       (add_trace (render_item (Some scr) s i x g) w).
Proof.
  intros Hc Hs Hd Ha Hi Hx ([img Himg] & [bg Hbg] & [txt Htxt]
                            & [sbg Hsbg] & [stxt Hstxt]).
  unfold Draw_item, render_item.
  rewrite (bind_Ok _ _ _ _ _ (slice_index_ok _ i w l items x Hd Ha Hi Hx)).
  rewrite Hc, (bind_Ok _ _ _ _ _ (load_int_ok c s w Hs)).
  rewrite Himg, Hbg, Htxt, Hsbg, Hstxt.
  destruct (Z.of_nat i =? s) eqn:E.
  - rewrite (bind_Ok _ _ _ _ _ (Image_Fill_ok _ _ w)).
    rewrite (bind_Ok _ _ _ _ _ (load_int_ok c s (add_trace _ w) Hs)), E.
    rewrite (bind_Ok _ _ _ _ _ (text_Draw_ok _ _ _ _ _ _ _)).
    rewrite (bind_Ok _ _ _ _ _ (Image_DrawImage_ok _ _ _ _)).
    now rewrite !add_trace_twice.
  - rewrite (bind_Ok _ _ _ _ _ (Image_Fill_ok _ _ w)).
    rewrite (bind_Ok _ _ _ _ _ (load_int_ok c s (add_trace _ w) Hs)), E.
    rewrite (bind_Ok _ _ _ _ _ (text_Draw_ok _ _ _ _ _ _ _)).
    rewrite (bind_Ok _ _ _ _ _ (Image_DrawImage_ok _ _ _ _)).
    now rewrite !add_trace_twice.
Qed.

(** [Draw] on a list whose first [len] elements are renderable: no panic,
    the world changes by the engine calls of [render] and nothing else. *)
Lemma Draw_ok m scr w c s l items :
  MenuList.SelectedIndex m = Some c → ints w !! c = Some s →
  s_data (MenuList.MenuItems m) = Some l → arrays w !! l = Some items →
  (s_len (MenuList.MenuItems m) ≤ length items)%nat →
  Forall renderable (take (s_len (MenuList.MenuItems m)) items) →
  Draw m (Some scr) w
  = Ok tt (add_trace
             (render (translation_at m) (Some scr) s
                (take (s_len (MenuList.MenuItems m)) items)) w).
Proof.
  intros Hc Hs Hd Ha Hn Hren. unfold Draw.
  destruct (range_loop_inv
    (λ k g wk, g = translation_at m k
               ∧ wk = add_trace
                        (render (translation_at m) (Some scr) s (take k items))
                        w)
    (Draw_item m (Some scr))
    (s_len (MenuList.MenuItems m)) 0
    (GeoM_Translate GeoM_zero (MenuList.Tx m) (MenuList.Ty m)) w)
    as (g & w' & Hrun & _ & ->).
  - split; [reflexivity |]. rewrite take_0. cbn. now rewrite add_trace_nil.
  - intros i g wk Hi (-> & ->).
    destruct (lookup_lt_is_Some_2 items i) as [x Hx]; [lia |].
    assert (Hrx : renderable x).
    { rewrite Forall_forall in Hren. apply Hren.
      apply list_elem_of_lookup. exists i.
      rewrite lookup_take_lt by lia. exact Hx. }
    eexists _, _. split.
    + apply (Draw_item_ok m scr _ c s l items i x); trivial. lia.
    + split; [reflexivity |].
      rewrite add_trace_twice, (take_S_r _ _ _ Hx), render_snoc.
      rewrite length_take. now replace (i `min` length items)%nat with i by lia.
  - now rewrite (bind_Ok _ _ _ _ _ Hrun).
Qed.

(* ================================================================== *)
(** ** Sequences of calls *)

Lemma clamp_step_range n s k :
  0 <= s <= n - 1 → 0 <= clamp_step n s k <= n - 1.
Proof.
  intros Hs. destruct k; cbn [clamp_step]; [| | exact Hs | exact Hs].
  - destruct (Z.ltb_spec s (n - 1)); lia.
  - destruct (Z.ltb_spec 0 s); lia.
Qed.

Lemma clamp_steps_range n ks s :
  0 <= s <= n - 1 → 0 <= clamp_steps n s ks <= n - 1.
Proof.
  revert s. induction ks as [|k ks IH]; intros s Hs; [exact Hs |].
  apply IH. now apply clamp_step_range.
Qed.

Lemma clamp_steps_increments n k :
  1 <= n →
  clamp_steps n 0 (replicate k CallIncrement) = Z.min (Z.of_nat k) (n - 1).
Proof.
  intros Hn. unfold clamp_steps.
  induction k as [|k IH].
  - cbn. lia.
  - replace (S k) with (k + 1)%nat by lia.
    rewrite replicate_add, foldl_app, IH. cbn [replicate foldl clamp_step].
    destruct (Z.ltb_spec (Z.min (Z.of_nat k) (n - 1)) (n - 1)); lia.
Qed.

Lemma clamp_steps_decrements n k :
  clamp_steps n 0 (replicate k CallDecrement) = 0.
Proof.
  unfold clamp_steps. induction k as [|k IH]; [reflexivity |].
  replace (S k) with (k + 1)%nat by lia.
  now rewrite replicate_add, foldl_app, IH.
Qed.

Lemma ready_frame w m c l items es s :
  ready w m c l items → ready (add_trace es (set_cursor c s w)) m c l items.
Proof. intros []. now constructor. Qed.

(** One call on a ready list with the cursor in range: no panic; the
    cursor moves by [clamp_step], the trace grows by [call_events], and
    nothing else changes. *)
Lemma perform_ok m w c l items s k :
  ready w m c l items → ints w !! c = Some s →
  0 <= s <= len (MenuList.MenuItems m) - 1 →
  perform m k w
  = Ok tt (add_trace (call_events m s items k)
             (set_cursor c (clamp_step (len (MenuList.MenuItems m)) s k) w)).
Proof.
  intros [Hc Hd Ha [Hl1 Hmax] Hcap Hren] Hs Hr.
  assert (Hsub : GoInt.sub (len (MenuList.MenuItems m)) 1
                 = len (MenuList.MenuItems m) - 1).
  { apply wrap_in_range. unfold GoInt.in_range, GoInt.min_int in *.
    unfold GoInt.max_int in *. lia. }
  destruct k as [| | |scr]; cbn [perform clamp_step call_events].
  - rewrite add_trace_nil, (IncrementSelected_run m w c s Hc Hs), Hsub.
    destruct (Z.ltb_spec s (len (MenuList.MenuItems m) - 1)) as [Hlt|Hge].
    + unfold GoInt.add. rewrite wrap_in_range; [reflexivity |].
      unfold GoInt.in_range, GoInt.min_int, GoInt.max_int in *. lia.
    + now rewrite set_cursor_same.
  - rewrite add_trace_nil, (DecrementSelected_run m w c s Hc Hs).
    rewrite Z.gtb_ltb.
    destruct (Z.ltb_spec 0 s) as [Hlt|Hge].
    + unfold GoInt.sub. rewrite wrap_in_range; [reflexivity |].
      unfold GoInt.in_range, GoInt.min_int, GoInt.max_int in *. lia.
    + now rewrite set_cursor_same.
  - rewrite add_trace_nil, (set_cursor_same _ _ _ Hs).
    destruct (lookup_lt_is_Some_2 items (Z.to_nat s)) as [it Hit];
      [unfold len in *; lia |].
    rewrite (bind_Ok _ _ _ _ _
               (GetSelectedItem_ok m w c s l items it Hc Hs Hd Ha
                  ltac:(lia) Hit)).
    reflexivity.
  - rewrite (set_cursor_same _ _ _ Hs).
    now apply (Draw_ok m scr w c s l items).
Qed.

Lemma perform_all_ok m ks w c l items s :
  ready w m c l items → ints w !! c = Some s →
  0 <= s <= len (MenuList.MenuItems m) - 1 →
  ∃ es, perform_all m ks w
        = Ok tt (add_trace es
                   (set_cursor c
                      (clamp_steps (len (MenuList.MenuItems m)) s ks) w)).
Proof.
  revert w s. induction ks as [|k ks IH]; intros w s Hready Hs Hr.
  - exists []. cbn. now rewrite add_trace_nil, set_cursor_same.
  - cbn [perform_all clamp_steps foldl].
    rewrite (bind_Ok _ _ _ _ _ (perform_ok m w c l items s k Hready Hs Hr)).
    destruct (IH (add_trace (call_events m s items k)
                    (set_cursor c
                       (clamp_step (len (MenuList.MenuItems m)) s k) w))
                 (clamp_step (len (MenuList.MenuItems m)) s k))
      as [es Hes].
    + now apply ready_frame.
    + apply lookup_insert_eq.
    + now apply clamp_step_range.
    + exists (call_events m s items k ++ es). rewrite Hes.
      unfold add_trace, set_cursor, with_trace, with_ints. cbn.
      now rewrite insert_insert_eq, app_assoc.
Qed.

(* ================================================================== *)
(** ** From a built list to a ready one *)

Lemma default_resolved_is_Some w w' given built' fallback :
  default_resolved w w' given built' fallback → is_Some built'.
Proof.
  unfold default_resolved. destruct given as [p|].
  - intros ->. eauto.
  - intros (q & -> & _). eauto.
Qed.

Lemma override_is_Some own default :
  is_Some default → is_Some (override own default).
Proof. destruct own; cbn; eauto. Qed.

Lemma resolved_prefix_lookup_lt {T} (f : T → T) (n j : nat) (items : list T) :
  (j < n)%nat → (n ≤ length items)%nat →
  ((f <$> take n items) ++ drop n items) !! j = f <$> items !! j.
Proof.
  intros Hj Hn. rewrite lookup_app_l by (rewrite length_fmap, length_take; lia).
  now rewrite list_lookup_fmap, lookup_take_lt.
Qed.

Lemma resolved_prefix_lookup_ge {T} (f : T → T) (n j : nat) (items : list T) :
  (n ≤ j)%nat → (n ≤ length items)%nat →
  ((f <$> take n items) ++ drop n items) !! j = items !! j.
Proof.
  intros Hj Hn. rewrite lookup_app_r; rewrite length_fmap, length_take; [| lia].
  rewrite lookup_drop. f_equal. lia.
Qed.

(** The elements of a built list, one by one: each of the first [len] is
    the resolved input element with a new image; the rest of the backing
    array is untouched. *)
Lemma built_items input w ml w' :
  slice_ok w (MenuListInput.MenuItems input) = true →
  1 <= len (MenuListInput.MenuItems input) →
  built input w ml w' →
  ∃ l items items',
    s_data (MenuList.MenuItems ml) = Some l
    ∧ arrays w !! l = Some items ∧ arrays w' !! l = Some items'
    ∧ (s_len (MenuList.MenuItems ml) ≤ length items)%nat
    ∧ length items' = length items
    ∧ (∀ j x,
         (j < s_len (MenuList.MenuItems ml))%nat → items !! j = Some x →
         ∃ img, items' !! j
                = Some (MenuItem.with_image (Some img) (resolve ml x))
                ∧ images w !! img = None
                ∧ images w' !! img
                  = Some (mkImage (MenuList.Width ml) (MenuList.Height ml)
                            FilterNearest))
    ∧ (∀ j, (s_len (MenuList.MenuItems ml) ≤ j)%nat →
         items' !! j = items !! j).
Proof.
  intros Hok Hlen Hb.
  destruct (built_arrays _ _ _ _ Hb)
    as (l & items & items' & Hd & Ha & Ha' & Hsub & Hlen' & Hrest & Hdone & _).
  destruct (slice_ok_inv _ _ Hok) as [_ [Hz | (l0 & items0 & Hd0 & Ha0 & Hn)]];
    [unfold len in Hlen; lia |].
  rewrite <- (built_MenuItems _ _ _ _ Hb) in Hd0, Hn.
  rewrite Hd in Hd0. injection Hd0 as <-. rewrite Ha in Ha0.
  injection Ha0 as <-.
  set (n := s_len (MenuList.MenuItems ml)) in *.
  exists l, items, items'. split; [exact Hd |]. split; [exact Ha |].
  split; [rewrite Ha'; apply lookup_insert_eq |]. split; [exact Hn |].
  split.
  { rewrite Hlen', length_app, length_fmap, length_take, length_drop. lia. }
  split.
  - intros j x Hj Hx. apply (Hdone j (resolve ml x) Hj).
    now rewrite resolved_prefix_lookup_lt, Hx.
  - intros j Hj. rewrite Hrest by exact Hj.
    now apply resolved_prefix_lookup_ge.
Qed.

Lemma built_ready input w ml w' :
  slice_ok w (MenuListInput.MenuItems input) = true →
  1 <= len (MenuListInput.MenuItems input) →
  built input w ml w' →
  ∃ c l items', ready w' ml c l items' ∧ ints w' !! c = Some 0.
Proof.
  intros Hok Hlen Hb.
  destruct (built_items input w ml w' Hok Hlen Hb)
    as (l & items & items' & Hd & Ha & Ha' & Hn & Hlen' & Hdone & _).
  destruct (built_cursor _ _ _ _ Hb) as (c & Hc & _ & Hints).
  exists c, l, items'. split; [| rewrite Hints; apply lookup_insert_eq].
  constructor; trivial.
  - rewrite (built_MenuItems _ _ _ _ Hb). split; [exact Hlen |].
    now destruct (slice_ok_inv _ _ Hok).
  - lia.
  - apply Forall_lookup. intros j y Hy.
    apply lookup_take_Some in Hy as [Hy Hj].
    destruct (lookup_lt_is_Some_2 items j) as [x Hx]; [lia |].
    destruct (Hdone j x Hj Hx) as (img & Hy' & _). rewrite Hy in Hy'.
    injection Hy' as ->.
    pose proof (default_resolved_is_Some _ _ _ _ _ (built_Bg _ _ _ _ Hb)).
    pose proof (default_resolved_is_Some _ _ _ _ _ (built_Txt _ _ _ _ Hb)).
    pose proof (default_resolved_is_Some _ _ _ _ _ (built_SelBg _ _ _ _ Hb)).
    pose proof (default_resolved_is_Some _ _ _ _ _ (built_SelTxt _ _ _ _ Hb)).
    unfold renderable. cbn.
    repeat split; eauto using override_is_Some.
Qed.

(* ================================================================== *)
(** ** Validation *)

(** Past the validation, [NewMenu] never returns an error. *)
Lemma NewMenu_error_is_validation input w ml e w' :
  MenuListInput.Width input ≠ 0 → MenuListInput.Height input ≠ 0 →
  1 <= len (MenuListInput.MenuItems input) →
  NewMenu input w = Ok (ml, e) w' → e = None.
Proof.
  intros HW HH HL. unfold NewMenu.
  rewrite (proj2 (Z.eqb_neq _ _) HW), (proj2 (Z.eqb_neq _ _) HH).
  rewrite (proj2 (Z.ltb_ge _ _) HL).
  intros Hrun.
  repeat (apply bind_inv in Hrun as (? & ? & _ & Hrun)).
  now injection Hrun as _ <- _.
Qed.

Lemma NewMenu_rejects input w :
  (MenuListInput.Width input = 0 →
   NewMenu input w = Ok (MenuList.zero, Some width_missing) w)
  ∧ (MenuListInput.Width input ≠ 0 → MenuListInput.Height input = 0 →
     NewMenu input w = Ok (MenuList.zero, Some height_missing) w)
  ∧ (MenuListInput.Width input ≠ 0 → MenuListInput.Height input ≠ 0 →
     len (MenuListInput.MenuItems input) = 0 →
     NewMenu input w = Ok (MenuList.zero, Some items_missing) w).
Proof.
  rewrite NewMenu_invalid. repeat split.
  - now intros ->.
  - intros HW ->. now rewrite (proj2 (Z.eqb_neq _ _) HW).
  - intros HW HH ->.
    now rewrite (proj2 (Z.eqb_neq _ _) HW), (proj2 (Z.eqb_neq _ _) HH).
Qed.

Lemma len_nonneg s : 0 <= len s.
Proof. unfold len. lia. Qed.

(** C9: when several mandatory fields are invalid the error names them
    with a fixed precedence: a zero width is reported whatever the height
    and the items are; a zero height is reported when the width is there,
    whatever the items are; the empty item list is reported only when both
    sizes are there.  With width and height both zero the error is the one
    of the width. *)
Theorem NewMenu_error_precedence (input : MenuListInput.t) (w : World) :
  (MenuListInput.Width input = 0 →
   NewMenu input w = Ok (MenuList.zero, errors_New width_missing) w)
  ∧ (MenuListInput.Width input ≠ 0 → MenuListInput.Height input = 0 →
     NewMenu input w = Ok (MenuList.zero, errors_New height_missing) w)
  ∧ (MenuListInput.Width input ≠ 0 → MenuListInput.Height input ≠ 0 →
     len (MenuListInput.MenuItems input) = 0 →
     NewMenu input w = Ok (MenuList.zero, errors_New items_missing) w)
  ∧ (MenuListInput.Width input = 0 → MenuListInput.Height input = 0 →
     NewMenu input w = Ok (MenuList.zero, errors_New width_missing) w).
Proof.
  destruct (NewMenu_rejects input w) as (HW & HH & HI).
  repeat split; auto.
Qed.

Lemma NewMenu_error_precedence_witness :
  NewMenu input_without_size host_world
  = Ok (MenuList.zero, errors_New width_missing) host_world
  ∧ NewMenu input_without_height host_world
    = Ok (MenuList.zero, errors_New height_missing) host_world
  ∧ NewMenu input_without_items host_world
    = Ok (MenuList.zero, errors_New items_missing) host_world.
Proof.
  split; [| split].
  - apply (proj1 (NewMenu_error_precedence input_without_size host_world)).
    reflexivity.
  - apply (proj1 (proj2
             (NewMenu_error_precedence input_without_height host_world)));
      [discriminate | reflexivity].
  - apply (proj1 (proj2 (proj2
             (NewMenu_error_precedence input_without_items host_world))));
      [discriminate | discriminate | reflexivity].
Defined.

(** C10: a construction that fails hands back the zero [MenuList] and has
    done nothing: the world after it is the world before it, so no default
    colour, no cursor and no image was allocated and no item of the
    caller's slice was written. *)
Theorem NewMenu_error_atomic (input : MenuListInput.t) (w w' : World)
  (ml : MenuList.t) (msg : string) :
  NewMenu input w = Ok (ml, errors_New msg) w' →
  ml = MenuList.zero ∧ w' = w
  ∧ slice_items w' (MenuListInput.MenuItems input)
    = slice_items w (MenuListInput.MenuItems input).
Proof.
  intros Hrun.
  assert (H : ml = MenuList.zero ∧ w' = w).
  { destruct (Z.eq_dec (MenuListInput.Width input) 0) as [HW|HW].
    { rewrite (proj1 (NewMenu_rejects input w) HW) in Hrun.
      now injection Hrun as <- _ <-. }
    destruct (Z.eq_dec (MenuListInput.Height input) 0) as [HH|HH].
    { rewrite (proj1 (proj2 (NewMenu_rejects input w)) HW HH) in Hrun.
      now injection Hrun as <- _ <-. }
    destruct (Z.eq_dec (len (MenuListInput.MenuItems input)) 0) as [HL|HL].
    { rewrite (proj2 (proj2 (NewMenu_rejects input w)) HW HH HL) in Hrun.
      now injection Hrun as <- _ <-. }
    pose proof (len_nonneg (MenuListInput.MenuItems input)).
    apply NewMenu_error_is_validation in Hrun; [discriminate | easy.. | lia]. }
  destruct H as [-> ->]. easy.
Qed.

Lemma NewMenu_error_atomic_witness :
  NewMenu input_without_size host_world
  = Ok (MenuList.zero, errors_New width_missing) host_world
  ∧ (MenuList.zero = MenuList.zero ∧ host_world = host_world
     ∧ slice_items host_world (MenuListInput.MenuItems input_without_size)
       = slice_items host_world (MenuListInput.MenuItems input_without_size)).
Proof.
  assert (H : NewMenu input_without_size host_world
              = Ok (MenuList.zero, errors_New width_missing) host_world)
    by reflexivity.
  split; [exact H |].
  exact (NewMenu_error_atomic input_without_size host_world host_world
           MenuList.zero width_missing H).
Defined.

(* ================================================================== *)
(** ** Construction *)

Lemma slice_items_lookup w s l items (i : nat) x :
  s_data s = Some l → arrays w !! l = Some items →
  slice_items w s !! i = Some x ↔ (i < s_len s)%nat ∧ items !! i = Some x.
Proof.
  intros Hd Ha. unfold slice_items. rewrite Hd, Ha. cbn [default].
  rewrite lookup_take_Some. tauto.
Qed.

(** The elements of a built list against the elements of the input. *)
Lemma built_slice_items input w ml w' (i : nat) x :
  slice_ok w (MenuListInput.MenuItems input) = true →
  NewMenu input w = Ok (ml, None) w' →
  slice_items w (MenuListInput.MenuItems input) !! i = Some x →
  ∃ img, slice_items w' (MenuList.MenuItems ml) !! i
         = Some (MenuItem.with_image (Some img) (resolve ml x)).
Proof.
  intros Hok Hrun Hx.
  destruct (NewMenu_success input w ml w' Hok Hrun) as ((_ & _ & HL) & Hb).
  destruct (built_items input w ml w' Hok HL Hb)
    as (l & items & items' & Hd & Ha & Ha' & Hn & Hlen' & Hdone & _).
  rewrite <- (built_MenuItems _ _ _ _ Hb) in Hx.
  apply (slice_items_lookup w _ l items i x Hd Ha) in Hx as [Hi Hx].
  destruct (Hdone i x Hi Hx) as (img & Hx' & _).
  exists img. now apply (slice_items_lookup w' _ l items' i _ Hd Ha').
Qed.

(** *** The two examples run *)

Lemma scenario_built :
  ∃ ml w', NewMenu scenario_input scenario_world = Ok (ml, None) w'.
Proof. eexists _, _. vm_compute. reflexivity. Qed.

Lemma host_menu_built :
  ∃ ml w', NewMenu newMenuInput host_world = Ok (ml, None) w'.
Proof. eexists _, _. vm_compute. reflexivity. Qed.

(** C1: on every input on which [NewMenu] succeeds, each of the four
    default colours of the list is the caller's when one was given and
    else a new colour object holding the fixed fallback (cyan background,
    black text, magenta selected background, white selected text); and
    every item's four colour fields are non-nil and hold, field by field,
    the item's own override when there was one and else the list's
    resolved default.  Colour objects that existed before are unchanged. *)
Theorem NewMenu_colours_resolved (input : MenuListInput.t) (w w' : World)
  (ml : MenuList.t) :
  slice_ok w (MenuListInput.MenuItems input) = true →
  NewMenu input w = Ok (ml, None) w' →
  (default_resolved w w' (MenuListInput.DefaultBgColour input)
     (MenuList.DefaultBgColour ml) cyan
   ∧ default_resolved w w' (MenuListInput.DefaultTxtColour input)
       (MenuList.DefaultTxtColour ml) black
   ∧ default_resolved w w' (MenuListInput.DefaultSelBGColour input)
       (MenuList.DefaultSelBgColour ml) magenta
   ∧ default_resolved w w' (MenuListInput.DefaultSelTxtColour input)
       (MenuList.DefaultSelTxtColour ml) white)
  ∧ colours w ⊆ colours w'
  ∧ ∀ (i : nat) (x : MenuItem.t),
      slice_items w (MenuListInput.MenuItems input) !! i = Some x →
      ∃ x', slice_items w' (MenuList.MenuItems ml) !! i = Some x'
        ∧ (is_Some (MenuItem.BgColour x') ∧ is_Some (MenuItem.TxtColour x')
           ∧ is_Some (MenuItem.SelBgColour x')
           ∧ is_Some (MenuItem.SelTxtColour x'))
        ∧ MenuItem.BgColour x'
          = override (MenuItem.BgColour x) (MenuList.DefaultBgColour ml)
        ∧ MenuItem.TxtColour x'
          = override (MenuItem.TxtColour x) (MenuList.DefaultTxtColour ml)
        ∧ MenuItem.SelBgColour x'
          = override (MenuItem.SelBgColour x) (MenuList.DefaultSelBgColour ml)
        ∧ MenuItem.SelTxtColour x'
          = override (MenuItem.SelTxtColour x)
              (MenuList.DefaultSelTxtColour ml).
Proof.
  intros Hok Hrun.
  destruct (NewMenu_success input w ml w' Hok Hrun) as (_ & Hb).
  split; [| split].
  - repeat split; apply Hb.
  - apply Hb.
  - intros i x Hx.
    destruct (built_slice_items input w ml w' i x Hok Hrun Hx) as (img & Hx').
    eexists. split; [exact Hx' |]. cbn.
    pose proof (default_resolved_is_Some _ _ _ _ _ (built_Bg _ _ _ _ Hb)).
    pose proof (default_resolved_is_Some _ _ _ _ _ (built_Txt _ _ _ _ Hb)).
    pose proof (default_resolved_is_Some _ _ _ _ _ (built_SelBg _ _ _ _ Hb)).
    pose proof (default_resolved_is_Some _ _ _ _ _ (built_SelTxt _ _ _ _ Hb)).
    repeat split; auto using override_is_Some.
Qed.

(** The scenario of the specification: B keeps its green background and
    gets the default (black) text colour. *)
Lemma NewMenu_colours_resolved_witness :
  ∃ ml w',
    slice_ok scenario_world (MenuListInput.MenuItems scenario_input) = true
    ∧ NewMenu scenario_input scenario_world = Ok (ml, None) w'
    ∧ (∃ b q, slice_items w' (MenuList.MenuItems ml) !! 1%nat = Some b
              ∧ MenuItem.BgColour b = Some 1%positive
              ∧ colours w' !! 1%positive = Some green
              ∧ MenuItem.TxtColour b = Some q
              ∧ colours w' !! q = Some black).
Proof.
  destruct scenario_built as (ml & w' & Hrun). exists ml, w'.
  split; [reflexivity |]. split; [exact Hrun |].
  destruct (NewMenu_colours_resolved scenario_input scenario_world w' ml
              eq_refl Hrun)
    as ((_ & (q & Hq & _ & Hblack) & _) & Hsub & Hitems).
  destruct (Hitems 1%nat
              (MenuItem.mk "B" "second" 0 0 None (Some 1%positive)
                 None None None) eq_refl)
    as (b & Hb & _ & Hbg & Htxt & _).
  exists b, q. split; [exact Hb |]. split; [exact Hbg |].
  split; [| split; [rewrite Htxt; exact Hq | exact Hblack]].
  eapply lookup_weaken; [| exact Hsub]. reflexivity.
Defined.

(** C7: in every built list [Offy] is the supplied value when that value
    is nonzero (Go's [!= 0] on [float64]) and is the height, converted by
    [float64(Height)], when the supplied value is zero; [Offx] is the
    supplied value as it is. *)
Theorem NewMenu_offsets (input : MenuListInput.t) (w w' : World)
  (ml : MenuList.t) :
  slice_ok w (MenuListInput.MenuItems input) = true →
  NewMenu input w = Ok (ml, None) w' →
  ((MenuListInput.Offy input =? 0)%float = false →
   MenuList.Offy ml = MenuListInput.Offy input)
  ∧ ((MenuListInput.Offy input =? 0)%float = true →
     MenuList.Offy ml = float64_of_int (MenuList.Height ml))
  ∧ MenuList.Height ml = MenuListInput.Height input
  ∧ MenuList.Offx ml = MenuListInput.Offx input.
Proof.
  intros Hok Hrun.
  destruct (NewMenu_success input w ml w' Hok Hrun) as (_ & Hb).
  rewrite (built_Offy _ _ _ _ Hb), (built_Height _ _ _ _ Hb).
  repeat split; try (now intros ->). apply Hb.
Qed.

(** The menu of the host: no [Offy] given, so the items are stacked 36
    pixels apart. *)
Lemma NewMenu_offsets_witness :
  ∃ ml w',
    slice_ok host_world (MenuListInput.MenuItems newMenuInput) = true
    ∧ NewMenu newMenuInput host_world = Ok (ml, None) w'
    ∧ (MenuListInput.Offy newMenuInput =? 0)%float = true
    ∧ MenuList.Offy ml = 36%float
    ∧ MenuList.Offx ml = 0%float.
Proof.
  destruct host_menu_built as (ml & w' & Hrun). exists ml, w'.
  split; [reflexivity |]. split; [exact Hrun |]. split; [reflexivity |].
  destruct (NewMenu_offsets newMenuInput host_world w' ml eq_refl Hrun)
    as (_ & Hzero & HH & Hx).
  split; [| exact Hx].
  rewrite (Hzero eq_refl), HH. vm_compute. reflexivity.
Defined.

(** C8: in every built list an item whose [TxtY] was zero in the input
    has [TxtY] equal to the height minus 5 (Go's [int] subtraction, which
    is the mathematical one for every height from [min_int + 5] up), an
    item whose [TxtY] was not zero keeps it, and with a height of 36 the
    resolved [TxtY] is 31. *)
Theorem NewMenu_text_offset (input : MenuListInput.t) (w w' : World)
  (ml : MenuList.t) :
  slice_ok w (MenuListInput.MenuItems input) = true →
  NewMenu input w = Ok (ml, None) w' →
  ∀ (i : nat) (x : MenuItem.t),
    slice_items w (MenuListInput.MenuItems input) !! i = Some x →
    ∃ x', slice_items w' (MenuList.MenuItems ml) !! i = Some x'
      ∧ (MenuItem.TxtY x ≠ 0 → MenuItem.TxtY x' = MenuItem.TxtY x)
      ∧ (MenuItem.TxtY x = 0 →
         MenuItem.TxtY x' = GoInt.sub (MenuListInput.Height input) 5
         ∧ (GoInt.min_int + 5 <= MenuListInput.Height input
            ∧ MenuListInput.Height input <= GoInt.max_int →
            MenuItem.TxtY x' = MenuListInput.Height input - 5)
         ∧ (MenuListInput.Height input = 36 → MenuItem.TxtY x' = 31)).
Proof.
  intros Hok Hrun i x Hx.
  destruct (NewMenu_success input w ml w' Hok Hrun) as (_ & Hb).
  destruct (built_slice_items input w ml w' i x Hok Hrun Hx) as (img & Hx').
  eexists. split; [exact Hx' |]. cbn. rewrite (built_Height _ _ _ _ Hb).
  split.
  - intros Hne. now rewrite (proj2 (Z.eqb_neq _ _) Hne).
  - intros ->. cbn. split; [reflexivity |]. split.
    + intros Hr. apply wrap_in_range.
      unfold GoInt.in_range, GoInt.min_int, GoInt.max_int in *. lia.
    + now intros ->.
Qed.

(** The scenario of the specification: height 36, no item sets [TxtY]. *)
Lemma NewMenu_text_offset_witness :
  ∃ ml w',
    slice_ok scenario_world (MenuListInput.MenuItems scenario_input) = true
    ∧ NewMenu scenario_input scenario_world = Ok (ml, None) w'
    ∧ ∃ a, slice_items w' (MenuList.MenuItems ml) !! 0%nat = Some a
           ∧ MenuItem.TxtY a = 31.
Proof.
  destruct scenario_built as (ml & w' & Hrun). exists ml, w'.
  split; [reflexivity |]. split; [exact Hrun |].
  destruct (NewMenu_text_offset scenario_input scenario_world w' ml
              eq_refl Hrun 0%nat
              (MenuItem.mk "A" "first" 0 0 None None None None None)
              eq_refl)
    as (a & Ha & _ & Hzero).
  exists a. split; [exact Ha |].
  exact (proj2 (proj2 (Hzero eq_refl)) eq_refl).
Defined.

(* ================================================================== *)
(** ** A built list under the calls of its host *)

Lemma selected_after m c es s w :
  MenuList.SelectedIndex m = Some c →
  selected (add_trace es (set_cursor c s w)) m = Some s.
Proof. intros Hc. unfold selected. rewrite Hc. cbn. apply lookup_insert_eq. Qed.

(** Any sequence of calls on a built list runs through; the world it
    leaves differs from the built one in the cursor cell and the trace. *)
Lemma built_calls input w0 ml w ks :
  slice_ok w0 (MenuListInput.MenuItems input) = true →
  NewMenu input w0 = Ok (ml, None) w →
  ∃ c l items es,
    ready w ml c l items ∧ ints w !! c = Some 0
    ∧ perform_all ml ks w
      = Ok tt (add_trace es
                 (set_cursor c
                    (clamp_steps (len (MenuList.MenuItems ml)) 0 ks) w)).
Proof.
  intros Hok Hrun.
  destruct (NewMenu_success input w0 ml w Hok Hrun) as ((_ & _ & HL) & Hb).
  destruct (built_ready input w0 ml w Hok HL Hb) as (c & l & items & Hr & Hs).
  destruct (perform_all_ok ml ks w c l items 0 Hr Hs) as [es Hes].
  { destruct (ready_len _ _ _ _ _ Hr). lia. }
  exists c, l, items, es. easy.
Qed.

Lemma clamp_steps_navigation n ks s :
  clamp_steps n s (filter is_navigation ks) = clamp_steps n s ks.
Proof.
  unfold clamp_steps. revert s.
  induction ks as [|k ks IH]; intros s; [reflexivity |].
  destruct k; cbn; apply IH.
Qed.

(** C3: in a built list the cursor starts at 0; from any state the host
    can reach, [IncrementSelected] adds 1 when the cursor is below
    [len - 1] and changes nothing otherwise, [DecrementSelected] subtracts
    1 when the cursor is above 0 and changes nothing otherwise; and
    [len + 5] increments in a row from the start leave the cursor at
    [len - 1], as any number of decrements from the start leave it at 0. *)
Theorem selection_clamps (input : MenuListInput.t) (w0 w : World)
  (ml : MenuList.t) :
  slice_ok w0 (MenuListInput.MenuItems input) = true →
  NewMenu input w0 = Ok (ml, None) w →
  selected w ml = Some 0
  ∧ (∀ ks : list call,
       ∃ w1 s, perform_all ml ks w = Ok tt w1 ∧ selected w1 ml = Some s
         ∧ (∃ w2, IncrementSelected ml w1 = Ok tt w2
                  ∧ selected w2 ml
                    = Some (if s <? len (MenuList.MenuItems ml) - 1
                            then s + 1 else s)
                  ∧ (len (MenuList.MenuItems ml) - 1 <= s → w2 = w1))
         ∧ (∃ w2, DecrementSelected ml w1 = Ok tt w2
                  ∧ selected w2 ml = Some (if 0 <? s then s - 1 else s)
                  ∧ (s <= 0 → w2 = w1)))
  ∧ (∃ w2, perform_all ml
             (replicate (s_len (MenuList.MenuItems ml) + 5) CallIncrement) w
           = Ok tt w2
           ∧ selected w2 ml = Some (len (MenuList.MenuItems ml) - 1))
  ∧ (∀ k : nat,
       ∃ w2, perform_all ml (replicate k CallDecrement) w = Ok tt w2
             ∧ selected w2 ml = Some 0).
Proof.
  intros Hok Hrun.
  pose proof (built_calls input w0 ml w [] Hok Hrun)
    as (c & l & items & _ & Hr & Hs & _).
  pose proof (ready_cursor _ _ _ _ _ Hr) as Hc.
  destruct (ready_len _ _ _ _ _ Hr) as [HL Hmax].
  split; [| split; [| split]].
  - unfold selected. now rewrite Hc.
  - intros ks.
    destruct (perform_all_ok ml ks w c l items 0 Hr Hs ltac:(lia)) as [es Hes].
    pose proof (clamp_steps_range (len (MenuList.MenuItems ml)) ks 0
                  ltac:(lia)) as Hrange.
    set (s := clamp_steps (len (MenuList.MenuItems ml)) 0 ks) in *.
    set (w1 := add_trace es (set_cursor c s w)) in *.
    assert (Hr1 : ready w1 ml c l items) by now apply ready_frame.
    assert (Hs1 : ints w1 !! c = Some s) by apply lookup_insert_eq.
    exists w1, s. split; [exact Hes |]. split; [now apply selected_after |].
    split.
    + eexists. split; [| split].
      * exact (perform_ok ml w1 c l items s CallIncrement Hr1 Hs1 Hrange).
      * now apply selected_after.
      * intros Hge. cbn [clamp_step call_events].
        rewrite (proj2 (Z.ltb_ge _ _) Hge), add_trace_nil.
        now apply set_cursor_same.
    + eexists. split; [| split].
      * exact (perform_ok ml w1 c l items s CallDecrement Hr1 Hs1 Hrange).
      * now apply selected_after.
      * intros Hle. cbn [clamp_step call_events].
        rewrite (proj2 (Z.ltb_ge _ _) Hle), add_trace_nil.
        now apply set_cursor_same.
  - destruct (perform_all_ok ml
                (replicate (s_len (MenuList.MenuItems ml) + 5) CallIncrement)
                w c l items 0 Hr Hs ltac:(lia)) as [es Hes].
    eexists. split; [exact Hes |].
    rewrite (selected_after _ _ _ _ _ Hc), clamp_steps_increments by exact HL.
    f_equal. unfold len. lia.
  - intros k.
    destruct (perform_all_ok ml (replicate k CallDecrement)
                w c l items 0 Hr Hs ltac:(lia)) as [es Hes].
    eexists. split; [exact Hes |].
    now rewrite (selected_after _ _ _ _ _ Hc), clamp_steps_decrements.
Qed.

(** The scenario of the specification: three items, so eight increments
    end on index 2. *)
Lemma selection_clamps_witness :
  ∃ ml w,
    slice_ok scenario_world (MenuListInput.MenuItems scenario_input) = true
    ∧ NewMenu scenario_input scenario_world = Ok (ml, None) w
    ∧ selected w ml = Some 0
    ∧ ∃ w2, perform_all ml
              (replicate (s_len (MenuList.MenuItems ml) + 5) CallIncrement) w
            = Ok tt w2
            ∧ selected w2 ml = Some (len (MenuList.MenuItems ml) - 1).
Proof.
  destruct scenario_built as (ml & w & Hrun). exists ml, w.
  split; [reflexivity |]. split; [exact Hrun |].
  destruct (selection_clamps scenario_input scenario_world w ml eq_refl Hrun)
    as (H0 & _ & Hinc & _).
  split; [exact H0 | exact Hinc].
Defined.

(** C4: in a built list, after every call of any finite sequence of calls
    the cursor is between 0 and [len - 1]; and its value is the one the
    navigation calls of the sequence alone produce: the query and the
    render never move it. *)
Theorem selection_in_range (input : MenuListInput.t) (w0 w : World)
  (ml : MenuList.t) :
  slice_ok w0 (MenuListInput.MenuItems input) = true →
  NewMenu input w0 = Ok (ml, None) w →
  ∀ ks : list call,
    ∃ w1 s, perform_all ml ks w = Ok tt w1 ∧ selected w1 ml = Some s
      ∧ 0 <= s <= len (MenuList.MenuItems ml) - 1
      ∧ (∃ w1', perform_all ml (filter is_navigation ks) w = Ok tt w1'
                ∧ selected w1' ml = Some s)
      ∧ (∃ name, GetSelectedItem ml w1 = Ok name w1)
      ∧ (∀ screen : loc,
           ∃ w2, Draw ml (Some screen) w1 = Ok tt w2
                 ∧ selected w2 ml = Some s).
Proof.
  intros Hok Hrun ks.
  destruct (built_calls input w0 ml w ks Hok Hrun)
    as (c & l & items & es & Hr & Hs & Hes).
  pose proof (ready_cursor _ _ _ _ _ Hr) as Hc.
  destruct (ready_len _ _ _ _ _ Hr) as [HL Hmax].
  pose proof (clamp_steps_range (len (MenuList.MenuItems ml)) ks 0
                ltac:(lia)) as Hrange.
  set (s := clamp_steps (len (MenuList.MenuItems ml)) 0 ks) in *.
  set (w1 := add_trace es (set_cursor c s w)) in *.
  assert (Hr1 : ready w1 ml c l items) by now apply ready_frame.
  assert (Hs1 : ints w1 !! c = Some s) by apply lookup_insert_eq.
  exists w1, s. split; [exact Hes |]. split; [now apply selected_after |].
  split; [exact Hrange |]. split; [| split].
  - destruct (perform_all_ok ml (filter is_navigation ks) w c l items 0 Hr Hs
                ltac:(lia)) as [es' Hes'].
    eexists. split; [exact Hes' |].
    now rewrite (selected_after _ _ _ _ _ Hc), clamp_steps_navigation.
  - destruct (lookup_lt_is_Some_2 items (Z.to_nat s)) as [it Hit].
    { pose proof (ready_cap _ _ _ _ _ Hr). unfold len in *. lia. }
    exists (MenuItem.Name it).
    apply (GetSelectedItem_ok ml w1 c s l items it); trivial;
      [apply Hr1 | apply Hr1 | lia].
  - intros screen. eexists. split.
    + exact (perform_ok ml w1 c l items s (CallDraw screen) Hr1 Hs1 Hrange).
    + cbn [clamp_step]. now apply selected_after.
Qed.

(** The scenario of the specification under the key presses down, down,
    down, up with a render and a query in between. *)
Lemma selection_in_range_witness :
  ∃ ml w w1,
    slice_ok scenario_world (MenuListInput.MenuItems scenario_input) = true
    ∧ NewMenu scenario_input scenario_world = Ok (ml, None) w
    ∧ perform_all ml
        [CallIncrement; CallDraw 1%positive; CallIncrement; CallIncrement;
         CallGetSelectedItem; CallDecrement] w = Ok tt w1
    ∧ ∃ s, selected w1 ml = Some s
           ∧ 0 <= s <= len (MenuList.MenuItems ml) - 1.
Proof.
  destruct scenario_built as (ml & w & Hrun).
  destruct (selection_in_range scenario_input scenario_world w ml eq_refl Hrun
              [CallIncrement; CallDraw 1%positive; CallIncrement; CallIncrement;
               CallGetSelectedItem; CallDecrement])
    as (w1 & s & Hcalls & Hsel & Hrange & _).
  exists ml, w, w1. split; [reflexivity |]. split; [exact Hrun |].
  split; [exact Hcalls |]. exists s. split; [exact Hsel | exact Hrange].
Defined.

Lemma slice_items_frame es c s w sl :
  slice_items (add_trace es (set_cursor c s w)) sl = slice_items w sl.
Proof. reflexivity. Qed.

(** C5: in a built list, after any sequence of calls,
    [GetSelectedItem] returns the name of the item at the cursor, which is
    the name the input gave to that item; it changes nothing. *)
Theorem GetSelectedItem_names_selection (input : MenuListInput.t)
  (w0 w : World) (ml : MenuList.t) :
  slice_ok w0 (MenuListInput.MenuItems input) = true →
  NewMenu input w0 = Ok (ml, None) w →
  ∀ ks : list call,
    ∃ w1 s item,
      perform_all ml ks w = Ok tt w1 ∧ selected w1 ml = Some s ∧ 0 <= s
      ∧ slice_items w1 (MenuList.MenuItems ml) !! Z.to_nat s = Some item
      ∧ GetSelectedItem ml w1 = Ok (MenuItem.Name item) w1
      ∧ ∃ x, slice_items w0 (MenuListInput.MenuItems input) !! Z.to_nat s
             = Some x
             ∧ MenuItem.Name item = MenuItem.Name x.
Proof.
  intros Hok Hrun ks.
  destruct (built_calls input w0 ml w ks Hok Hrun)
    as (c & l & items & es & Hr & Hs & Hes).
  destruct Hr as [Hc Hd Ha [HL Hmax] Hcap Hren].
  pose proof (clamp_steps_range (len (MenuList.MenuItems ml)) ks 0
                ltac:(lia)) as Hrange.
  set (s := clamp_steps (len (MenuList.MenuItems ml)) 0 ks) in *.
  set (w1 := add_trace es (set_cursor c s w)) in *.
  assert (Hi : (Z.to_nat s < s_len (MenuList.MenuItems ml))%nat)
    by (unfold len in *; lia).
  destruct (lookup_lt_is_Some_2 items (Z.to_nat s)) as [item Hitem]; [lia |].
  exists w1, s, item. split; [exact Hes |].
  split; [now apply selected_after |]. split; [lia |].
  assert (Hitem1 : slice_items w1 (MenuList.MenuItems ml) !! Z.to_nat s
                   = Some item).
  { subst w1. rewrite slice_items_frame.
    now apply (slice_items_lookup w _ l items). }
  split; [exact Hitem1 |]. split.
  - apply (GetSelectedItem_ok ml w1 c s l items item); trivial.
    + apply lookup_insert_eq.
    + lia.
  - destruct (NewMenu_success input w0 ml w Hok Hrun) as ((_ & _ & HL') & Hb).
    destruct (built_items input w0 ml w Hok HL' Hb)
      as (l' & items0 & items' & Hd' & Ha0 & Ha' & Hn & _ & Hdone & _).
    rewrite Hd in Hd'. injection Hd' as <-. rewrite Ha in Ha'.
    injection Ha' as <-.
    destruct (lookup_lt_is_Some_2 items0 (Z.to_nat s)) as [x Hx]; [lia |].
    exists x. split.
    + rewrite <- (built_MenuItems _ _ _ _ Hb).
      now apply (slice_items_lookup w0 _ l items0).
    + destruct (Hdone _ x Hi Hx) as (img & Hitem' & _).
      rewrite Hitem in Hitem'. now injection Hitem' as ->.
Qed.

(** The scenario of the specification after two increments. *)
Lemma GetSelectedItem_names_selection_witness :
  ∃ ml w w1 name,
    slice_ok scenario_world (MenuListInput.MenuItems scenario_input) = true
    ∧ NewMenu scenario_input scenario_world = Ok (ml, None) w
    ∧ perform_all ml [CallIncrement; CallIncrement] w = Ok tt w1
    ∧ GetSelectedItem ml w1 = Ok name w1.
Proof.
  destruct scenario_built as (ml & w & Hrun).
  destruct (GetSelectedItem_names_selection scenario_input scenario_world w ml
              eq_refl Hrun [CallIncrement; CallIncrement])
    as (w1 & s & item & Hcalls & _ & _ & _ & Hget & _).
  exists ml, w, w1, (MenuItem.Name item).
  split; [reflexivity |]. split; [exact Hrun |]. split; [exact Hcalls |].
  exact Hget.
Defined.

(** C2: [NewMenu] returns an error exactly when the width is 0, the
    height is 0 or the item list is empty; the error then names a field
    that is missing; on every other input it returns a list and no error;
    and on the list it returns no sequence of navigation, query and render
    calls fails: none of them has an error result, and none panics. *)
Theorem NewMenu_validation (input : MenuListInput.t) (w : World) :
  slice_ok w (MenuListInput.MenuItems input) = true →
  (MenuListInput.Width input = 0 ∨ MenuListInput.Height input = 0
   ∨ len (MenuListInput.MenuItems input) = 0 →
   ∃ msg, NewMenu input w = Ok (MenuList.zero, errors_New msg) w
     ∧ ((msg = width_missing ∧ MenuListInput.Width input = 0)
        ∨ (msg = height_missing ∧ MenuListInput.Height input = 0)
        ∨ (msg = items_missing ∧ len (MenuListInput.MenuItems input) = 0)))
  ∧ (¬ (MenuListInput.Width input = 0 ∨ MenuListInput.Height input = 0
        ∨ len (MenuListInput.MenuItems input) = 0) →
     ∃ ml w', NewMenu input w = Ok (ml, None) w'
       ∧ ∀ ks : list call, ∃ w1, perform_all ml ks w' = Ok tt w1)
  ∧ (∀ ml msg w', NewMenu input w = Ok (ml, errors_New msg) w' →
     MenuListInput.Width input = 0 ∨ MenuListInput.Height input = 0
     ∨ len (MenuListInput.MenuItems input) = 0).
Proof.
  intros Hok.
  destruct (NewMenu_rejects input w) as (HW & HH & HI).
  pose proof (len_nonneg (MenuListInput.MenuItems input)) as Hlen.
  split; [| split].
  - intros Hbad.
    destruct (Z.eq_dec (MenuListInput.Width input) 0) as [EW|EW].
    { exists width_missing. split; [now apply HW | now left]. }
    destruct (Z.eq_dec (MenuListInput.Height input) 0) as [EH|EH].
    { exists height_missing. split; [now apply HH | right; now left]. }
    destruct Hbad as [?|[?|EL]]; [easy | easy |].
    exists items_missing. split; [now apply HI | right; now right].
  - intros Hgood.
    destruct (NewMenu_valid input w Hok) as (ml & w' & Hrun & _);
      [tauto | tauto | lia |].
    exists ml, w'. split; [exact Hrun |]. intros ks.
    destruct (built_calls input w ml w' ks Hok Hrun)
      as (c & l & items & es & _ & _ & Hes).
    eauto.
  - intros ml msg w' Hrun.
    destruct (Z.eq_dec (MenuListInput.Width input) 0) as [EW|EW]; [tauto |].
    destruct (Z.eq_dec (MenuListInput.Height input) 0) as [EH|EH]; [tauto |].
    destruct (Z.eq_dec (len (MenuListInput.MenuItems input)) 0) as [EL|EL];
      [tauto |].
    apply NewMenu_error_is_validation in Hrun; [discriminate | easy.. | lia].
Qed.

(** The menu of the host is accepted, and the host's calls run on it; the
    same input without its sizes is rejected. *)
Lemma NewMenu_validation_witness :
  slice_ok host_world (MenuListInput.MenuItems newMenuInput) = true
  ∧ (∃ ml w', NewMenu newMenuInput host_world = Ok (ml, None) w'
       ∧ ∃ w1, perform_all ml
                 [CallDraw 1%positive; CallIncrement; CallGetSelectedItem] w'
               = Ok tt w1)
  ∧ slice_ok host_world (MenuListInput.MenuItems input_without_size) = true
  ∧ ∃ msg, NewMenu input_without_size host_world
           = Ok (MenuList.zero, errors_New msg) host_world.
Proof.
  split; [reflexivity |]. split; [| split; [reflexivity |]].
  - destruct (proj1 (proj2 (NewMenu_validation newMenuInput host_world
                              eq_refl)))
      as (ml & w' & Hrun & Hcalls).
    { intros [H|[H|H]]; discriminate H. }
    exists ml, w'. split; [exact Hrun |]. apply Hcalls.
  - destruct (proj1 (NewMenu_validation input_without_size host_world eq_refl))
      as (msg & Hrun & _).
    { now left. }
    exists msg. exact Hrun.
Defined.

(* ================================================================== *)
(** ** Rendering *)

Lemma float_neq (x y : float64) :
  (x =? y)%float = false → (y =? y)%float = true → x ≠ y.
Proof. intros Hxy Hyy ->. congruence. Qed.

(** C6, as stated, fails: compositing item [i] at
    [(tx + i*offx, ty + i*offy)] is not what [Draw] does.  In the row of
    eleven items a tenth of a pixel apart, the last item is composited at
    the x translation 0.99999999999999989, the sum of ten tenths, while
    [0 + 10 * 0.1] is 1. *)
Lemma Draw_closed_form_counterexample :
  ∃ ml w w2,
    slice_ok tenths_world (MenuListInput.MenuItems tenths_input) = true
    ∧ NewMenu tenths_input tenths_world = Ok (ml, None) w
    ∧ Draw ml (Some 1%positive) w = Ok tt w2
    ∧ last_translation w2 = Some (mkGeoM 0x1.fffffffffffffp-1%float 360%float)
    ∧ translation_closed_form ml 10 = mkGeoM 1%float 360%float
    ∧ w2 ≠ add_trace
             (render (translation_closed_form ml) (Some 1%positive) 0
                (slice_items w (MenuList.MenuItems ml))) w.
Proof.
  eexists _, _, _. split; [reflexivity |].
  split; [vm_compute; reflexivity |]. split; [vm_compute; reflexivity |].
  split; [vm_compute; reflexivity |]. split; [vm_compute; reflexivity |].
  intros Heq.
  apply (f_equal (λ w, from_option g_tx 0%float (last_translation w))) in Heq.
  vm_compute in Heq. revert Heq. apply float_neq; reflexivity.
Qed.

Lemma render_length place screen sel items :
  length (render place screen sel items) = (3 * length items)%nat.
Proof.
  induction items as [|x items IH] using rev_ind; [reflexivity |].
  rewrite render_snoc, !length_app, IH. cbn. lia.
Qed.

(** The engine calls of item [i] sit at the positions [3i], [3i+1] and
    [3i+2] of a render. *)
Lemma render_lookup place screen sel items (i j : nat) item :
  items !! i = Some item → (j < 3)%nat →
  render place screen sel items !! (3 * i + j)%nat
  = render_item screen sel i item (place i) !! j.
Proof.
  revert i item. induction items as [|x items IH] using rev_ind;
    intros i item Hi Hj; [discriminate |].
  rewrite render_snoc.
  destruct (decide (i < length items)%nat) as [Hlt|Hge].
  - rewrite lookup_app_l in Hi by exact Hlt.
    rewrite lookup_app_l by (rewrite render_length; lia).
    now apply IH.
  - pose proof (lookup_lt_Some _ _ _ Hi) as Hlen.
    rewrite length_app in Hlen. cbn in Hlen.
    assert (i = length items) as -> by lia.
    rewrite list_lookup_middle in Hi by reflexivity. injection Hi as <-.
    rewrite lookup_app_r by (rewrite render_length; lia).
    rewrite render_length. f_equal. lia.
Qed.

(** *** Whole numbers: [float64] arithmetic without rounding *)

Lemma shl_Z c k : Zpos (shl c k) = Zpos c * 2 ^ Z.of_nat k.
Proof.
  unfold shl. induction k as [|k IH]; [cbn; lia |].
  rewrite Nat2Z.inj_succ, Z.pow_succ_r by lia. rewrite Nat.iter_succ.
  rewrite Pos2Z.inj_xO, IH. lia.
Qed.

Lemma digits_shl c k : digits (shl c k) = digits c + Z.of_nat k.
Proof.
  unfold shl, digits. induction k as [|k IH]; [cbn; lia |].
  rewrite Nat.iter_succ. cbn [digits2_pos]. rewrite Pos2Z.inj_succ, IH. lia.
Qed.

Lemma digits_pos c : 1 <= digits c.
Proof. unfold digits. lia. Qed.

Lemma digits_bounds c : 2 ^ (digits c - 1) <= Zpos c < 2 ^ digits c.
Proof.
  unfold digits. induction c as [c IH|c IH|]; cbn [digits2_pos].
  - rewrite Pos2Z.inj_succ. set (d := Zpos (digits2_pos c)) in *.
    assert (0 <= d - 1) by (subst d; lia).
    replace (Z.succ d - 1) with (Z.succ (d - 1)) by lia.
    rewrite !Z.pow_succ_r by lia. lia.
  - rewrite Pos2Z.inj_succ. set (d := Zpos (digits2_pos c)) in *.
    assert (0 <= d - 1) by (subst d; lia).
    replace (Z.succ d - 1) with (Z.succ (d - 1)) by lia.
    rewrite !Z.pow_succ_r by lia. lia.
  - cbn. lia.
Qed.

Lemma digits_le c n : 0 <= n → Zpos c < 2 ^ n → digits c <= n.
Proof.
  intros Hn Hc. destruct (digits_bounds c) as [Hlo _].
  destruct (Z_le_gt_dec (digits c) n) as [|Hgt]; [assumption |].
  assert (2 ^ n <= 2 ^ (digits c - 1)) by (apply Z.pow_le_mono_r; lia).
  lia.
Qed.

Lemma digits_ge c n : 2 ^ n <= Zpos c → n + 1 <= digits c.
Proof.
  intros Hc. destruct (digits_bounds c) as [_ Hhi].
  destruct (Z_le_gt_dec (n + 1) (digits c)) as [|Hgt]; [assumption |].
  pose proof (digits_pos c).
  assert (2 ^ digits c <= 2 ^ n) by (apply Z.pow_le_mono_r; lia).
  lia.
Qed.

Lemma iter_pos_nat {A} (f : A → A) p x :
  SpecFloat.iter_pos f p x = Nat.iter (Pos.to_nat p) f x.
Proof.
  revert x. induction p as [p IH|p IH|]; intros x; cbn [SpecFloat.iter_pos].
  - rewrite !IH, Pos2Nat.inj_xI.
    replace (S (2 * Pos.to_nat p))%nat
      with (Pos.to_nat p + S (Pos.to_nat p))%nat by lia.
    now rewrite Nat.iter_add, Nat.iter_succ_r.
  - rewrite !IH, Pos2Nat.inj_xO.
    replace (2 * Pos.to_nat p)%nat
      with (Pos.to_nat p + Pos.to_nat p)%nat by lia.
    now rewrite Nat.iter_add.
  - reflexivity.
Qed.

Lemma shr_shl c k :
  Nat.iter k shr_1 (Build_shr_record (Zpos (shl c k)) false false)
  = Build_shr_record (Zpos c) false false.
Proof.
  induction k as [|k IH]; [reflexivity |].
  rewrite Nat.iter_succ_r. unfold shl. rewrite Nat.iter_succ. exact IH.
Qed.

Lemma fexp_normal x : -1021 <= x → fexp prec emax x = x - 53.
Proof. intros Hx. unfold fexp, SpecFloat.emin, prec, emax. lia. Qed.

(** Shifting out the zeros at the end of a mantissa of more than 53
    digits is exact. *)
Lemma shr_fexp_exact c n e :
  digits c = 53 → -1074 <= e + Z.of_nat n →
  shr_fexp prec emax (Zpos (shl c n)) e loc_Exact
  = (Build_shr_record (Zpos c) false false, e + Z.of_nat n).
Proof.
  intros Hd He. unfold shr_fexp. cbn [Zdigits2 shr_record_of_loc].
  fold (digits (shl c n)). rewrite digits_shl, Hd, fexp_normal by lia.
  replace (53 + Z.of_nat n + e - 53 - e) with (Z.of_nat n) by lia.
  destruct n as [|n]; [cbn; now rewrite Z.add_0_r |].
  unfold shr. change (Z.of_nat (S n)) with (Zpos (Pos.of_succ_nat n)).
  cbv iota beta. rewrite iter_pos_nat, SuccNat2Pos.id_succ. now rewrite shr_shl.
Qed.

Lemma bra_exact s c n e :
  digits c = 53 → -1074 <= e + Z.of_nat n <= 971 →
  binary_round_aux prec emax s (Zpos (shl c n)) e loc_Exact
  = S754_finite s c (e + Z.of_nat n).
Proof.
  intros Hd He. unfold binary_round_aux.
  rewrite (shr_fexp_exact c n e Hd) by lia.
  cbn [shr_m loc_of_shr_record round_nearest_even].
  change (Zpos c) with (Zpos (shl c 0)).
  rewrite (shr_fexp_exact c 0 _ Hd) by lia.
  cbn [shr_m Z.of_nat]. rewrite Z.add_0_r.
  replace (e + Z.of_nat n <=? emax - prec) with true; [reflexivity |].
  symmetry. apply Z.leb_le. unfold emax, prec. lia.
Qed.

Lemma whole_pos c :
  whole (Zpos c) = S754_finite false (norm53 c) (digits c - 53).
Proof. reflexivity. Qed.

Lemma whole_neg c :
  whole (Zneg c) = S754_finite true (norm53 c) (digits c - 53).
Proof. reflexivity. Qed.

Lemma digits_norm53 c : digits c <= 53 → digits (norm53 c) = 53.
Proof. intros Hd. unfold norm53. rewrite digits_shl. lia. Qed.

Lemma norm53_Z c :
  digits c <= 53 → Zpos (norm53 c) = Zpos c * 2 ^ (53 - digits c).
Proof.
  intros Hd. unfold norm53. rewrite shl_Z, Z2Nat.id by lia. reflexivity.
Qed.

(** Rounding a mantissa that is a whole number of at most 53 digits
    followed by zeros gives that whole number. *)
Lemma bra_whole s m c k :
  digits c <= 53 → 53 - digits c <= k → Zpos m = Zpos c * 2 ^ k →
  binary_round_aux prec emax s (Zpos m) (- k) loc_Exact
  = S754_finite s (norm53 c) (digits c - 53).
Proof.
  intros Hd Hk Hm. pose proof (digits_pos c) as Hp.
  set (n := Z.to_nat (k - (53 - digits c))).
  assert (m = shl (norm53 c) n) as ->.
  { apply Pos2Z.inj. rewrite Hm, shl_Z, norm53_Z by exact Hd.
    subst n. rewrite Z2Nat.id by lia.
    rewrite <- Z.mul_assoc, <- Z.pow_add_r by lia. f_equal. f_equal. lia. }
  rewrite (bra_exact s (norm53 c) n (- k) (digits_norm53 c Hd))
    by (subst n; rewrite Z2Nat.id by lia; lia).
  f_equal. subst n. rewrite Z2Nat.id by lia. lia.
Qed.

Lemma shl_align_Z m e e' :
  e' <= e →
  Zpos (fst (shl_align m e e')) = Zpos m * 2 ^ (e - e')
  ∧ snd (shl_align m e e') = e'.
Proof.
  intros He. unfold shl_align.
  destruct (e' - e) as [|p|p] eqn:E; cbn [fst snd].
  - replace (e - e') with 0 by lia. split; lia.
  - lia.
  - rewrite Pos2Nat.inj_iter. fold (Nat.iter (Pos.to_nat p) xO m).
    fold (shl m (Pos.to_nat p)). rewrite shl_Z, positive_nat_Z.
    split; [f_equal; f_equal; lia | reflexivity].
Qed.

Lemma br_whole s m c k :
  digits c <= 53 → 0 <= k → Zpos m = Zpos c * 2 ^ k →
  binary_round prec emax s m (- k)
  = S754_finite s (norm53 c) (digits c - 53).
Proof.
  intros Hd Hk Hm. pose proof (digits_pos c) as Hp.
  assert (Hdm : digits m = digits c + k).
  { assert (m = shl c (Z.to_nat k)) as ->
      by (apply Pos2Z.inj; rewrite Hm, shl_Z, Z2Nat.id by lia; reflexivity).
    rewrite digits_shl, Z2Nat.id by lia. reflexivity. }
  unfold binary_round. fold (digits m). rewrite Hdm, fexp_normal by lia.
  destruct (Z_le_gt_dec (digits c + k + - k - 53) (- k)) as [Hle|Hgt].
  - destruct (shl_align_Z m (- k) (digits c + k + - k - 53) Hle) as [Hv He].
    destruct (shl_align m (- k) (digits c + k + - k - 53)) as [mz ez].
    cbn [fst snd] in Hv, He. subst ez.
    replace (digits c + k + - k - 53) with (- (53 - digits c)) by lia.
    apply bra_whole; [exact Hd | lia |].
    rewrite Hv, Hm, <- Z.mul_assoc, <- Z.pow_add_r by lia.
    f_equal. f_equal. lia.
  - unfold shl_align.
    destruct (digits c + k + - k - 53 - - k) as [|p|p] eqn:E; try lia.
    apply bra_whole; [exact Hd | lia | exact Hm].
Qed.

Lemma abs_digits c : Zpos c < 2 ^ 53 → digits c <= 53.
Proof. now apply digits_le. Qed.

(** Normalising a whole number followed by zeros gives that whole
    number. *)
Lemma normalize_whole z k :
  0 <= k → Z.abs z < 2 ^ 53 →
  binary_normalize prec emax (z * 2 ^ k) (- k) false = whole z.
Proof.
  intros Hk Hz. assert (0 < 2 ^ k) by (apply Z.pow_pos_nonneg; lia).
  destruct z as [|c|c].
  - reflexivity.
  - destruct (Zpos c * 2 ^ k) as [|m|m] eqn:E; try lia.
    cbn [binary_normalize]. rewrite whole_pos.
    apply br_whole; [apply abs_digits; lia | exact Hk | lia].
  - destruct (Zneg c * 2 ^ k) as [|m|m] eqn:E; try lia.
    cbn [binary_normalize]. rewrite whole_neg.
    apply br_whole; [apply abs_digits; lia | exact Hk | lia].
Qed.

Lemma valid_whole z : Z.abs z < 2 ^ 53 → valid_binary (whole z) = true.
Proof.
  intros Hz.
  assert (H : ∀ s c, Zpos c < 2 ^ 53 →
            valid_binary (S754_finite s (norm53 c) (digits c - 53)) = true).
  { intros s c Hc. pose proof (abs_digits c Hc) as Hd.
    pose proof (digits_pos c) as Hp.
    cbn [SpecFloat.valid_binary]. unfold bounded, canonical_mantissa.
    fold (digits (norm53 c)). rewrite (digits_norm53 c Hd).
    rewrite fexp_normal by lia.
    apply andb_true_intro. split; [apply Z.eqb_eq; lia |].
    apply Z.leb_le. unfold emax, prec. lia. }
  destruct z as [|c|c]; [reflexivity | apply H; lia | apply H; lia].
Qed.

Lemma Prim2SF_of_int z :
  Z.abs z < 2 ^ 53 → Prim2SF (float64_of_int z) = whole z.
Proof.
  intros Hz. unfold float64_of_int.
  pose proof (normalize_whole z 0 ltac:(lia) Hz) as Hn.
  rewrite Z.pow_0_r, Z.mul_1_r in Hn. change (- 0) with 0 in Hn. rewrite Hn.
  apply Prim2SF_SF2Prim, valid_whole, Hz.
Qed.

(** The sign and the magnitude of a whole number. *)
Lemma whole_finite z :
  z ≠ 0 →
  whole z = S754_finite (z <? 0) (norm53 (Z.to_pos (Z.abs z)))
              (digits (Z.to_pos (Z.abs z)) - 53).
Proof. destruct z as [|c|c]; [easy | reflexivity | reflexivity]. Qed.

Lemma add_whole a b :
  Z.abs a < 2 ^ 53 → Z.abs b < 2 ^ 53 → Z.abs (a + b) < 2 ^ 53 →
  SF64add (whole a) (whole b) = whole (a + b).
Proof.
  intros Ha Hb Hab.
  destruct (Z.eq_dec a 0) as [-> | Ha0].
  { destruct b; reflexivity. }
  destruct (Z.eq_dec b 0) as [-> | Hb0].
  { rewrite Z.add_0_r. destruct a; reflexivity. }
  rewrite (whole_finite a Ha0), (whole_finite b Hb0).
  set (ca := Z.to_pos (Z.abs a)). set (cb := Z.to_pos (Z.abs b)).
  assert (Hca : Zpos ca = Z.abs a) by (subst ca; rewrite Z2Pos.id; lia).
  assert (Hcb : Zpos cb = Z.abs b) by (subst cb; rewrite Z2Pos.id; lia).
  pose proof (abs_digits ca ltac:(lia)) as Hda.
  pose proof (abs_digits cb ltac:(lia)) as Hdb.
  pose proof (digits_pos ca). pose proof (digits_pos cb).
  unfold SF64add, SFadd.
  set (ez := Z.min (digits ca - 53) (digits cb - 53)).
  destruct (shl_align_Z (norm53 ca) (digits ca - 53) ez ltac:(subst ez; lia))
    as [Hva _].
  destruct (shl_align_Z (norm53 cb) (digits cb - 53) ez ltac:(subst ez; lia))
    as [Hvb _].
  rewrite Hva, Hvb, !norm53_Z by assumption.
  rewrite <- !Z.mul_assoc, <- !Z.pow_add_r by (subst ez; lia).
  replace (53 - digits ca + (digits ca - 53 - ez)) with (- ez) by lia.
  replace (53 - digits cb + (digits cb - 53 - ez)) with (- ez) by lia.
  replace (cond_Zopp (a <? 0) (Zpos ca * 2 ^ (- ez))
           + cond_Zopp (b <? 0) (Zpos cb * 2 ^ (- ez)))
    with ((a + b) * 2 ^ (- ez)).
  - rewrite <- (Z.opp_involutive ez) at 2.
    apply normalize_whole; [subst ez; lia | exact Hab].
  - unfold cond_Zopp. rewrite Hca, Hcb.
    destruct (Z.ltb_spec a 0), (Z.ltb_spec b 0);
      rewrite ?(Z.abs_neq a), ?(Z.abs_eq a), ?(Z.abs_neq b), ?(Z.abs_eq b)
        by lia; ring.
Qed.

Lemma add_whole_zero t s :
  SF64add (whole t) (S754_zero s) = whole t.
Proof. destruct t, s; reflexivity. Qed.

Lemma mul_whole a b :
  a ≠ 0 → b ≠ 0 → Z.abs (a * b) < 2 ^ 53 →
  SF64mul (whole a) (whole b) = whole (a * b).
Proof.
  intros Ha0 Hb0 Hab.
  assert (Ha : Z.abs a < 2 ^ 53) by nia.
  assert (Hb : Z.abs b < 2 ^ 53) by nia.
  assert (Hab0 : a * b ≠ 0) by nia.
  rewrite (whole_finite a Ha0), (whole_finite b Hb0), (whole_finite _ Hab0).
  set (ca := Z.to_pos (Z.abs a)). set (cb := Z.to_pos (Z.abs b)).
  set (c := Z.to_pos (Z.abs (a * b))).
  assert (Hca : Zpos ca = Z.abs a) by (subst ca; rewrite Z2Pos.id; lia).
  assert (Hcb : Zpos cb = Z.abs b) by (subst cb; rewrite Z2Pos.id; lia).
  assert (Hc : Zpos c = Zpos ca * Zpos cb)
    by (subst c; rewrite Z2Pos.id by lia; rewrite Z.abs_mul; lia).
  pose proof (abs_digits ca ltac:(lia)) as Hda.
  pose proof (abs_digits cb ltac:(lia)) as Hdb.
  pose proof (abs_digits c ltac:(rewrite Hc, Hca, Hcb, <- Z.abs_mul; lia))
    as Hdc.
  pose proof (digits_pos ca). pose proof (digits_pos cb).
  assert (Hdig : digits ca + digits cb - 1 <= digits c).
  { destruct (digits_bounds ca) as [Hla _].
    destruct (digits_bounds cb) as [Hlb _].
    enough (2 ^ (digits ca + digits cb - 2) <= Zpos c)
      by (pose proof (digits_ge c _ ltac:(eassumption)); lia).
    replace (digits ca + digits cb - 2)
      with ((digits ca - 1) + (digits cb - 1)) by lia.
    rewrite Z.pow_add_r, Hc by lia.
    apply Z.mul_le_mono_nonneg; try assumption;
      apply Z.pow_nonneg; lia. }
  unfold SF64mul, SFmul.
  replace (digits ca - 53 + (digits cb - 53))
    with (- (106 - digits ca - digits cb)) by lia.
  replace (xorb (a <? 0) (b <? 0)) with (a * b <? 0).
  - apply bra_whole; [exact Hdc | lia |].
    rewrite Pos2Z.inj_mul, !norm53_Z, Hc by assumption.
    replace (106 - digits ca - digits cb)
      with ((53 - digits ca) + (53 - digits cb)) by lia.
    rewrite Z.pow_add_r by lia. ring.
  - destruct (Z.ltb_spec a 0), (Z.ltb_spec b 0), (Z.ltb_spec (a * b) 0);
      try reflexivity; nia.
Qed.

Lemma mul_whole_zero a b :
  Z.abs a < 2 ^ 53 → Z.abs b < 2 ^ 53 → a = 0 ∨ b = 0 →
  ∃ s, SF64mul (whole a) (whole b) = S754_zero s.
Proof.
  intros Ha Hb [-> | ->].
  - destruct b; cbn; eauto.
  - destruct a; cbn; eauto.
Qed.

(** *** Whole numbers in [float64] *)

Lemma float64_add_whole a b :
  Z.abs a < 2 ^ 53 → Z.abs b < 2 ^ 53 → Z.abs (a + b) < 2 ^ 53 →
  (float64_of_int a + float64_of_int b)%float = float64_of_int (a + b).
Proof.
  intros Ha Hb Hab. apply Prim2SF_inj.
  rewrite add_spec, !Prim2SF_of_int by assumption.
  now apply add_whole.
Qed.

Lemma float64_mul_add_whole t i o :
  Z.abs t < 2 ^ 53 → Z.abs i < 2 ^ 53 → Z.abs o < 2 ^ 53 →
  Z.abs (i * o) < 2 ^ 53 → Z.abs (t + i * o) < 2 ^ 53 →
  (float64_of_int t + float64_of_int i * float64_of_int o)%float
  = float64_of_int (t + i * o).
Proof.
  intros Ht Hi Ho Hio Htio. apply Prim2SF_inj.
  rewrite add_spec, mul_spec, !Prim2SF_of_int by assumption.
  destruct (Z.eq_dec i 0) as [Hi0|Hi0];
    [| destruct (Z.eq_dec o 0) as [Ho0|Ho0]].
  - destruct (mul_whole_zero i o Hi Ho (or_introl Hi0)) as [s ->].
    rewrite add_whole_zero. f_equal. subst i. lia.
  - destruct (mul_whole_zero i o Hi Ho (or_intror Ho0)) as [s ->].
    rewrite add_whole_zero. f_equal. subst o. lia.
  - rewrite (mul_whole i o Hi0 Ho0 Hio). now apply add_whole.
Qed.

Lemma whole_bound t o i N :
  0 <= i < N → Z.abs t + N * Z.abs o < 2 ^ 53 →
  Z.abs o < 2 ^ 53 ∧ Z.abs (i * o) < 2 ^ 53 ∧ Z.abs (t + i * o) < 2 ^ 53
  ∧ Z.abs t < 2 ^ 53.
Proof.
  intros Hi Hb. pose proof (Z.abs_nonneg o) as Ho.
  pose proof (Z.abs_nonneg t) as Ht.
  assert (Hio : Z.abs (i * o) = i * Z.abs o)
    by (rewrite Z.abs_mul, (Z.abs_eq i) by lia; reflexivity).
  assert (Hle : i * Z.abs o + Z.abs o <= N * Z.abs o).
  { replace (i * Z.abs o + Z.abs o) with ((i + 1) * Z.abs o) by ring.
    apply Z.mul_le_mono_nonneg_r; lia. }
  assert (H0 : 0 <= i * Z.abs o) by (apply Z.mul_nonneg_nonneg; lia).
  pose proof (Z.abs_triangle t (i * o)) as Htri.
  repeat split; lia.
Qed.

(** A list placed on whole pixels: as long as no coordinate reaches
    2^53, the cumulative translation of [Draw] and the closed form are
    the same whole numbers. *)
Lemma whole_translations m tx ty ox oy (N : nat) :
  MenuList.Tx m = float64_of_int tx → MenuList.Ty m = float64_of_int ty →
  MenuList.Offx m = float64_of_int ox →
  MenuList.Offy m = float64_of_int oy →
  Z.abs tx + Z.of_nat N * Z.abs ox < 2 ^ 53 →
  Z.abs ty + Z.of_nat N * Z.abs oy < 2 ^ 53 →
  Z.of_nat N < 2 ^ 53 →
  ∀ i, (i < N)%nat →
    translation_at m i
    = mkGeoM (float64_of_int (tx + Z.of_nat i * ox))
        (float64_of_int (ty + Z.of_nat i * oy))
    ∧ translation_closed_form m i
      = mkGeoM (float64_of_int (tx + Z.of_nat i * ox))
          (float64_of_int (ty + Z.of_nat i * oy)).
Proof.
  intros HTx HTy HOx HOy Hbx Hby HN i Hi. split.
  - induction i as [|i IH].
    + unfold translation_at, GeoM_Translate, GeoM_zero.
      unfold Nat.iter. cbn [nat_rect g_tx g_ty]. rewrite HTx, HTy.
      destruct (whole_bound tx ox 0 (Z.of_nat N) ltac:(lia) Hbx)
        as (_ & _ & _ & Htx).
      destruct (whole_bound ty oy 0 (Z.of_nat N) ltac:(lia) Hby)
        as (_ & _ & _ & Hty).
      change 0%float with (float64_of_int 0).
      rewrite !float64_add_whole by (cbn; lia).
      change (Z.of_nat 0) with 0. f_equal; f_equal; lia.
    + unfold translation_at in *. rewrite Nat.iter_succ, IH by lia.
      unfold GeoM_Translate. cbn [g_tx g_ty]. rewrite HOx, HOy.
      destruct (whole_bound tx ox (Z.of_nat i) (Z.of_nat N) ltac:(lia) Hbx)
        as (Hox & _ & Hx & _).
      destruct (whole_bound ty oy (Z.of_nat i) (Z.of_nat N) ltac:(lia) Hby)
        as (Hoy & _ & Hy & _).
      destruct (whole_bound tx ox (Z.of_nat (S i)) (Z.of_nat N)
                  ltac:(lia) Hbx) as (_ & _ & Hx' & _).
      destruct (whole_bound ty oy (Z.of_nat (S i)) (Z.of_nat N)
                  ltac:(lia) Hby) as (_ & _ & Hy' & _).
      assert (Ex : tx + Z.of_nat i * ox + ox = tx + Z.of_nat (S i) * ox)
        by lia.
      assert (Ey : ty + Z.of_nat i * oy + oy = ty + Z.of_nat (S i) * oy)
        by lia.
      rewrite !float64_add_whole by (rewrite ?Ex, ?Ey; assumption).
      now rewrite Ex, Ey.
  - unfold translation_closed_form. rewrite HTx, HTy, HOx, HOy.
    destruct (whole_bound tx ox (Z.of_nat i) (Z.of_nat N) ltac:(lia) Hbx)
      as (Hox & Hix & Hx & Htx).
    destruct (whole_bound ty oy (Z.of_nat i) (Z.of_nat N) ltac:(lia) Hby)
      as (Hoy & Hiy & Hy & Hty).
    rewrite !float64_mul_add_whole by (try assumption; lia).
    reflexivity.
Qed.

(** The closed form against the translations of [Draw]: it gives the
    translation of every item up to [n] exactly when it starts where
    [Draw] starts and advances from each item below [n] to the next as
    [Draw] does. *)
Lemma closed_form_criterion m n :
  (∀ i, (i ≤ n)%nat → translation_at m i = translation_closed_form m i)
  ↔ translation_closed_form m 0
    = mkGeoM (0 + MenuList.Tx m)%float (0 + MenuList.Ty m)%float
    ∧ ∀ j, (j < n)%nat →
        translation_closed_form m (S j)
        = mkGeoM
            (g_tx (translation_closed_form m j) + MenuList.Offx m)%float
            (g_ty (translation_closed_form m j) + MenuList.Offy m)%float.
Proof.
  split.
  - intros Hall. split.
    + rewrite <- (Hall 0%nat) by lia. reflexivity.
    + intros j Hj. rewrite <- (Hall (S j)), <- (Hall j) by lia. reflexivity.
  - intros [H0 Hstep] i. induction i as [|i IH]; intros Hi.
    + now rewrite H0.
    + rewrite (Hstep i) by lia. rewrite <- IH by lia. reflexivity.
Qed.

(** C6, amended: [Draw] goes through the items in index order, item 0
    first.  For item [i] it fills the item's image with the selected
    background colour if [i] is the cursor and with the background colour
    otherwise, draws the text with the selected text colour if [i] is the
    cursor and with the text colour otherwise, and composites the image
    onto the screen at the cumulative translation: [(0 + tx, 0 + ty)] for
    item 0, and for each later item the translation of the item before it
    plus [(offx, offy)], every sum taken in [float64].  This is the
    closed form [(tx + i*offx, ty + i*offy)] in two senses.  When [tx],
    [ty], [offx] and [offy] are whole numbers and [|tx| + N*|offx|],
    [|ty| + N*|offy|] and [N] are below 2^53, every item [i < N] is
    composited at the closed form evaluated in [float64], which is then
    exactly the whole numbers [tx + i*offx] and [ty + i*offy].  And
    whatever the four numbers are, the items 0 to [n] are composited at
    the closed form evaluated in [float64] if and only if that closed
    form is [(0 + tx, 0 + ty)] at [i = 0] and, for every [i < n], its
    value at [i + 1] is its value at [i] plus [(offx, offy)] in
    [float64]. *)
Theorem Draw_renders_in_order (input : MenuListInput.t) (w0 w : World)
  (ml : MenuList.t) :
  slice_ok w0 (MenuListInput.MenuItems input) = true →
  NewMenu input w0 = Ok (ml, None) w →
  (∀ (ks : list call) (screen : loc),
     ∃ w1 s es,
       perform_all ml ks w = Ok tt w1 ∧ selected w1 ml = Some s
       ∧ Draw ml (Some screen) w1 = Ok tt (add_trace es w1)
       ∧ es = render (translation_at ml) (Some screen) s
                (slice_items w1 (MenuList.MenuItems ml))
       ∧ length es = (3 * s_len (MenuList.MenuItems ml))%nat
       ∧ ∀ (i : nat) (item : MenuItem.t),
           slice_items w1 (MenuList.MenuItems ml) !! i = Some item →
           es !! (3 * i)%nat
           = Some (EvFill (MenuItem.image item)
                     (if Z.of_nat i =? s then MenuItem.SelBgColour item
                      else MenuItem.BgColour item))
           ∧ es !! (3 * i + 1)%nat
             = Some (EvText (MenuItem.image item) (MenuItem.Text item)
                       mplusNormalFont (MenuItem.TxtX item)
                       (MenuItem.TxtY item)
                       (if Z.of_nat i =? s then MenuItem.SelTxtColour item
                        else MenuItem.TxtColour item))
           ∧ es !! (3 * i + 2)%nat
             = Some (EvDrawImage (Some screen) (MenuItem.image item)
                       (translation_at ml i)))
  ∧ translation_at ml 0
    = mkGeoM (0 + MenuList.Tx ml)%float (0 + MenuList.Ty ml)%float
  ∧ (∀ i : nat,
       translation_at ml (S i)
       = mkGeoM (g_tx (translation_at ml i) + MenuList.Offx ml)%float
           (g_ty (translation_at ml i) + MenuList.Offy ml)%float)
  ∧ (∀ (tx ty offx offy : Z) (N : nat),
       MenuList.Tx ml = float64_of_int tx →
       MenuList.Ty ml = float64_of_int ty →
       MenuList.Offx ml = float64_of_int offx →
       MenuList.Offy ml = float64_of_int offy →
       Z.abs tx + Z.of_nat N * Z.abs offx < 2 ^ 53 →
       Z.abs ty + Z.of_nat N * Z.abs offy < 2 ^ 53 →
       Z.of_nat N < 2 ^ 53 →
       ∀ i, (i < N)%nat →
         translation_at ml i = translation_closed_form ml i
         ∧ translation_at ml i
           = mkGeoM (float64_of_int (tx + Z.of_nat i * offx))
               (float64_of_int (ty + Z.of_nat i * offy)))
  ∧ ∀ n : nat,
      (∀ i, (i ≤ n)%nat →
         translation_at ml i = translation_closed_form ml i)
      ↔ translation_closed_form ml 0
        = mkGeoM (0 + MenuList.Tx ml)%float (0 + MenuList.Ty ml)%float
        ∧ ∀ i, (i < n)%nat →
            translation_closed_form ml (S i)
            = mkGeoM
                (g_tx (translation_closed_form ml i)
                 + MenuList.Offx ml)%float
                (g_ty (translation_closed_form ml i)
                 + MenuList.Offy ml)%float.
Proof.
  intros Hok Hrun.
  split; [| split; [reflexivity |
            split; [intros i; reflexivity |
            split; [| intros n; apply closed_form_criterion]]]].
  2:{ intros tx ty offx offy N HTx HTy HOx HOy Hbx Hby HN i Hi.
      destruct (whole_translations ml tx ty offx offy N HTx HTy HOx HOy
                  Hbx Hby HN i Hi) as [Hat Hcl].
      split; [now rewrite Hat, Hcl | exact Hat]. }
  intros ks screen.
  destruct (built_calls input w0 ml w ks Hok Hrun)
    as (c & l & items & es0 & Hr & Hs & Hes).
  destruct (ready_len _ _ _ _ _ Hr) as [HL Hmax].
  pose proof (clamp_steps_range (len (MenuList.MenuItems ml)) ks 0
                ltac:(lia)) as Hrange.
  set (s := clamp_steps (len (MenuList.MenuItems ml)) 0 ks) in *.
  set (w1 := add_trace es0 (set_cursor c s w)) in *.
  assert (Hr1 : ready w1 ml c l items) by now apply ready_frame.
  assert (Hs1 : ints w1 !! c = Some s) by apply lookup_insert_eq.
  assert (Hitems : slice_items w1 (MenuList.MenuItems ml)
                   = take (s_len (MenuList.MenuItems ml)) items).
  { unfold slice_items.
    now rewrite (ready_data _ _ _ _ _ Hr1), (ready_array _ _ _ _ _ Hr1). }
  exists w1, s. eexists. split; [exact Hes |].
  split; [apply selected_after, Hr |]. split; [| split; [reflexivity |]].
  - rewrite Hitems.
    apply (Draw_ok ml screen w1 c s l items); trivial; apply Hr1.
  - split.
    + rewrite render_length, Hitems, length_take.
      pose proof (ready_cap _ _ _ _ _ Hr). lia.
    + intros i item Hi.
      pose proof (render_lookup (translation_at ml) (Some screen) s _ i 0 item
                    Hi ltac:(lia)) as H0.
      pose proof (render_lookup (translation_at ml) (Some screen) s _ i 1 item
                    Hi ltac:(lia)) as H1.
      pose proof (render_lookup (translation_at ml) (Some screen) s _ i 2 item
                    Hi ltac:(lia)) as H2.
      rewrite Nat.add_0_r in H0. rewrite H0, H1, H2. easy.
Qed.

(** The menu of [main], three buttons 36 pixels apart from (128, 128):
    the render makes nine engine calls, and each button is composited
    where the closed form says, at (128, 128 + 36 i). *)
Lemma Draw_renders_in_order_witness :
  ∃ ml w es,
    slice_ok host_world (MenuListInput.MenuItems newMenuInput) = true
    ∧ NewMenu newMenuInput host_world = Ok (ml, None) w
    ∧ Draw ml (Some 1%positive) w = Ok tt (add_trace es w)
    ∧ length es = (3 * s_len (MenuList.MenuItems ml))%nat
    ∧ ∀ i, (i < 3)%nat →
        translation_at ml i = translation_closed_form ml i
        ∧ translation_at ml i
          = mkGeoM (float64_of_int (128 + Z.of_nat i * 0))
              (float64_of_int (128 + Z.of_nat i * 36)).
Proof.
  destruct host_menu_built as (ml & w & Hrun).
  destruct (Draw_renders_in_order newMenuInput host_world w ml eq_refl Hrun)
    as (Hdraws & _ & _ & Hwhole & _).
  destruct (Hdraws [] 1%positive)
    as (w1 & s & es & Hcalls & _ & Hdraw & _ & Hlen & _).
  injection Hcalls as <-.
  exists ml, w, es. split; [reflexivity |]. split; [exact Hrun |].
  split; [exact Hdraw |]. split; [exact Hlen |].
  destruct (NewMenu_success newMenuInput host_world ml w eq_refl Hrun)
    as (_ & Hb).
  apply (Hwhole 128 128 0 36 3%nat).
  - rewrite (built_Tx _ _ _ _ Hb). reflexivity.
  - rewrite (built_Ty _ _ _ _ Hb). reflexivity.
  - rewrite (built_Offx _ _ _ _ Hb). reflexivity.
  - rewrite (built_Offy _ _ _ _ Hb). reflexivity.
  - reflexivity.
  - reflexivity.
  - reflexivity.
Defined.

(** In the menu of the host the three buttons are composited at
    (128, 128), (128, 164) and (128, 200), which is also what the closed
    form gives. *)
Example host_menu_translations :
  ∃ ml w, NewMenu newMenuInput host_world = Ok (ml, None) w
    ∧ translation_at ml <$> [0; 1; 2]%nat
      = [mkGeoM 128 128; mkGeoM 128 164; mkGeoM 128 200]%float
    ∧ translation_closed_form ml <$> [0; 1; 2]%nat
      = translation_at ml <$> [0; 1; 2]%nat.
Proof.
  eexists _, _. split; [vm_compute; reflexivity |].
  split; vm_compute; reflexivity.
Qed.


(* ================================================================== *)
(** ** Further properties of the construction and the render *)

(** X1: a successful [NewMenu] gives every item an image of its own: one
    that did not exist before, of the list's width and height with the
    nearest filter, and different from the image of every other item;
    images that existed before are still there. *)
Theorem NewMenu_allocates_images (input : MenuListInput.t) (w w' : World)
  (ml : MenuList.t) :
  slice_ok w (MenuListInput.MenuItems input) = true →
  NewMenu input w = Ok (ml, None) w' →
  images w ⊆ images w'
  ∧ (∀ (i : nat) (x' : MenuItem.t),
       slice_items w' (MenuList.MenuItems ml) !! i = Some x' →
       ∃ img, MenuItem.image x' = Some img ∧ images w !! img = None
              ∧ images w' !! img
                = Some (mkImage (MenuList.Width ml) (MenuList.Height ml)
                          FilterNearest))
  ∧ (∀ (i j : nat) (x' y' : MenuItem.t), i ≠ j →
       slice_items w' (MenuList.MenuItems ml) !! i = Some x' →
       slice_items w' (MenuList.MenuItems ml) !! j = Some y' →
       MenuItem.image x' ≠ MenuItem.image y').
Proof.
  intros Hok Hrun.
  destruct (NewMenu_success input w ml w' Hok Hrun) as ((_ & _ & HL) & Hb).
  destruct (built_items input w ml w' Hok HL Hb)
    as (l & items & items' & Hd & Ha & Ha' & Hn & Hlen' & Hdone & _).
  destruct (built_arrays _ _ _ _ Hb)
    as (l0 & items0 & items0' & Hd0 & Ha0 & Ha0' & Hsub & _ & _ & _ & Hdiff).
  rewrite Hd in Hd0. injection Hd0 as <-.
  rewrite Ha0', lookup_insert_eq in Ha'. injection Ha' as ->.
  split; [exact Hsub |]. split.
  - intros i x' Hx'.
    apply (slice_items_lookup w' _ l items' i x' Hd) in Hx' as [Hi Hx'];
      [| rewrite Ha0'; apply lookup_insert_eq].
    destruct (lookup_lt_is_Some_2 items i) as [x Hx]; [lia |].
    destruct (Hdone i x Hi Hx) as (img & Hx'' & Hnew & Himg).
    rewrite Hx' in Hx''. injection Hx'' as ->. exists img. easy.
  - intros i j x' y' Hne Hx' Hy'.
    apply (slice_items_lookup w' _ l items' i x' Hd) in Hx' as [Hi Hx'];
      [| rewrite Ha0'; apply lookup_insert_eq].
    apply (slice_items_lookup w' _ l items' j y' Hd) in Hy' as [Hj Hy'];
      [| rewrite Ha0'; apply lookup_insert_eq].
    destruct (decide (i < j)%nat) as [Hlt|Hge].
    + apply (Hdiff i j x' y'); [lia | exact Hx' | exact Hy'].
    + intros Heq. symmetry in Heq. revert Heq.
      apply (Hdiff j i y' x'); [lia | exact Hy' | exact Hx'].
Qed.

Lemma NewMenu_allocates_images_witness :
  ∃ ml w',
    slice_ok host_world (MenuListInput.MenuItems newMenuInput) = true
    ∧ NewMenu newMenuInput host_world = Ok (ml, None) w'
    ∧ images host_world ⊆ images w'.
Proof.
  destruct host_menu_built as (ml & w' & Hrun). exists ml, w'.
  split; [reflexivity |]. split; [exact Hrun |].
  exact (proj1 (NewMenu_allocates_images newMenuInput host_world w' ml
                  eq_refl Hrun)).
Defined.

(** X2: a successful [NewMenu] works in the caller's slice: the list it
    returns has the slice header of the input, so the resolved items
    overwrite the caller's.  Name, text and [TxtX] of every item are kept,
    the backing array keeps its length, its elements from [len] on are
    untouched, and no other array changes. *)
Theorem NewMenu_resolves_in_place (input : MenuListInput.t) (w w' : World)
  (ml : MenuList.t) :
  slice_ok w (MenuListInput.MenuItems input) = true →
  NewMenu input w = Ok (ml, None) w' →
  MenuList.MenuItems ml = MenuListInput.MenuItems input
  ∧ (∀ (i : nat) (x : MenuItem.t),
       slice_items w (MenuListInput.MenuItems input) !! i = Some x →
       ∃ x', slice_items w' (MenuListInput.MenuItems input) !! i = Some x'
             ∧ MenuItem.Name x' = MenuItem.Name x
             ∧ MenuItem.Text x' = MenuItem.Text x
             ∧ MenuItem.TxtX x' = MenuItem.TxtX x)
  ∧ ∃ l items items',
      s_data (MenuListInput.MenuItems input) = Some l
      ∧ arrays w !! l = Some items
      ∧ arrays w' = <[l := items']> (arrays w)
      ∧ length items' = length items
      ∧ ∀ j : nat, (s_len (MenuListInput.MenuItems input) ≤ j)%nat →
                   items' !! j = items !! j.
Proof.
  intros Hok Hrun.
  destruct (NewMenu_success input w ml w' Hok Hrun) as ((_ & _ & HL) & Hb).
  pose proof (built_MenuItems _ _ _ _ Hb) as Hsame.
  split; [exact Hsame |]. split.
  - intros i x Hx.
    destruct (built_slice_items input w ml w' i x Hok Hrun Hx) as (img & Hx').
    rewrite Hsame in Hx'. eexists. split; [exact Hx' |]. easy.
  - destruct (built_items input w ml w' Hok HL Hb)
      as (l & items & items' & Hd & Ha & _ & Hn & Hlen' & _ & Hrest).
    destruct (built_arrays _ _ _ _ Hb)
      as (l0 & items0 & items0' & Hd0 & Ha0 & Ha0' & _ & Hlen0 & Hrest0 & _).
    rewrite Hd in Hd0. injection Hd0 as <-. rewrite Ha in Ha0.
    injection Ha0 as <-. rewrite Hsame in *.
    exists l, items, items0'. split; [exact Hd |]. split; [exact Ha |].
    split; [exact Ha0' |]. split.
    + rewrite Hlen0, length_app, length_fmap, length_take, length_drop. lia.
    + intros j Hj. rewrite Hrest0 by exact Hj.
      now apply resolved_prefix_lookup_ge.
Qed.

Lemma NewMenu_resolves_in_place_witness :
  ∃ ml w',
    slice_ok scenario_world (MenuListInput.MenuItems scenario_input) = true
    ∧ NewMenu scenario_input scenario_world = Ok (ml, None) w'
    ∧ MenuList.MenuItems ml = MenuListInput.MenuItems scenario_input.
Proof.
  destruct scenario_built as (ml & w' & Hrun). exists ml, w'.
  split; [reflexivity |]. split; [exact Hrun |].
  exact (proj1 (NewMenu_resolves_in_place scenario_input scenario_world w' ml
                  eq_refl Hrun)).
Defined.

(** X3: a render is a function of the current state: on a built list, in
    any state the host can reach, [Draw] changes nothing but the trace of
    engine calls, and a second [Draw] onto the same screen makes the same
    engine calls again. *)
Theorem Draw_repeatable (input : MenuListInput.t) (w0 w : World)
  (ml : MenuList.t) :
  slice_ok w0 (MenuListInput.MenuItems input) = true →
  NewMenu input w0 = Ok (ml, None) w →
  ∀ (ks : list call) (screen : loc),
    ∃ w1 es,
      perform_all ml ks w = Ok tt w1
      ∧ Draw ml (Some screen) w1 = Ok tt (add_trace es w1)
      ∧ Draw ml (Some screen) (add_trace es w1)
        = Ok tt (add_trace es (add_trace es w1)).
Proof.
  intros Hok Hrun ks screen.
  destruct (built_calls input w0 ml w ks Hok Hrun)
    as (c & l & items & es0 & Hr & Hs & Hes).
  destruct (ready_len _ _ _ _ _ Hr) as [HL Hmax].
  pose proof (clamp_steps_range (len (MenuList.MenuItems ml)) ks 0
                ltac:(lia)) as Hrange.
  set (s := clamp_steps (len (MenuList.MenuItems ml)) 0 ks) in *.
  set (w1 := add_trace es0 (set_cursor c s w)) in *.
  assert (Hr1 : ready w1 ml c l items) by now apply ready_frame.
  assert (Hs1 : ints w1 !! c = Some s) by apply lookup_insert_eq.
  exists w1, (call_events ml s items (CallDraw screen)).
  split; [exact Hes |].
  pose proof (perform_ok ml w1 c l items s (CallDraw screen) Hr1 Hs1 Hrange)
    as Hd1.
  cbn [perform clamp_step] in Hd1. rewrite (set_cursor_same _ _ _ Hs1) in Hd1.
  split; [exact Hd1 |].
  assert (Hr2 : ready (add_trace (call_events ml s items (CallDraw screen)) w1)
                  ml c l items) by (destruct Hr1; now constructor).
  pose proof (perform_ok ml _ c l items s (CallDraw screen) Hr2 Hs1 Hrange)
    as Hd2.
  cbn [perform clamp_step] in Hd2.
  rewrite (set_cursor_same c s (add_trace _ w1) Hs1) in Hd2. exact Hd2.
Qed.

Lemma Draw_repeatable_witness :
  ∃ ml w es,
    slice_ok host_world (MenuListInput.MenuItems newMenuInput) = true
    ∧ NewMenu newMenuInput host_world = Ok (ml, None) w
    ∧ Draw ml (Some 1%positive) w = Ok tt (add_trace es w)
    ∧ Draw ml (Some 1%positive) (add_trace es w)
      = Ok tt (add_trace es (add_trace es w)).
Proof.
  destruct host_menu_built as (ml & w & Hrun).
  destruct (Draw_repeatable newMenuInput host_world w ml eq_refl Hrun
              [] 1%positive)
    as (w1 & es & Hcalls & Hd1 & Hd2).
  injection Hcalls as <-.
  exists ml, w, es. split; [reflexivity |]. split; [exact Hrun |].
  split; [exact Hd1 | exact Hd2].
Defined.

(** The scenario of the specification, run.  On the list of the three
    items A, B, C the selection reads A, then C after two increments, still
    C after a third, A after three decrements and still A after a
    fourth. *)
Example scenario_navigation :
  ∃ ml w w',
    NewMenu scenario_input scenario_world = Ok (ml, None) w
    ∧ scenario_session ml w = Ok ["A"; "C"; "C"; "A"; "A"] w'.
Proof.
  eexists _, _, _. split; [vm_compute; reflexivity |].
  vm_compute. reflexivity.
Qed.

(* ================================================================== *)
(** ** The host program *)

Lemma hbind_Done {T U} (m : Main.H T) (k : T → Main.H U) h v h' :
  m h = Main.Done v h' → (m ≫= k) h = k v h'.
Proof. unfold mbind, Main.H_bind. now intros ->. Qed.

Lemma new_events_frame es c s w :
  new_events w (add_trace es (set_cursor c s w)) = es.
Proof. unfold new_events. cbn. now rewrite drop_app_length. Qed.

Lemma lift_Ok {T} (m : M T) h v w' :
  m (Main.world h) = Ok v w' →
  Main.lift m h
  = Main.Done v (Main.mkHost w' (Main.state h) (Main.square h)
                   (Main.mainMenu h)
                   (Main.calls h
                    ++ (Main.HvEngine <$> new_events (Main.world h) w'))).
Proof. unfold Main.lift. now intros ->. Qed.

(** A call of the menu through the host. *)
Lemma lift_perform h c l items s k :
  host_ok h c l items s →
  Main.lift (perform (Main.mainMenu h) k) h
  = Main.Done tt
      (Main.mkHost
         (add_trace (call_events (Main.mainMenu h) s items k)
            (set_cursor c
               (clamp_step (len (MenuList.MenuItems (Main.mainMenu h))) s k)
               (Main.world h)))
         (Main.state h) (Main.square h) (Main.mainMenu h)
         (Main.calls h
          ++ (Main.HvEngine <$> call_events (Main.mainMenu h) s items k))).
Proof.
  intros (Hr & Hs & Hrange).
  rewrite (lift_Ok _ h tt _ (perform_ok _ _ c l items s k Hr Hs Hrange)).
  now rewrite new_events_frame.
Qed.

Lemma host_ok_after_call h c l items s k :
  host_ok h c l items s →
  host_ok (after_call h c s items k) c l items
    (clamp_step (len (MenuList.MenuItems (Main.mainMenu h))) s k).
Proof.
  intros (Hr & Hs & Hrange). split; [| split].
  - cbn. now apply ready_frame.
  - cbn. apply lookup_insert_eq.
  - cbn. now apply clamp_step_range.
Qed.

(** A menu call in the middle of a block. *)
Lemma lift_perform_bind {U} h c l items s k (K : unit → Main.H U) :
  host_ok h c l items s →
  (Main.lift (perform (Main.mainMenu h) k) ≫= K) h
  = K tt (after_call h c s items k).
Proof.
  intros Hok. apply hbind_Done. now apply (lift_perform h c l items s k).
Qed.

Lemma host_ok_say h c l items s e :
  host_ok h c l items s →
  host_ok (Main.mkHost (Main.world h) (Main.state h) (Main.square h)
             (Main.mainMenu h) (Main.calls h ++ [e])) c l items s.
Proof. now intros (Hr & Hs & Hrange). Qed.

(** The title-screen block: the debug text, the render with the cursor as
    it is, then the keys: up, down, enter. *)
Lemma update_titleScreen_ok h c l items s pressed scr :
  host_ok h c l items s → Main.state h = Main.titleScreen →
  let n := len (MenuList.MenuItems (Main.mainMenu h)) in
  let s' := title_cursor n s pressed in
  ∃ h',
    Main.update_titleScreen pressed (Some scr) h
    = block_outcome
        (if pressed Main.KeyEnter then Some (enter (name_at items s'))
         else None) h'
    ∧ host_ok h' c l items s'
    ∧ Main.state h' = Main.titleScreen
    ∧ Main.mainMenu h' = Main.mainMenu h
    ∧ Main.square h' = Main.square h
    ∧ images (Main.world h') = images (Main.world h)
    ∧ colours (Main.world h') = colours (Main.world h)
    ∧ arrays (Main.world h') = arrays (Main.world h)
    ∧ Main.calls h'
      = Main.calls h
        ++ Main.HvDebugPrint (Some scr) "Title screen"
           :: (Main.HvEngine
               <$> render (translation_at (Main.mainMenu h)) (Some scr) s
                     (take (s_len (MenuList.MenuItems (Main.mainMenu h)))
                        items)).
Proof.
  intros Hok Hst n s'.
  unfold Main.update_titleScreen, Main.ebitenutil_DebugPrint.
  unfold Main.IsKeyJustPressed.
  set (h0 := Main.mkHost (Main.world h) (Main.state h) (Main.square h)
               (Main.mainMenu h)
               (Main.calls h ++ [Main.HvDebugPrint (Some scr) "Title screen"])).
  assert (Hok0 : host_ok h0 c l items s) by now apply host_ok_say.
  set (h1 := after_call h0 c s items (CallDraw scr)).
  assert (Hok1 : host_ok h1 c l items s)
    by apply (host_ok_after_call h0 c l items s (CallDraw scr) Hok0).
  set (s2 := if pressed Main.KeyUp then clamp_step n s CallDecrement else s).
  set (h2 := if pressed Main.KeyUp
             then after_call h1 c s items CallDecrement else h1).
  assert (Hok2 : host_ok h2 c l items s2).
  { subst h2 s2. destruct (pressed Main.KeyUp); [| exact Hok1].
    apply (host_ok_after_call h1 c l items s CallDecrement Hok1). }
  set (h3 := if pressed Main.KeyDown
             then after_call h2 c s2 items CallIncrement else h2).
  assert (Hm2 : Main.mainMenu h2 = Main.mainMenu h)
    by (subst h2; now destruct (pressed Main.KeyUp)).
  assert (Hok3 : host_ok h3 c l items s').
  { subst h3 s'. unfold title_cursor. fold s2.
    destruct (pressed Main.KeyDown); [| exact Hok2].
    subst n. rewrite <- Hm2.
    apply (host_ok_after_call h2 c l items s2 CallIncrement Hok2). }
  exists h3.
  assert (Hfacts :
    Main.state h3 = Main.titleScreen
    ∧ Main.mainMenu h3 = Main.mainMenu h
    ∧ Main.square h3 = Main.square h
    ∧ images (Main.world h3) = images (Main.world h)
    ∧ colours (Main.world h3) = colours (Main.world h)
    ∧ arrays (Main.world h3) = arrays (Main.world h)
    ∧ Main.calls h3
      = Main.calls h
        ++ Main.HvDebugPrint (Some scr) "Title screen"
           :: (Main.HvEngine
               <$> render (translation_at (Main.mainMenu h)) (Some scr) s
                     (take (s_len (MenuList.MenuItems (Main.mainMenu h)))
                        items))).
  { subst h3 h2 h1 h0.
    destruct (pressed Main.KeyUp), (pressed Main.KeyDown); cbn;
      rewrite ?app_nil_r, <- ?app_assoc; easy. }
  split; [| split; [exact Hok3 | exact Hfacts]].
  (* the run *)
  unfold mbind at 1, Main.H_bind at 1, Main.say at 1.
  unfold mbind at 1, Main.H_bind at 1. cbn [mret Main.H_ret]. fold h0.
  unfold mbind at 1, Main.H_bind at 1, Main.get_mainMenu at 1.
  change (Draw (Main.mainMenu h0) (Some scr))
    with (perform (Main.mainMenu h0) (CallDraw scr)).
  rewrite (lift_perform_bind h0 c l items s (CallDraw scr) _ Hok0). fold h1.
  assert (Hstep2 : ∀ {U} (K : unit → Main.H U),
            ((if pressed Main.KeyUp
              then Main.get_mainMenu
                   ≫= λ m, Main.lift (DecrementSelected m)
              else mret tt) ≫= K) h1 = K tt h2).
  { intros U K. subst h2. destruct (pressed Main.KeyUp); [| reflexivity].
    unfold mbind at 2, Main.H_bind at 2, Main.get_mainMenu at 1.
    change (DecrementSelected (Main.mainMenu h1))
      with (perform (Main.mainMenu h1) CallDecrement).
    apply (lift_perform_bind h1 c l items s CallDecrement K Hok1). }
  rewrite Hstep2.
  assert (Hstep3 : ∀ {U} (K : unit → Main.H U),
            ((if pressed Main.KeyDown
              then Main.get_mainMenu
                   ≫= λ m, Main.lift (IncrementSelected m)
              else mret tt) ≫= K) h2 = K tt h3).
  { intros U K. subst h3. destruct (pressed Main.KeyDown); [| reflexivity].
    unfold mbind at 2, Main.H_bind at 2, Main.get_mainMenu at 1.
    change (IncrementSelected (Main.mainMenu h2))
      with (perform (Main.mainMenu h2) CallIncrement).
    apply (lift_perform_bind h2 c l items s2 CallIncrement K Hok2). }
  rewrite Hstep3.
  destruct (pressed Main.KeyEnter); [| reflexivity].
  unfold mbind at 1, Main.H_bind at 1, Main.get_mainMenu at 1.
  destruct Hok3 as (Hr3 & Hs3 & Hrange3).
  destruct (lookup_lt_is_Some_2 items (Z.to_nat s')) as [it Hit].
  { pose proof (ready_cap _ _ _ _ _ Hr3). unfold len in *. lia. }
  rewrite (hbind_Done _ _ _ _ _
             (lift_Ok _ h3 _ _
                (GetSelectedItem_ok (Main.mainMenu h3) (Main.world h3) c s' l
                   items it (ready_cursor _ _ _ _ _ Hr3) Hs3
                   (ready_data _ _ _ _ _ Hr3) (ready_array _ _ _ _ _ Hr3)
                   ltac:(lia) Hit))).
  unfold name_at. rewrite Hit. cbn [from_option].
  unfold new_events. rewrite drop_all. cbn [fmap list_fmap].
  rewrite app_nil_r. unfold enter.
  destruct Hfacts as (Hst3 & _).
  replace (Main.mkHost (Main.world h3) (Main.state h3) (Main.square h3)
             (Main.mainMenu h3) (Main.calls h3)) with h3
    by (now destruct h3).
  destruct (String.eqb (MenuItem.Name it) "playButton"); [reflexivity |].
  destruct (String.eqb (MenuItem.Name it) "optionButton"); [reflexivity |].
  destruct (String.eqb (MenuItem.Name it) "quitButton"); [reflexivity |].
  cbn. unfold host_with_state. rewrite <- Hst3. now destruct h3.
Qed.

Lemma lift_quiet {T} (m : M T) h v w' :
  m (Main.world h) = Ok v w' → trace w' = trace (Main.world h) →
  Main.lift m h
  = Main.Done v (Main.mkHost w' (Main.state h) (Main.square h)
                   (Main.mainMenu h) (Main.calls h)).
Proof.
  intros Hm Ht. rewrite (lift_Ok m h v w' Hm). unfold new_events.
  rewrite Ht, drop_all. cbn. now rewrite app_nil_r.
Qed.

Lemma lift_emits {T} (m : M T) h v es :
  m (Main.world h) = Ok v (add_trace es (Main.world h)) →
  Main.lift m h
  = Main.Done v (Main.mkHost (add_trace es (Main.world h)) (Main.state h)
                   (Main.square h) (Main.mainMenu h)
                   (Main.calls h ++ (Main.HvEngine <$> es))).
Proof.
  intros Hm. rewrite (lift_Ok m h v _ Hm). unfold new_events. cbn.
  now rewrite drop_app_length.
Qed.

(** What [draw_square] leaves behind: the square, allocated now if it was
    not there, a new colour object, and two engine calls. *)
Lemma draw_square_ok h c l items s scr clr :
  host_ok h c l items s →
  ∃ h' q p,
    Main.draw_square (Some scr) clr h = Main.Done tt h'
    ∧ host_ok h' c l items s
    ∧ Main.state h' = Main.state h
    ∧ Main.mainMenu h' = Main.mainMenu h
    ∧ Main.square h' = Some q
    ∧ match Main.square h with
      | Some q0 =>
          q = q0 ∧ images (Main.world h') = images (Main.world h)
      | None =>
          images (Main.world h) !! q = None
          ∧ images (Main.world h')
            = <[q := mkImage 32 32 FilterNearest]> (images (Main.world h))
      end
    ∧ colours (Main.world h) !! p = None
    ∧ colours (Main.world h') = <[p := clr]> (colours (Main.world h))
    ∧ arrays (Main.world h') = arrays (Main.world h)
    ∧ Main.calls h'
      = Main.calls h
        ++ [Main.HvEngine (EvFill (Some q) (Some p));
            Main.HvEngine
              (EvDrawImage (Some scr) (Some q)
                 (GeoM_Translate GeoM_zero 64%float 64%float))].
Proof.
  intros (Hr & Hs & Hrange). unfold Main.draw_square.
  unfold mbind at 1, Main.H_bind at 1, Main.get_square at 1.
  (* the square, allocated on first use *)
  set (h1 := match Main.square h with
             | Some _ => h
             | None =>
                 Main.mkHost
                   (with_images
                      (<[fresh (dom (images (Main.world h)))
                         := mkImage 32 32 FilterNearest]>
                         (images (Main.world h))) (Main.world h))
                   (Main.state h)
                   (Some (fresh (dom (images (Main.world h)))))
                   (Main.mainMenu h) (Main.calls h)
             end).
  set (q := match Main.square h with
            | Some q0 => q0
            | None => fresh (dom (images (Main.world h)))
            end).
  assert (Hsq : ∀ {U} (K : unit → Main.H U),
            ((match Main.square h with
              | Some _ => mret tt
              | None =>
                  Main.lift (ebiten_NewImage 32 32 FilterNearest)
                  ≫= λ r, Main.set_square (fst r)
              end) ≫= K) h = K tt h1).
  { intros U K. subst h1. destruct (Main.square h) eqn:E; [reflexivity |].
    apply hbind_Done.
    rewrite (hbind_Done _ _ _ _ _
               (lift_quiet (ebiten_NewImage 32 32 FilterNearest) h _ _
                  eq_refl eq_refl)).
    reflexivity. }
  rewrite Hsq.
  assert (H1 : Main.square h1 = Some q ∧ Main.state h1 = Main.state h
               ∧ Main.mainMenu h1 = Main.mainMenu h
               ∧ Main.calls h1 = Main.calls h
               ∧ colours (Main.world h1) = colours (Main.world h)
               ∧ arrays (Main.world h1) = arrays (Main.world h)
               ∧ ints (Main.world h1) = ints (Main.world h)
               ∧ trace (Main.world h1) = trace (Main.world h)).
  { subst h1 q. destruct (Main.square h) eqn:E; cbn; rewrite ?E; easy. }
  destruct H1 as (Hq1 & Hst1 & Hm1 & Hc1 & Hcol1 & Harr1 & Hint1 & Htr1).
  set (p := fresh (dom (colours (Main.world h1)))).
  rewrite (hbind_Done _ _ _ _ _
             (lift_quiet (new_NRGBA clr) h1 _ _ eq_refl eq_refl)).
  unfold mbind at 1, Main.H_bind at 1, Main.get_square at 1.
  cbn [Main.square]. rewrite Hq1.
  rewrite (hbind_Done _ _ _ _ _
             (lift_emits (Image_Fill (Some q) (Some p)) _ _ _ eq_refl)).
  rewrite (hbind_Done _ _ _ _ _
             (lift_emits (Image_DrawImage (Some scr) (Some q) _) _ _ _
                eq_refl)).
  eexists _, q, p. split; [reflexivity |].
  cbn [Main.world Main.state Main.square Main.mainMenu Main.calls].
  split; [| split; [exact Hst1 | split; [exact Hm1 | split; [reflexivity |]]]].
  { split; [| split].
    - cbn. destruct Hr. constructor; cbn; rewrite ?Hm1, ?Harr1; trivial.
    - cbn. now rewrite Hint1.
    - cbn. now rewrite Hm1. }
  split.
  { subst h1 q. destruct (Main.square h) eqn:E; [easy |].
    split; [apply fresh_lookup_None | reflexivity]. }
  split; [rewrite <- Hcol1; apply fresh_lookup_None |].
  split; [cbn; subst p; now rewrite Hcol1 |].
  split; [exact Harr1 |].
  rewrite Hc1, <- app_assoc. reflexivity.
Qed.

(** The play-screen and the options-screen block: the debug text, the
    square, then escape. *)
Lemma update_square_screen_ok h c l items s pressed scr str clr :
  host_ok h c l items s →
  ∃ h' q p,
    (Main.ebitenutil_DebugPrint (Some scr) str
     ≫= λ _, Main.draw_square (Some scr) clr
     ≫= λ _, if Main.IsKeyJustPressed pressed Main.KeyEscape
             then Main.set_state Main.titleScreen ≫= λ _, mret (Some None)
             else mret None) h
    = block_outcome
        (if pressed Main.KeyEscape then Some (Continue Main.titleScreen)
         else None) h'
    ∧ host_ok h' c l items s
    ∧ Main.state h' = Main.state h
    ∧ Main.mainMenu h' = Main.mainMenu h
    ∧ Main.square h' = Some q
    ∧ match Main.square h with
      | Some q0 =>
          q = q0 ∧ images (Main.world h') = images (Main.world h)
      | None =>
          images (Main.world h) !! q = None
          ∧ images (Main.world h')
            = <[q := mkImage 32 32 FilterNearest]> (images (Main.world h))
      end
    ∧ colours (Main.world h) !! p = None
    ∧ colours (Main.world h') = <[p := clr]> (colours (Main.world h))
    ∧ arrays (Main.world h') = arrays (Main.world h)
    ∧ Main.calls h'
      = Main.calls h
        ++ [Main.HvDebugPrint (Some scr) str;
            Main.HvEngine (EvFill (Some q) (Some p));
            Main.HvEngine
              (EvDrawImage (Some scr) (Some q)
                 (GeoM_Translate GeoM_zero 64%float 64%float))].
Proof.
  intros Hok. unfold Main.ebitenutil_DebugPrint, Main.IsKeyJustPressed.
  set (h0 := Main.mkHost (Main.world h) (Main.state h) (Main.square h)
               (Main.mainMenu h)
               (Main.calls h ++ [Main.HvDebugPrint (Some scr) str])).
  assert (Hok0 : host_ok h0 c l items s) by now apply host_ok_say.
  destruct (draw_square_ok h0 c l items s scr clr Hok0)
    as (h' & q & p & Hrun & Hok' & Hst & Hm & Hsq & Himg & Hp & Hcol & Harr
        & Hcalls).
  exists h', q, p.
  split.
  - unfold mbind at 1, Main.H_bind at 1, Main.say at 1.
    unfold mbind at 1, Main.H_bind at 1. cbn [mret Main.H_ret]. fold h0.
    rewrite (hbind_Done _ _ _ _ _ Hrun).
    destruct (pressed Main.KeyEscape); reflexivity.
  - split; [exact Hok' |]. split; [exact Hst |]. split; [exact Hm |].
    split; [exact Hsq |]. split; [exact Himg |].
    split; [exact Hp |]. split; [exact Hcol |]. split; [exact Harr |].
    rewrite Hcalls. cbn [h0 Main.calls]. now rewrite <- app_assoc.
Qed.

Lemma when_state_eq st block h :
  Main.state h = st → Main.when_state st block h = block h.
Proof.
  intros Hst. unfold Main.when_state.
  unfold mbind, Main.H_bind, Main.get_state. now rewrite decide_True.
Qed.

Lemma when_state_ne st block h :
  Main.state h ≠ st → Main.when_state st block h = Main.Done None h.
Proof.
  intros Hst. unfold Main.when_state.
  unfold mbind, Main.H_bind, Main.get_state. now rewrite decide_False.
Qed.

Lemma host_ok_with_state st h c l items s :
  host_ok h c l items s → host_ok (host_with_state st h) c l items s.
Proof. now intros (Hr & Hs & Hrange). Qed.

(** One frame, from a host whose menu is ready. *)
Lemma update_ok h c l items s pressed scr :
  host_ok h c l items s →
  let n := len (MenuList.MenuItems (Main.mainMenu h)) in
  let s' := frame_cursor (Main.state h) n s pressed in
  let v := frame_verdict (Main.state h) (name_at items s') pressed in
  ∃ h',
    Main.update pressed (Some scr) h
    = match v with
      | Continue _ => Main.Done None h'
      | Exit code => Main.Exited code h'
      end
    ∧ host_ok h' c l items s'
    ∧ Main.state h'
      = match v with
        | Continue st => st
        | Exit _ => Main.state h
        end
    ∧ Main.mainMenu h' = Main.mainMenu h
    ∧ arrays (Main.world h') = arrays (Main.world h)
    ∧ square_step h h'
    ∧ frame_calls h h' scr s items.
Proof.
  intros Hok n s' v. unfold Main.update, Main.Image_Fill_value.
  set (h0 := Main.mkHost (Main.world h) (Main.state h) (Main.square h)
               (Main.mainMenu h)
               (Main.calls h ++ [Main.HvFill (Some scr) clear_colour])).
  assert (Hok0 : host_ok h0 c l items s) by now apply host_ok_say.
  assert (Hrun0 : ∀ {U} (K : error → Main.H U),
            ((Main.say (Main.HvFill (Some scr) clear_colour)
              ≫= λ _, mret None) ≫= K) h = K None h0).
  { intros U K. reflexivity. }
  unfold clear_colour in Hrun0. rewrite Hrun0. clear Hrun0.
  unfold square_step, frame_calls. subst v s'. unfold frame_cursor.
  destruct (Main.state h) eqn:Hst; cbn [frame_verdict].
  - (* title screen *)
    destruct (update_titleScreen_ok h0 c l items s pressed scr Hok0 eq_refl)
      as (h' & Hrun & Hok' & Hst' & Hm & Hsq & Himg & Hcol & Harr & Hcalls).
    cbn [Main.mainMenu h0] in Hrun, Hok'. fold n in Hrun, Hok'.
    cbn [Main.world h0] in Hcol.
    unfold mbind at 1, Main.H_bind at 1.
    rewrite (when_state_eq _ _ h0 eq_refl), Hrun.
    destruct (pressed Main.KeyEnter); cbn [block_outcome].
    + destruct (enter (name_at items (title_cursor n s pressed))) as [st|code].
      * exists (host_with_state st h'). split; [reflexivity |].
        split; [now apply host_ok_with_state |]. split; [reflexivity |].
        split; [exact Hm |]. split; [exact Harr |]. split; [easy |].
        eexists. split; [| split; [reflexivity | exact Hcol]].
        cbn [host_with_state Main.calls]. rewrite Hcalls. cbn [h0 Main.calls].
        now rewrite <- app_assoc.
      * exists h'. split; [reflexivity |]. split; [exact Hok' |].
        split; [exact Hst' |]. split; [exact Hm |]. split; [exact Harr |].
        split; [easy |]. eexists. split; [| split; [reflexivity | exact Hcol]].
        rewrite Hcalls. cbn [h0 Main.calls]. now rewrite <- app_assoc.
    + exists h'. split.
      * unfold mbind at 1, Main.H_bind at 1.
        rewrite when_state_ne by (rewrite Hst'; discriminate).
        unfold mbind at 1, Main.H_bind at 1.
        rewrite when_state_ne by (rewrite Hst'; discriminate).
        reflexivity.
      * split; [exact Hok' |]. split; [exact Hst' |]. split; [exact Hm |].
        split; [exact Harr |]. split; [easy |].
        eexists. split; [| split; [reflexivity | exact Hcol]].
        rewrite Hcalls. cbn [h0 Main.calls]. now rewrite <- app_assoc.
  - (* options screen *)
    destruct (update_square_screen_ok h0 c l items s pressed scr
                "Options screen" options_colour Hok0)
      as (h' & q & p & Hrun & Hok' & Hst' & Hm & Hsq & Himg & Hp & Hcol
          & Harr & Hcalls).
    cbn [h0 Main.state Main.square Main.world Main.mainMenu] in Hst', Himg, Hm,
      Harr, Hp, Hcol.
    unfold mbind at 1, Main.H_bind at 1.
    rewrite when_state_ne by (cbn; discriminate).
    unfold mbind at 1, Main.H_bind at 1.
    rewrite when_state_ne by (cbn; discriminate).
    unfold mbind at 1, Main.H_bind at 1.
    rewrite (when_state_eq _ _ h0 eq_refl).
    unfold Main.update_options. unfold options_colour in Hrun. rewrite Hrun.
    assert (Hcalls' : ∃ es,
      Main.calls h'
      = Main.calls h ++ Main.HvFill (Some scr) clear_colour :: es
      ∧ ∃ es', es = Main.HvDebugPrint (Some scr) "Options screen" :: es'
               ∧ square_calls h h' scr options_colour es').
    { eexists. split; [rewrite Hcalls; cbn [h0 Main.calls];
                       now rewrite <- app_assoc |].
      eexists. split; [reflexivity |]. exists p. rewrite Hsq. easy. }
    destruct (pressed Main.KeyEscape); cbn [block_outcome].
    + exists (host_with_state Main.titleScreen h'). split; [reflexivity |].
      split; [now apply host_ok_with_state |]. split; [reflexivity |].
      split; [exact Hm |]. split; [exact Harr |]. split; [eauto |].
      exact Hcalls'.
    + exists h'. split; [reflexivity |]. split; [exact Hok' |].
      split; [now rewrite Hst' |]. split; [exact Hm |]. split; [exact Harr |].
      split; [eauto | exact Hcalls'].
  - (* play screen *)
    destruct (update_square_screen_ok h0 c l items s pressed scr
                "Play screen" play_colour Hok0)
      as (h' & q & p & Hrun & Hok' & Hst' & Hm & Hsq & Himg & Hp & Hcol
          & Harr & Hcalls).
    cbn [h0 Main.state Main.square Main.world Main.mainMenu] in Hst', Himg, Hm,
      Harr, Hp, Hcol.
    unfold mbind at 1, Main.H_bind at 1.
    rewrite when_state_ne by (cbn; discriminate).
    unfold mbind at 1, Main.H_bind at 1.
    rewrite (when_state_eq _ _ h0 eq_refl).
    unfold Main.update_play. unfold play_colour in Hrun. rewrite Hrun.
    assert (Hcalls' : ∃ es,
      Main.calls h'
      = Main.calls h ++ Main.HvFill (Some scr) clear_colour :: es
      ∧ ∃ es', es = Main.HvDebugPrint (Some scr) "Play screen" :: es'
               ∧ square_calls h h' scr play_colour es').
    { eexists. split; [rewrite Hcalls; cbn [h0 Main.calls];
                       now rewrite <- app_assoc |].
      eexists. split; [reflexivity |]. exists p. rewrite Hsq. easy. }
    destruct (pressed Main.KeyEscape); cbn [block_outcome].
    + exists (host_with_state Main.titleScreen h'). split; [reflexivity |].
      split; [now apply host_ok_with_state |]. split; [reflexivity |].
      split; [exact Hm |]. split; [exact Harr |]. split; [eauto |].
      exact Hcalls'.
    + exists h'. split.
      * unfold mbind at 1, Main.H_bind at 1.
        rewrite when_state_ne by (rewrite Hst'; discriminate).
        reflexivity.
      * split; [exact Hok' |]. split; [now rewrite Hst' |].
        split; [exact Hm |]. split; [exact Harr |].
        split; [eauto | exact Hcalls'].
  - (* the quit state: nothing but the clear *)
    exists h0. split.
    + unfold mbind at 1, Main.H_bind at 1.
      rewrite when_state_ne by (cbn; discriminate).
      unfold mbind at 1, Main.H_bind at 1.
      rewrite when_state_ne by (cbn; discriminate).
      unfold mbind at 1, Main.H_bind at 1.
      rewrite when_state_ne by (cbn; discriminate).
      reflexivity.
    + split; [exact Hok0 |]. split; [reflexivity |]. split; [reflexivity |].
      split; [reflexivity |]. split; [easy |].
      exists []. easy.
Qed.

Lemma square_step_run h h' : square_step h h' → square_run h h'.
Proof.
  unfold square_step, square_run.
  destruct (Main.state h), (Main.square h) as [q0|];
    try (intros [-> ->]; now (try left));
    intros (q & Hq & Hrest).
  - destruct Hrest as [-> Himg]. easy.
  - right. exists q. easy.
  - destruct Hrest as [-> Himg]. easy.
  - right. exists q. easy.
Qed.

Lemma square_run_trans h1 h2 h3 :
  square_run h1 h2 → square_run h2 h3 → square_run h1 h3.
Proof.
  unfold square_run. destruct (Main.square h1) as [q1|].
  - intros [-> ->]. easy.
  - intros [[-> ->]|(q & -> & Hnew & ->)]; [easy |].
    intros [-> ->]. right. exists q. easy.
Qed.

Lemma square_run_refl h : square_run h h.
Proof. unfold square_run. destruct (Main.square h); [easy | now left]. Qed.

(** A run of frames from a host whose menu is ready follows [screens]; it
    does not panic and no frame returns an error. *)
Lemma frames_ok inputs h c l items s scr :
  host_ok h c l items s →
  let n := len (MenuList.MenuItems (Main.mainMenu h)) in
  let r := screens n items (Main.state h) s inputs in
  ∃ h',
    Main.frames (Some scr) inputs h = run_outcome (fst r) h'
    ∧ host_ok h' c l items (snd r)
    ∧ Main.state h'
      = match fst r with
        | Continue st => st
        | Exit _ => Main.titleScreen
        end
    ∧ Main.mainMenu h' = Main.mainMenu h
    ∧ arrays (Main.world h') = arrays (Main.world h)
    ∧ square_run h h'.
Proof.
  revert h s. induction inputs as [|pressed inputs IH]; intros h s Hok n r.
  - exists h. subst r. cbn. split; [reflexivity |]. split; [exact Hok |].
    split; [reflexivity |]. split; [reflexivity |]. split; [reflexivity |].
    apply square_run_refl.
  - destruct (update_ok h c l items s pressed scr Hok)
      as (h1 & Hrun & Hok1 & Hst1 & Hm1 & Harr1 & Hsq1 & _).
    fold n in Hrun, Hok1, Hst1. subst r. cbn [screens Main.frames].
    fold n.
    destruct (frame_verdict (Main.state h)
                (name_at items (frame_cursor (Main.state h) n s pressed))
                pressed) as [st1|code] eqn:Hv.
    + rewrite (hbind_Done _ _ _ _ _ Hrun).
      destruct (IH h1 _ Hok1) as (h' & Hrun' & Hok' & Hst' & Hm' & Harr' & Hsq').
      rewrite Hm1, Hst1 in Hrun', Hok', Hst'. fold n in Hrun', Hok', Hst'.
      exists h'. split; [exact Hrun' |]. split; [exact Hok' |].
      split; [exact Hst' |]. split; [congruence |]. split; [congruence |].
      eapply square_run_trans; [apply square_step_run |]; eassumption.
    + exists h1. cbn [fst snd run_outcome]. split.
      * unfold mbind, Main.H_bind. now rewrite Hrun.
      * split; [exact Hok1 |]. split.
        -- rewrite Hst1. revert Hv. unfold frame_verdict.
           destruct (Main.state h); try reflexivity;
             destruct (pressed Main.KeyEscape); discriminate.
        -- split; [exact Hm1 |]. split; [exact Harr1 |].
           now apply square_step_run.
Qed.

(* ================================================================== *)
(** ** The host program on a built menu *)

(** A host that holds a list as [NewMenu] built it is a host whose menu
    is ready, the cursor at 0; its items carry the names of the input. *)
Lemma built_host_ok input w0 ml w h :
  slice_ok w0 (MenuListInput.MenuItems input) = true →
  NewMenu input w0 = Ok (ml, None) w →
  Main.world h = w → Main.mainMenu h = ml →
  ∃ c l items,
    host_ok h c l items 0
    ∧ len (MenuList.MenuItems ml) = len (MenuListInput.MenuItems input)
    ∧ ∀ s, 0 <= s <= len (MenuList.MenuItems ml) - 1 →
        name_at items s
        = name_at (slice_items w0 (MenuListInput.MenuItems input)) s.
Proof.
  intros Hok Hrun <- <-.
  destruct (NewMenu_success input w0 _ _ Hok Hrun) as ((_ & _ & HL) & Hb).
  destruct (built_ready input w0 _ _ Hok HL Hb) as (c & l & items & Hr & Hs).
  exists c, l, items. split; [| split].
  - split; [exact Hr |]. split; [exact Hs |].
    destruct (ready_len _ _ _ _ _ Hr). lia.
  - now rewrite (built_MenuItems _ _ _ _ Hb).
  - intros s Hsr. unfold name_at.
    destruct (slice_ok_inv _ _ Hok) as [_ [H0|(l0 & items0 & Hd0 & Ha0 & Hn0)]].
    { unfold len in HL. lia. }
    rewrite (built_MenuItems _ _ _ _ Hb) in Hsr.
    destruct (lookup_lt_is_Some_2 items0 (Z.to_nat s)) as [x Hx];
      [unfold len in Hsr; lia |].
    assert (Hx0 : slice_items w0 (MenuListInput.MenuItems input)
                  !! Z.to_nat s = Some x).
    { apply (slice_items_lookup w0 _ l0 items0 _ x Hd0 Ha0).
      split; [unfold len in Hsr; lia | exact Hx]. }
    destruct (built_slice_items input w0 _ _ _ x Hok Hrun Hx0) as [img Hy].
    apply (slice_items_lookup _ _ l items _ _
             (ready_data _ _ _ _ _ Hr) (ready_array _ _ _ _ _ Hr)) in Hy
      as [_ Hy].
    now rewrite Hy, Hx0.
Qed.

Lemma frame_cursor_range st n s pressed :
  0 <= s <= n - 1 → 0 <= frame_cursor st n s pressed <= n - 1.
Proof.
  intros Hs. destruct st; cbn [frame_cursor]; try exact Hs.
  unfold title_cursor.
  destruct (pressed Main.KeyUp), (pressed Main.KeyDown);
    auto using clamp_step_range.
Qed.

(** [screens] reads the items only for the names at the indices of the
    list. *)
Lemma screens_ext n items1 items2 inputs st s :
  (∀ s, 0 <= s <= n - 1 → name_at items1 s = name_at items2 s) →
  0 <= s <= n - 1 →
  screens n items1 st s inputs = screens n items2 st s inputs.
Proof.
  intros Hnames. revert st s.
  induction inputs as [|pressed inputs IH]; intros st s Hs; [reflexivity |].
  cbn [screens].
  pose proof (frame_cursor_range st n s pressed Hs) as Hs'.
  rewrite (Hnames _ Hs').
  destruct (frame_verdict st _ pressed); [now apply IH | reflexivity].
Qed.

Lemma frame_verdict_exit st name pressed code :
  frame_verdict st name pressed = Exit code →
  code = 0 ∧ st = Main.titleScreen ∧ pressed Main.KeyEnter = true
  ∧ name = "quitButton".
Proof.
  unfold frame_verdict.
  destruct st; try (destruct (pressed Main.KeyEscape); discriminate);
    try discriminate.
  destruct (pressed Main.KeyEnter); [| discriminate].
  unfold enter.
  destruct (String.eqb name "playButton"); [discriminate |].
  destruct (String.eqb name "optionButton"); [discriminate |].
  destruct (String.eqb_spec name "quitButton"); [| discriminate].
  now intros [= <-].
Qed.

Lemma frame_verdict_not_quit st name pressed st' :
  st ≠ Main.quit → frame_verdict st name pressed = Continue st' →
  st' ≠ Main.quit.
Proof.
  unfold frame_verdict, enter.
  destruct st; intros Hst; try easy;
    repeat case_match; intros [= <-]; discriminate.
Qed.

Lemma screens_exit n items inputs st s code :
  fst (screens n items st s inputs) = Exit code → code = 0.
Proof.
  revert st s. induction inputs as [|pressed inputs IH]; intros st s;
    [discriminate |].
  cbn [screens].
  destruct (frame_verdict st _ pressed) eqn:Hv; [apply IH |].
  cbn. intros [= <-]. now apply frame_verdict_exit in Hv.
Qed.

Lemma screens_not_quit n items inputs st s st' :
  st ≠ Main.quit → fst (screens n items st s inputs) = Continue st' →
  st' ≠ Main.quit.
Proof.
  revert st s. induction inputs as [|pressed inputs IH]; intros st s Hst.
  - cbn. now intros [= <-].
  - cbn [screens].
    destruct (frame_verdict st _ pressed) eqn:Hv; [| discriminate].
    apply IH. eapply frame_verdict_not_quit; eassumption.
Qed.

Lemma host_ok_selected h c l items s :
  host_ok h c l items s →
  selected (Main.world h) (Main.mainMenu h) = Some s.
Proof.
  intros (Hr & Hs & _). unfold selected.
  now rewrite (ready_cursor _ _ _ _ _ Hr).
Qed.

(** X5: a run of the program on a menu that [NewMenu] built.  Whatever
    the keys of each frame, no frame panics and none returns an error to
    the engine: the run goes through all its frames or ends in
    [os.Exit(0)].  The screen and the cursor it ends with are those of
    the machine [screens] run on the names of the input items: on the
    title screen up is handled before down, both clamp at the ends, and
    enter on the item then selected goes to the play screen
    ("playButton"), to the options screen ("optionButton"), exits with
    code 0 ("quitButton") or stays; on the play and the options screen
    only escape is read and leads back to the title screen.  The state
    [quit] is never entered.  The menu and the items array are what
    [NewMenu] left. *)
Theorem frames_follow_screens (input : MenuListInput.t) (w0 w : World)
  (ml : MenuList.t) (h : Main.Host) (scr : loc)
  (inputs : list Main.Input) :
  slice_ok w0 (MenuListInput.MenuItems input) = true →
  NewMenu input w0 = Ok (ml, None) w →
  Main.world h = w → Main.mainMenu h = ml →
  let r := screens (len (MenuListInput.MenuItems input))
             (slice_items w0 (MenuListInput.MenuItems input))
             (Main.state h) 0 inputs in
  ∃ h',
    Main.frames (Some scr) inputs h = run_outcome (fst r) h'
    ∧ (∀ code, fst r = Exit code → code = 0)
    ∧ Main.state h'
      = match fst r with
        | Continue st => st
        | Exit _ => Main.titleScreen
        end
    ∧ (Main.state h ≠ Main.quit → Main.state h' ≠ Main.quit)
    ∧ selected (Main.world h') ml = Some (snd r)
    ∧ 0 <= snd r <= len (MenuListInput.MenuItems input) - 1
    ∧ Main.mainMenu h' = ml
    ∧ arrays (Main.world h') = arrays w.
Proof.
  intros Hok Hrun Hw Hm r.
  destruct (built_host_ok input w0 ml w h Hok Hrun Hw Hm)
    as (c & l & items & Hh & Hlen & Hnames).
  destruct (frames_ok inputs h c l items 0 scr Hh)
    as (h' & Hfr & Hh' & Hst & Hm' & Harr & _).
  rewrite Hm, Hlen in Hfr, Hh', Hst.
  assert (Hscr : screens (len (MenuListInput.MenuItems input)) items
                   (Main.state h) 0 inputs = r).
  { apply screens_ext; [now rewrite <- Hlen |].
    destruct Hh as (Hr & _). destruct (ready_len _ _ _ _ _ Hr) as [H1 _].
    rewrite Hm, Hlen in H1. lia. }
  rewrite Hscr in Hfr, Hh', Hst.
  exists h'. split; [exact Hfr |].
  split; [intros code; apply screens_exit |].
  split; [exact Hst |].
  split.
  { intros Hq. rewrite Hst. destruct (fst r) as [st|code] eqn:Hv;
      [| discriminate].
    exact (screens_not_quit _ _ inputs (Main.state h) 0 st Hq Hv). }
  split; [rewrite <- Hm, <- Hm'; eapply host_ok_selected; exact Hh' |].
  split; [destruct Hh' as (_ & _ & Hrg); rewrite Hm', Hm, Hlen in Hrg;
          exact Hrg |].
  split; [congruence | congruence].
Qed.

(** The run of [main]'s own menu that ends in the exit: two frames with
    the down key, then enter. *)
Lemma host_exit_run :
  ∃ ml w h',
    NewMenu newMenuInput host_world = Ok (ml, None) w
    ∧ Main.frames (Some 1%positive)
        [press [Main.KeyDown]; press [Main.KeyDown]; press [Main.KeyEnter]]
        (Main.mkHost w Main.titleScreen None ml [])
      = Main.Exited 0 h'.
Proof.
  eexists _, _, _. split; [vm_compute; reflexivity |].
  vm_compute. reflexivity.
Qed.

Lemma frames_follow_screens_witness :
  ∃ ml w h',
    NewMenu newMenuInput host_world = Ok (ml, None) w
    ∧ Main.frames (Some 1%positive)
        [press [Main.KeyDown]; press [Main.KeyDown]; press [Main.KeyEnter]]
        (Main.mkHost w Main.titleScreen None ml [])
      = Main.Exited 0 h'
    ∧ selected (Main.world h') ml = Some 2.
Proof.
  destruct host_menu_built as (ml & w & Hrun).
  destruct (frames_follow_screens newMenuInput host_world w ml
              (Main.mkHost w Main.titleScreen None ml []) 1%positive
              [press [Main.KeyDown]; press [Main.KeyDown];
               press [Main.KeyEnter]]
              eq_refl Hrun eq_refl eq_refl)
    as (h' & Hfr & _ & _ & _ & Hsel & _).
  exists ml, w, h'. split; [exact Hrun |]. split; [exact Hfr | exact Hsel].
Defined.

(** The hosts a run reaches from a built menu: the menu is still ready,
    the items array is the one [NewMenu] left. *)
Lemma frames_reach input w0 ml w h scr pre h1 :
  slice_ok w0 (MenuListInput.MenuItems input) = true →
  NewMenu input w0 = Ok (ml, None) w →
  Main.world h = w → Main.mainMenu h = ml →
  Main.frames (Some scr) pre h = Main.Done None h1 →
  ∃ c l items s,
    host_ok h1 c l items s
    ∧ Main.mainMenu h1 = ml
    ∧ arrays (Main.world h1) = arrays w
    ∧ arrays w !! l = Some items
    ∧ len (MenuList.MenuItems ml) = len (MenuListInput.MenuItems input)
    ∧ ∀ s, 0 <= s <= len (MenuList.MenuItems ml) - 1 →
        name_at items s
        = name_at (slice_items w0 (MenuListInput.MenuItems input)) s.
Proof.
  intros Hok Hrun Hw Hm Hpre.
  destruct (built_host_ok input w0 ml w h Hok Hrun Hw Hm)
    as (c & l & items & Hh & Hlen & Hnames).
  destruct (frames_ok pre h c l items 0 scr Hh)
    as (h' & Hfr & Hh' & _ & Hm' & Harr & _).
  rewrite Hpre in Hfr.
  destruct (fst (screens _ items (Main.state h) 0 pre)); [| discriminate].
  cbn in Hfr. injection Hfr as <-.
  exists c, l, items, (snd (screens (len (MenuList.MenuItems (Main.mainMenu h)))
                         items (Main.state h) 0 pre)).
  split; [exact Hh' |]. split; [congruence |]. split; [congruence |].
  split; [| easy].
  destruct Hh as (Hr & _). rewrite <- Hw. apply (ready_array _ _ _ _ _ Hr).
Qed.

Lemma frames_exit inputs h c l items s scr code h' :
  host_ok h c l items s →
  Main.frames (Some scr) inputs h = Main.Exited code h' →
  code = 0
  ∧ Main.state h' = Main.titleScreen
  ∧ Main.mainMenu h' = Main.mainMenu h
  ∧ (∃ s', host_ok h' c l items s' ∧ name_at items s' = "quitButton")
  ∧ ∃ k pressed h1,
      inputs !! k = Some pressed
      ∧ pressed Main.KeyEnter = true
      ∧ Main.frames (Some scr) (take k inputs) h = Main.Done None h1
      ∧ Main.state h1 = Main.titleScreen
      ∧ Main.update pressed (Some scr) h1 = Main.Exited code h'.
Proof.
  revert h s. induction inputs as [|pressed inputs IH]; intros h s Hh Hfr;
    [discriminate |].
  destruct (update_ok h c l items s pressed scr Hh)
    as (h1 & Hrun & Hh1 & Hst1 & Hm1 & _).
  cbn [Main.frames] in Hfr. unfold mbind, Main.H_bind in Hfr.
  rewrite Hrun in Hfr.
  destruct (frame_verdict (Main.state h) _ pressed) as [st1|code1] eqn:Hv.
  - destruct (IH h1 _ Hh1 Hfr)
      as (-> & Hst & Hm & Hq & k & p & h2 & Hk & Hp & Hpre & Hst2 & Hup).
    split; [reflexivity |]. split; [exact Hst |]. split; [congruence |].
    split; [exact Hq |]. exists (S k), p, h2.
    split; [exact Hk |]. split; [exact Hp |].
    split; [| split; [exact Hst2 | exact Hup]].
    cbn [take Main.frames]. unfold mbind, Main.H_bind. rewrite Hrun.
    exact Hpre.
  - injection Hfr as <- <-.
    apply frame_verdict_exit in Hv as (-> & Hst & Hp & Hname).
    split; [reflexivity |]. split; [congruence |]. split; [exact Hm1 |].
    split; [eauto |]. exists 0%nat, pressed, h.
    split; [reflexivity |]. split; [exact Hp |].
    split; [reflexivity |]. split; [exact Hst | exact Hrun].
Qed.

Lemma host_ok_GetSelectedItem h c l items s :
  host_ok h c l items s →
  GetSelectedItem (Main.mainMenu h) (Main.world h)
  = Ok (name_at items s) (Main.world h).
Proof.
  intros (Hr & Hs & Hrg).
  destruct (lookup_lt_is_Some_2 items (Z.to_nat s)) as [it Hit].
  { pose proof (ready_cap _ _ _ _ _ Hr). unfold len in Hrg. lia. }
  unfold name_at. rewrite Hit. cbn.
  apply (GetSelectedItem_ok _ _ c s l items it
           (ready_cursor _ _ _ _ _ Hr) Hs (ready_data _ _ _ _ _ Hr)
           (ready_array _ _ _ _ _ Hr) ltac:(lia) Hit).
Qed.

(** X6: the only way out of the program.  A run on a built menu that
    ends the process ends it with exit code 0, and there is a frame [k]
    of the run that is the exit frame: the frames before it ran through
    without error, frame [k] started on the title screen, enter was
    pressed in it, and [update] in that frame is what exits, with the
    host [h'] the run ends in.  At the exit the cursor is on an item
    named "quitButton": [GetSelectedItem] on the world of the exit says
    so. *)
Theorem exit_only_by_quit_button (input : MenuListInput.t) (w0 w : World)
  (ml : MenuList.t) (h : Main.Host) (scr : loc)
  (inputs : list Main.Input) (code : Z) (h' : Main.Host) :
  slice_ok w0 (MenuListInput.MenuItems input) = true →
  NewMenu input w0 = Ok (ml, None) w →
  Main.world h = w → Main.mainMenu h = ml →
  Main.frames (Some scr) inputs h = Main.Exited code h' →
  code = 0
  ∧ Main.state h' = Main.titleScreen
  ∧ GetSelectedItem ml (Main.world h') = Ok "quitButton" (Main.world h')
  ∧ ∃ k pressed h1,
      inputs !! k = Some pressed
      ∧ pressed Main.KeyEnter = true
      ∧ Main.frames (Some scr) (take k inputs) h = Main.Done None h1
      ∧ Main.state h1 = Main.titleScreen
      ∧ Main.update pressed (Some scr) h1 = Main.Exited 0 h'.
Proof.
  intros Hok Hrun Hw Hm Hfr.
  destruct (built_host_ok input w0 ml w h Hok Hrun Hw Hm)
    as (c & l & items & Hh & _).
  destruct (frames_exit inputs h c l items 0 scr code h' Hh Hfr)
    as (Hc & Hst & Hm' & (s' & Hh' & Hname) & Hk).
  split; [exact Hc |]. split; [exact Hst |].
  split; [| rewrite <- Hc; exact Hk].
  rewrite <- Hm, <- Hm', <- Hname.
  exact (host_ok_GetSelectedItem h' c l items s' Hh').
Qed.

Lemma exit_only_by_quit_button_witness :
  ∃ ml w h',
    NewMenu newMenuInput host_world = Ok (ml, None) w
    ∧ Main.frames (Some 1%positive)
        [press [Main.KeyDown]; press [Main.KeyDown]; press [Main.KeyEnter]]
        (Main.mkHost w Main.titleScreen None ml [])
      = Main.Exited 0 h'
    ∧ GetSelectedItem ml (Main.world h') = Ok "quitButton" (Main.world h').
Proof.
  destruct host_exit_run as (ml & w & h' & Hrun & Hfr).
  destruct (exit_only_by_quit_button newMenuInput host_world w ml
              (Main.mkHost w Main.titleScreen None ml []) 1%positive
              _ 0 h' eq_refl Hrun eq_refl eq_refl Hfr)
    as (_ & _ & Hget & _).
  exists ml, w, h'. split; [exact Hrun |]. split; [exact Hfr | exact Hget].
Defined.

Lemma screens_square n items inputs st s :
  st = Main.play ∨ st = Main.options →
  Forall (λ pressed : Main.Input, pressed Main.KeyEscape = false) inputs →
  screens n items st s inputs = (Continue st, s).
Proof.
  intros Hst Hin. induction Hin as [|pressed inputs Hp _ IH];
    [reflexivity |].
  cbn [screens]. destruct Hst as [-> | ->]; cbn; rewrite Hp; exact IH.
Qed.

(** X7: the play and the options screen read no key but escape, and the
    menu keeps its selection while they are shown.  From any host a run
    on a built menu has reached on one of these two screens, frames in
    which escape is not pressed (whatever else is: up, down, enter) run
    without panic or error, stay on that screen and leave the cursor
    where it was; a frame with escape then returns to the title screen
    with the cursor still there. *)
Theorem square_screens_keep_selection (input : MenuListInput.t)
  (w0 w : World) (ml : MenuList.t) (h : Main.Host) (scr : loc)
  (pre : list Main.Input) (h1 : Main.Host) (inputs : list Main.Input) :
  slice_ok w0 (MenuListInput.MenuItems input) = true →
  NewMenu input w0 = Ok (ml, None) w →
  Main.world h = w → Main.mainMenu h = ml →
  Main.frames (Some scr) pre h = Main.Done None h1 →
  Main.state h1 = Main.play ∨ Main.state h1 = Main.options →
  Forall (λ pressed : Main.Input, pressed Main.KeyEscape = false) inputs →
  ∃ h2,
    Main.frames (Some scr) inputs h1 = Main.Done None h2
    ∧ Main.state h2 = Main.state h1
    ∧ selected (Main.world h2) ml = selected (Main.world h1) ml
    ∧ ∀ pressed, pressed Main.KeyEscape = true →
        ∃ h3, Main.update pressed (Some scr) h2 = Main.Done None h3
              ∧ Main.state h3 = Main.titleScreen
              ∧ selected (Main.world h3) ml
                = selected (Main.world h1) ml.
Proof.
  intros Hok Hrun Hw Hm Hpre Hst Hin.
  destruct (frames_reach input w0 ml w h scr pre h1 Hok Hrun Hw Hm Hpre)
    as (c & l & items & s & Hh1 & Hm1 & _).
  destruct (frames_ok inputs h1 c l items s scr Hh1)
    as (h2 & Hfr & Hh2 & Hst2 & Hm2 & _).
  rewrite (screens_square _ items inputs (Main.state h1) s Hst Hin)
    in Hfr, Hh2, Hst2.
  cbn in Hfr, Hh2, Hst2.
  exists h2. split; [exact Hfr |]. split; [exact Hst2 |].
  pose proof (host_ok_selected _ _ _ _ _ Hh1) as Hs1.
  pose proof (host_ok_selected _ _ _ _ _ Hh2) as Hs2.
  rewrite Hm2, Hm1 in Hs2. rewrite Hm1 in Hs1.
  split; [congruence |].
  intros pressed Hp.
  destruct (update_ok h2 c l items s pressed scr Hh2)
    as (h3 & Hup & Hh3 & Hst3 & Hm3 & _).
  rewrite Hst2 in Hup, Hh3, Hst3.
  assert (Hv : ∀ name, frame_verdict (Main.state h1) name pressed
                       = Continue Main.titleScreen).
  { intros name. destruct Hst as [-> | ->]; cbn; now rewrite Hp. }
  assert (Hc : ∀ n, frame_cursor (Main.state h1) n s pressed = s).
  { intros n. now destruct Hst as [-> | ->]. }
  rewrite Hv in Hup, Hst3. rewrite Hc in Hh3.
  exists h3. split; [exact Hup |]. split; [exact Hst3 |].
  pose proof (host_ok_selected _ _ _ _ _ Hh3) as Hs3.
  rewrite Hm3, Hm2, Hm1 in Hs3. congruence.
Qed.

(** The run of [main]'s own menu that enters the play screen: one frame
    with enter, the cursor on the first item. *)
Lemma host_play_run :
  ∃ ml w h1,
    NewMenu newMenuInput host_world = Ok (ml, None) w
    ∧ Main.frames (Some 1%positive) [press [Main.KeyEnter]]
        (Main.mkHost w Main.titleScreen None ml [])
      = Main.Done None h1
    ∧ Main.state h1 = Main.play.
Proof.
  eexists _, _, _. split; [vm_compute; reflexivity |].
  split; [vm_compute; reflexivity | reflexivity].
Qed.

Lemma square_screens_keep_selection_witness :
  ∃ ml w h1 h2,
    NewMenu newMenuInput host_world = Ok (ml, None) w
    ∧ Main.frames (Some 1%positive) [press [Main.KeyEnter]]
        (Main.mkHost w Main.titleScreen None ml [])
      = Main.Done None h1
    ∧ Main.frames (Some 1%positive)
        [press [Main.KeyDown; Main.KeyEnter]; press [Main.KeyUp]] h1
      = Main.Done None h2
    ∧ Main.state h2 = Main.state h1
    ∧ selected (Main.world h2) ml = selected (Main.world h1) ml.
Proof.
  destruct host_play_run as (ml & w & h1 & Hrun & Hpre & Hst).
  destruct (square_screens_keep_selection newMenuInput host_world w ml
              (Main.mkHost w Main.titleScreen None ml []) 1%positive
              [press [Main.KeyEnter]] h1
              [press [Main.KeyDown; Main.KeyEnter]; press [Main.KeyUp]]
              eq_refl Hrun eq_refl eq_refl Hpre (or_introl Hst)
              ltac:(repeat constructor))
    as (h2 & Hfr & Hst2 & Hsel & _).
  exists ml, w, h1, h2. split; [exact Hrun |]. split; [exact Hpre |].
  split; [exact Hfr |]. split; [exact Hst2 | exact Hsel].
Defined.

(** X8: the square is made once.  Over a run on a built menu, from a
    host with any square, the square that is there is never replaced and
    no image is added to the heap; when there is none, the run adds at
    most one image, 32 by 32 with the nearest filter, not an image that
    existed, and that image is the square.  So the images of the menu
    items are never overwritten.  The run itself goes through all its
    frames or ends in exit code 0. *)
Theorem square_allocated_once (input : MenuListInput.t) (w0 w : World)
  (ml : MenuList.t) (h : Main.Host) (scr : loc)
  (inputs : list Main.Input) :
  slice_ok w0 (MenuListInput.MenuItems input) = true →
  NewMenu input w0 = Ok (ml, None) w →
  Main.world h = w → Main.mainMenu h = ml →
  ∃ h',
    (Main.frames (Some scr) inputs h = Main.Done None h'
     ∨ Main.frames (Some scr) inputs h = Main.Exited 0 h')
    ∧ square_run h h'
    ∧ images w ⊆ images (Main.world h').
Proof.
  intros Hok Hrun Hw Hm.
  destruct (built_host_ok input w0 ml w h Hok Hrun Hw Hm)
    as (c & l & items & Hh & _).
  destruct (frames_ok inputs h c l items 0 scr Hh)
    as (h' & Hfr & _ & _ & _ & _ & Hsq).
  exists h'. split; [| split; [exact Hsq |]].
  - destruct (fst (screens _ items (Main.state h) 0 inputs)) as [st|code]
      eqn:Hv; [now left |].
    apply screens_exit in Hv as ->. now right.
  - rewrite <- Hw. revert Hsq. unfold square_run.
    destruct (Main.square h) as [q|].
    + now intros [_ ->].
    + intros [[_ ->]|(q & _ & Hnew & ->)]; [reflexivity |].
      now apply insert_subseteq.
Qed.

Lemma square_allocated_once_witness :
  ∃ ml w h',
    NewMenu newMenuInput host_world = Ok (ml, None) w
    ∧ (Main.frames (Some 1%positive)
         [press [Main.KeyEnter]; press []; press [Main.KeyEscape]]
         (Main.mkHost w Main.titleScreen None ml [])
       = Main.Done None h'
       ∨ Main.frames (Some 1%positive)
           [press [Main.KeyEnter]; press []; press [Main.KeyEscape]]
           (Main.mkHost w Main.titleScreen None ml [])
         = Main.Exited 0 h')
    ∧ square_run (Main.mkHost w Main.titleScreen None ml []) h'.
Proof.
  destruct host_menu_built as (ml & w & Hrun).
  destruct (square_allocated_once newMenuInput host_world w ml
              (Main.mkHost w Main.titleScreen None ml []) 1%positive
              [press [Main.KeyEnter]; press []; press [Main.KeyEscape]]
              eq_refl Hrun eq_refl eq_refl)
    as (h' & Hfr & Hsq & _).
  exists ml, w, h'. split; [exact Hrun |]. split; [exact Hfr | exact Hsq].
Defined.

(** X9: what one frame puts on the screen.  In any host a run on a built
    menu has reached, [update] first clears the screen with opaque black,
    then prints the name of the screen the frame started on.  On the
    title screen it then renders the menu with the cursor as it was when
    the frame started: the keys of a frame show in the next frame.  On
    the play and the options screen it fills the square with a new
    colour object, one that did not exist when the frame started and the
    only one the frame adds, holding (7f, ff, 00, ff), respectively
    (8a, 2b, e2, ff), and composites it at (64, 64); after such a frame
    there is a square.  A title-screen frame adds no colour object.
    Nothing else is drawn, and the frame returns nil or exits with
    code 0. *)
Theorem update_draws_frame (input : MenuListInput.t) (w0 w : World)
  (ml : MenuList.t) (h : Main.Host) (scr : loc)
  (pre : list Main.Input) (h1 : Main.Host) (pressed : Main.Input) :
  slice_ok w0 (MenuListInput.MenuItems input) = true →
  NewMenu input w0 = Ok (ml, None) w →
  Main.world h = w → Main.mainMenu h = ml →
  Main.frames (Some scr) pre h = Main.Done None h1 →
  ∃ h2 s l items,
    (Main.update pressed (Some scr) h1 = Main.Done None h2
     ∨ Main.update pressed (Some scr) h1 = Main.Exited 0 h2)
    ∧ selected (Main.world h1) ml = Some s
    ∧ s_data (MenuList.MenuItems ml) = Some l
    ∧ arrays w !! l = Some items
    ∧ frame_calls h1 h2 scr s items
    ∧ square_step h1 h2.
Proof.
  intros Hok Hrun Hw Hm Hpre.
  destruct (frames_reach input w0 ml w h scr pre h1 Hok Hrun Hw Hm Hpre)
    as (c & l & items & s & Hh1 & Hm1 & _ & Harr & _).
  destruct (update_ok h1 c l items s pressed scr Hh1)
    as (h2 & Hup & _ & _ & _ & _ & Hsq & Hcalls).
  exists h2, s, l, items. split; [| split; [| split; [| easy]]].
  - destruct (frame_verdict (Main.state h1) _ pressed) as [st|code] eqn:Hv;
      [now left |].
    apply frame_verdict_exit in Hv as (-> & _). now right.
  - rewrite <- Hm1. eapply host_ok_selected; exact Hh1.
  - destruct Hh1 as (Hr & _). rewrite <- Hm1.
    apply (ready_data _ _ _ _ _ Hr).
Qed.

Lemma update_draws_frame_witness :
  ∃ ml w h1 h2 s items,
    NewMenu newMenuInput host_world = Ok (ml, None) w
    ∧ Main.frames (Some 1%positive) [press [Main.KeyEnter]]
        (Main.mkHost w Main.titleScreen None ml [])
      = Main.Done None h1
    ∧ (Main.update (press []) (Some 1%positive) h1 = Main.Done None h2
       ∨ Main.update (press []) (Some 1%positive) h1 = Main.Exited 0 h2)
    ∧ frame_calls h1 h2 1%positive s items.
Proof.
  destruct host_play_run as (ml & w & h1 & Hrun & Hpre & Hst).
  destruct (update_draws_frame newMenuInput host_world w ml
              (Main.mkHost w Main.titleScreen None ml []) 1%positive
              [press [Main.KeyEnter]] h1 (press [])
              eq_refl Hrun eq_refl eq_refl Hpre)
    as (h2 & s & l & items & Hup & Hsel & _ & _ & Hcalls & _).
  exists ml, w, h1, h2, s, items. split; [exact Hrun |].
  split; [exact Hpre |]. split; [exact Hup |].
  exact Hcalls.
Defined.

(* ================================================================== *)
(** ** The list of a rejected input *)

(** An input [NewMenu] rejects comes back as the zero list, the world
    untouched. *)
Lemma NewMenu_rejected_zero input w ml e w' :
  NewMenu input w = Ok (ml, Some e) w' → ml = MenuList.zero ∧ w' = w.
Proof.
  intros Hrun.
  destruct (Z.eq_dec (MenuListInput.Width input) 0) as [HW|HW].
  { rewrite (proj1 (NewMenu_rejects input w) HW) in Hrun.
    now injection Hrun as <- _ <-. }
  destruct (Z.eq_dec (MenuListInput.Height input) 0) as [HH|HH].
  { rewrite (proj1 (proj2 (NewMenu_rejects input w)) HW HH) in Hrun.
    now injection Hrun as <- _ <-. }
  destruct (Z.eq_dec (len (MenuListInput.MenuItems input)) 0) as [HL|HL].
  { rewrite (proj2 (proj2 (NewMenu_rejects input w)) HW HH HL) in Hrun.
    now injection Hrun as <- _ <-. }
  pose proof (len_nonneg (MenuListInput.MenuItems input)).
  apply NewMenu_error_is_validation in Hrun; [discriminate | easy.. | lia].
Qed.

(** X10: the list that comes with an error must not be used.  For every
    input [NewMenu] rejects, [Draw] on the returned list makes no engine
    call and changes nothing, whatever the screen, while
    [IncrementSelected], [DecrementSelected] and [GetSelectedItem] on it
    panic with a nil dereference. *)
Theorem rejected_list_unusable (input : MenuListInput.t) (w0 w : World)
  (ml : MenuList.t) (e : string) (screen : ptr) :
  NewMenu input w0 = Ok (ml, Some e) w →
  Draw ml screen w = Ok tt w
  ∧ IncrementSelected ml w = Panicked NilDereference
  ∧ DecrementSelected ml w = Panicked NilDereference
  ∧ GetSelectedItem ml w = Panicked NilDereference.
Proof.
  intros Hrun. apply NewMenu_rejected_zero in Hrun as [-> ->]. easy.
Qed.

Lemma rejected_list_unusable_witness :
  NewMenu input_without_items host_world
  = Ok (MenuList.zero, Some items_missing) host_world
  ∧ Draw MenuList.zero (Some 1%positive) host_world = Ok tt host_world
  ∧ IncrementSelected MenuList.zero host_world = Panicked NilDereference.
Proof.
  assert (H : NewMenu input_without_items host_world
              = Ok (MenuList.zero, Some items_missing) host_world)
    by reflexivity.
  split; [exact H |].
  destruct (rejected_list_unusable input_without_items host_world host_world
              MenuList.zero items_missing (Some 1%positive) H)
    as (Hd & Hi & _).
  split; [exact Hd | exact Hi].
Defined.

(** X11: [update] on a menu that was not built.  On a host whose menu
    is the list [NewMenu] returned together with an error, a title-screen
    frame without up, down or enter still runs: it clears the screen and
    prints the screen name, the menu draws nothing, and heap, state and
    square are as before; a frame with one of these keys panics with a
    nil dereference. *)
Theorem update_without_menu (input : MenuListInput.t) (w0 w : World)
  (ml : MenuList.t) (e : string) (h : Main.Host) (scr : loc)
  (pressed : Main.Input) :
  NewMenu input w0 = Ok (ml, Some e) w →
  Main.world h = w → Main.mainMenu h = ml →
  Main.state h = Main.titleScreen →
  Main.update pressed (Some scr) h
  = if pressed Main.KeyUp || pressed Main.KeyDown || pressed Main.KeyEnter
    then Main.Crashed NilDereference
    else Main.Done None
           (Main.mkHost (Main.world h) Main.titleScreen (Main.square h)
              (Main.mainMenu h)
              (Main.calls h
               ++ [Main.HvFill (Some scr) clear_colour;
                   Main.HvDebugPrint (Some scr) "Title screen"])).
Proof.
  intros Hrun Hw Hm Hst. apply NewMenu_rejected_zero in Hrun as [-> _].
  destruct h as [hw st sq m cs]. cbn in Hw, Hm, Hst. subst hw m st.
  cbn [Main.world Main.square Main.mainMenu Main.calls].
  set (h1 := Main.mkHost w Main.titleScreen sq MenuList.zero
               (cs ++ [Main.HvFill (Some scr) clear_colour])).
  set (h2 := Main.mkHost w Main.titleScreen sq MenuList.zero
               ((cs ++ [Main.HvFill (Some scr) clear_colour])
                ++ [Main.HvDebugPrint (Some scr) "Title screen"])).
  assert (HD : Main.lift (Draw MenuList.zero (Some scr)) h2
               = Main.Done tt h2)
    by (apply (lift_quiet _ h2 tt w); reflexivity).
  assert (Hb : Main.update_titleScreen pressed (Some scr) h1
               = if pressed Main.KeyUp || pressed Main.KeyDown
                    || pressed Main.KeyEnter
                 then Main.Crashed NilDereference
                 else Main.Done None h2).
  { unfold Main.update_titleScreen, Main.IsKeyJustPressed.
    rewrite (hbind_Done
               (Main.ebitenutil_DebugPrint (Some scr) "Title screen") _
               h1 None h2 eq_refl). cbv beta.
    rewrite (hbind_Done Main.get_mainMenu _ h2 MenuList.zero h2 eq_refl).
    cbv beta.
    rewrite (hbind_Done _ _ h2 tt h2 HD). cbv beta.
    destruct (pressed Main.KeyUp); [reflexivity |].
    rewrite (hbind_Done (mret tt) _ h2 tt h2 eq_refl). cbv beta.
    destruct (pressed Main.KeyDown); [reflexivity |].
    rewrite (hbind_Done (mret tt) _ h2 tt h2 eq_refl). cbv beta.
    destruct (pressed Main.KeyEnter); reflexivity. }
  unfold Main.update.
  rewrite (hbind_Done
             (Main.Image_Fill_value (Some scr)
                (mkNRGBA Byte.x00 Byte.x00 Byte.x00 Byte.xff)) _
             (Main.mkHost w Main.titleScreen sq MenuList.zero cs)
             None h1 eq_refl). cbv beta.
  unfold mbind, Main.H_bind.
  rewrite (when_state_eq _ _ h1 eq_refl), Hb.
  destruct (pressed Main.KeyUp || pressed Main.KeyDown
            || pressed Main.KeyEnter); [reflexivity |].
  rewrite !when_state_ne by discriminate.
  subst h2. now rewrite <- app_assoc.
Qed.

Lemma update_without_menu_witness :
  NewMenu input_without_items host_world
  = Ok (MenuList.zero, Some items_missing) host_world
  ∧ Main.update (press [Main.KeyDown]) (Some 1%positive) Main.boot
    = Main.Crashed NilDereference.
Proof.
  assert (H : NewMenu input_without_items host_world
              = Ok (MenuList.zero, Some items_missing) host_world)
    by reflexivity.
  split; [exact H |].
  exact (update_without_menu input_without_items host_world host_world
           MenuList.zero items_missing Main.boot 1%positive
           (press [Main.KeyDown]) H eq_refl eq_refl eq_refl).
Defined.

(* ================================================================== *)
(** ** Navigation, once more *)

Lemma set_cursor_twice c s s' w :
  set_cursor c s (set_cursor c s' w) = set_cursor c s w.
Proof.
  unfold set_cursor, with_ints. cbn. now rewrite insert_insert_eq.
Qed.

(** Two navigation calls in a row. *)
Lemma navigate_twice m w c l items s k1 k2 :
  ready w m c l items → ints w !! c = Some s →
  0 <= s <= len (MenuList.MenuItems m) - 1 →
  is_navigation k1 = true → is_navigation k2 = true →
  perform_all m [k1; k2] w
  = Ok tt (set_cursor c
             (clamp_step (len (MenuList.MenuItems m))
                (clamp_step (len (MenuList.MenuItems m)) s k1) k2) w).
Proof.
  intros Hr Hs Hrg Hk1 Hk2. cbn [perform_all].
  rewrite (bind_Ok _ _ _ _ _ (perform_ok m w c l items s k1 Hr Hs Hrg)).
  assert (He1 : call_events m s items k1 = [])
    by (destruct k1; try discriminate; reflexivity).
  rewrite He1, add_trace_nil.
  assert (Hr1 : ready (set_cursor c
                         (clamp_step (len (MenuList.MenuItems m)) s k1) w)
                  m c l items) by (destruct Hr; now constructor).
  rewrite (bind_Ok _ _ _ _ _
             (perform_ok m _ c l items _ k2 Hr1
                ltac:(apply lookup_insert_eq)
                (clamp_step_range _ s k1 Hrg))).
  assert (He2 : ∀ s', call_events m s' items k2 = [])
    by (intros s'; destruct k2; try discriminate; reflexivity).
  now rewrite He2, add_trace_nil, set_cursor_twice.
Qed.

(** X12: up and down undo each other, except at the ends.  In any state
    a built list reaches by calls of its methods, [IncrementSelected]
    followed by [DecrementSelected] leaves the world exactly as it was
    unless the cursor is on the last item, and [DecrementSelected]
    followed by [IncrementSelected] does unless it is on the first.  At
    the last item the first pair ends one item up (if there is one), at
    the first item the second pair ends one item down (if there is
    one). *)
Theorem navigation_round_trip (input : MenuListInput.t) (w0 w : World)
  (ml : MenuList.t) (ks : list call) :
  slice_ok w0 (MenuListInput.MenuItems input) = true →
  NewMenu input w0 = Ok (ml, None) w →
  let n := len (MenuList.MenuItems ml) in
  ∃ w1 s,
    perform_all ml ks w = Ok tt w1
    ∧ selected w1 ml = Some s
    ∧ (s < n - 1 →
       perform_all ml [CallIncrement; CallDecrement] w1 = Ok tt w1)
    ∧ (0 < s →
       perform_all ml [CallDecrement; CallIncrement] w1 = Ok tt w1)
    ∧ (s = n - 1 →
       ∃ w2, perform_all ml [CallIncrement; CallDecrement] w1 = Ok tt w2
             ∧ selected w2 ml = Some (Z.max 0 (n - 2)))
    ∧ (s = 0 →
       ∃ w2, perform_all ml [CallDecrement; CallIncrement] w1 = Ok tt w2
             ∧ selected w2 ml = Some (Z.min 1 (n - 1))).
Proof.
  intros Hok Hrun n.
  destruct (built_calls input w0 ml w ks Hok Hrun)
    as (c & l & items & es & Hr & Hs & Hes).
  destruct (ready_len _ _ _ _ _ Hr) as [HL Hmax].
  pose proof (clamp_steps_range n ks 0 ltac:(subst n; lia)) as Hrg.
  fold n in Hes.
  set (s := clamp_steps n 0 ks) in *.
  set (w1 := add_trace es (set_cursor c s w)) in *.
  assert (Hr1 : ready w1 ml c l items) by now apply ready_frame.
  assert (Hs1 : ints w1 !! c = Some s) by apply lookup_insert_eq.
  assert (Hsel : ∀ s' , selected (set_cursor c s' w1) ml = Some s').
  { intros s'. unfold selected. rewrite (ready_cursor _ _ _ _ _ Hr). cbn.
    apply lookup_insert_eq. }
  exists w1, s. split; [exact Hes |].
  split; [unfold selected; now rewrite (ready_cursor _ _ _ _ _ Hr) |].
  pose proof (navigate_twice ml w1 c l items s CallIncrement CallDecrement
                Hr1 Hs1 Hrg eq_refl eq_refl) as Hid.
  pose proof (navigate_twice ml w1 c l items s CallDecrement CallIncrement
                Hr1 Hs1 Hrg eq_refl eq_refl) as Hdi.
  fold n in Hid, Hdi. cbn [clamp_step] in Hid, Hdi.
  repeat split.
  - intros Hlt. rewrite Hid. f_equal.
    rewrite (proj2 (Z.ltb_lt _ _) Hlt).
    rewrite (proj2 (Z.ltb_lt 0 (s + 1)) ltac:(lia)).
    replace (s + 1 - 1) with s by lia. now apply set_cursor_same.
  - intros Hlt. rewrite Hdi. f_equal.
    rewrite (proj2 (Z.ltb_lt _ _) Hlt).
    rewrite (proj2 (Z.ltb_lt (s - 1) (n - 1)) ltac:(lia)).
    replace (s - 1 + 1) with s by lia. now apply set_cursor_same.
  - intros Heq. eexists. split; [exact Hid |]. rewrite Hsel. f_equal.
    rewrite (proj2 (Z.ltb_ge s (n - 1)) ltac:(lia)).
    destruct (Z.ltb_spec 0 s); lia.
  - intros Heq. eexists. split; [exact Hdi |]. rewrite Hsel. f_equal.
    rewrite (proj2 (Z.ltb_ge 0 s) ltac:(lia)).
    destruct (Z.ltb_spec s (n - 1)); lia.
Qed.

Lemma navigation_round_trip_witness :
  ∃ ml w w1,
    NewMenu newMenuInput host_world = Ok (ml, None) w
    ∧ perform_all ml [CallIncrement] w = Ok tt w1
    ∧ selected w1 ml = Some 1
    ∧ perform_all ml [CallIncrement; CallDecrement] w1 = Ok tt w1.
Proof.
  destruct host_menu_built as (ml & w & Hrun).
  destruct (navigation_round_trip newMenuInput host_world w ml
              [CallIncrement] eq_refl Hrun)
    as (w1 & s & Hcalls & Hsel & Hid & _).
  destruct (NewMenu_success newMenuInput host_world ml w eq_refl Hrun)
    as (_ & Hb).
  destruct (built_calls newMenuInput host_world ml w [CallIncrement]
              eq_refl Hrun) as (c & l & items & es & Hr & _ & Hes).
  rewrite Hes in Hcalls. injection Hcalls as <-.
  rewrite (selected_after ml c es _ w (ready_cursor _ _ _ _ _ Hr)) in Hsel.
  injection Hsel as <-.
  rewrite (built_MenuItems _ _ _ _ Hb) in Hid, Hes.
  exists ml, w, (add_trace es (set_cursor c 1 w)).
  split; [exact Hrun |]. split; [exact Hes |].
  split; [apply selected_after; apply (ready_cursor _ _ _ _ _ Hr) |].
  apply Hid. reflexivity.
Defined.

Lemma clamp_steps_decrements_from n s k :
  0 <= s →
  clamp_steps n s (replicate k CallDecrement) = Z.max 0 (s - Z.of_nat k).
Proof.
  intros Hs. unfold clamp_steps. induction k as [|k IH]; [cbn; lia |].
  replace (S k) with (k + 1)%nat by lia.
  rewrite replicate_add, foldl_app, IH. cbn [replicate foldl clamp_step].
  destruct (Z.ltb_spec 0 (Z.max 0 (s - Z.of_nat k))); lia.
Qed.

(** X4: where the cursor is after the keys.  On a list as [NewMenu]
    built it, [k] calls of [IncrementSelected] followed by [j] calls of
    [DecrementSelected] run without panic and leave the cursor at
    max(0, min(k, len - 1) - j); [GetSelectedItem] then returns the name
    the input gave the item at that index. *)
Theorem selection_after_presses (input : MenuListInput.t) (w0 w : World)
  (ml : MenuList.t) (k j : nat) :
  slice_ok w0 (MenuListInput.MenuItems input) = true →
  NewMenu input w0 = Ok (ml, None) w →
  let s := Z.max 0 (Z.min (Z.of_nat k)
                      (len (MenuListInput.MenuItems input) - 1)
                    - Z.of_nat j) in
  ∃ w1,
    perform_all ml (replicate k CallIncrement ++ replicate j CallDecrement) w
    = Ok tt w1
    ∧ selected w1 ml = Some s
    ∧ GetSelectedItem ml w1
      = Ok (name_at (slice_items w0 (MenuListInput.MenuItems input)) s) w1.
Proof.
  intros Hok Hrun s.
  destruct (built_host_ok input w0 ml w (Main.mkHost w Main.titleScreen None
                                            ml [])
              Hok Hrun eq_refl eq_refl)
    as (c & l & items & (Hr & Hs & Hrg) & Hlen & Hnames).
  cbn [Main.world Main.mainMenu] in Hr, Hs, Hrg.
  destruct (perform_all_ok ml
              (replicate k CallIncrement ++ replicate j CallDecrement)
              w c l items 0 Hr Hs Hrg) as [es Hes].
  assert (Hcur : clamp_steps (len (MenuList.MenuItems ml)) 0
                   (replicate k CallIncrement ++ replicate j CallDecrement)
                 = s).
  { unfold clamp_steps. rewrite foldl_app.
    fold (clamp_steps (len (MenuList.MenuItems ml)) 0
            (replicate k CallIncrement)).
    rewrite clamp_steps_increments by lia.
    fold (clamp_steps (len (MenuList.MenuItems ml))
            (Z.min (Z.of_nat k) (len (MenuList.MenuItems ml) - 1))
            (replicate j CallDecrement)).
    rewrite clamp_steps_decrements_from by lia. subst s. now rewrite Hlen. }
  rewrite Hcur in Hes.
  set (w1 := add_trace es (set_cursor c s w)) in *.
  assert (Hh1 : host_ok (Main.mkHost w1 Main.titleScreen None ml [])
                  c l items s).
  { split; [now apply ready_frame |]. split; [apply lookup_insert_eq |].
    cbn [Main.mainMenu]. subst s. lia. }
  exists w1. split; [exact Hes |].
  split; [apply (host_ok_selected _ _ _ _ _ Hh1) |].
  rewrite <- Hnames by (subst s; lia).
  apply (host_ok_GetSelectedItem _ c l items s Hh1).
Qed.

Lemma selection_after_presses_witness :
  ∃ ml w w1,
    NewMenu newMenuInput host_world = Ok (ml, None) w
    ∧ perform_all ml
        (replicate 5 CallIncrement ++ replicate 1 CallDecrement) w
      = Ok tt w1
    ∧ selected w1 ml = Some 1
    ∧ GetSelectedItem ml w1 = Ok "optionButton" w1.
Proof.
  destruct host_menu_built as (ml & w & Hrun).
  destruct (selection_after_presses newMenuInput host_world w ml 5 1
              eq_refl Hrun) as (w1 & Hcalls & Hsel & Hget).
  exists ml, w, w1. split; [exact Hrun |]. split; [exact Hcalls |].
  split; [exact Hsel | exact Hget].
Defined.

(* ================================================================== *)
(** ** The program as [main] starts it *)

Lemma main_boot :
  ∃ ml w,
    NewMenu newMenuInput host_world = Ok (ml, None) w
    ∧ Main.main Main.boot
      = Main.Done tt (Main.mkHost w Main.titleScreen None ml []).
Proof.
  destruct host_menu_built as (ml & w & Hrun). exists ml, w.
  split; [exact Hrun |].
  destruct (NewMenu_success newMenuInput host_world ml w eq_refl Hrun)
    as (_ & Hb).
  unfold Main.main.
  rewrite (hbind_Done (Main.lift (NewMenu newMenuInput)) _ Main.boot
             (ml, None) (Main.mkHost w Main.titleScreen None MenuList.zero [])).
  - reflexivity.
  - apply (lift_quiet _ Main.boot (ml, None) w Hrun).
    apply (built_trace _ _ _ _ Hb).
Qed.

(** X13: the program from its start.  [main] builds its menu without an
    error: nothing is logged, the menu is installed and the program is on
    the title screen with the cursor on the first button.  Whatever the
    keys of the frames that follow, no frame panics and none returns an
    error, so [ebiten.Run] is never stopped by [update] and the
    [panic(err)] of [main] is not reached through it; the program leaves
    only by [os.Exit(0)].  Screen and cursor follow [screens] on the
    three buttons: enter on the first goes to the play screen, on the
    second to the options screen, on the third it exits; the state
    [quit] is never entered. *)
Theorem program_runs (scr : loc) (inputs : list Main.Input) :
  let r := screens 3 newMenuItems Main.titleScreen 0 inputs in
  ∃ h0 h',
    Main.main Main.boot = Main.Done tt h0
    ∧ Main.calls h0 = []
    ∧ Main.state h0 = Main.titleScreen
    ∧ selected (Main.world h0) (Main.mainMenu h0) = Some 0
    ∧ Main.frames (Some scr) inputs h0 = run_outcome (fst r) h'
    ∧ (∀ code, fst r = Exit code → code = 0)
    ∧ Main.state h'
      = match fst r with
        | Continue st => st
        | Exit _ => Main.titleScreen
        end
    ∧ Main.state h' ≠ Main.quit
    ∧ selected (Main.world h') (Main.mainMenu h') = Some (snd r)
    ∧ 0 <= snd r <= 2.
Proof.
  intros r.
  destruct main_boot as (ml & w & Hrun & Hmain).
  set (h0 := Main.mkHost w Main.titleScreen None ml []) in *.
  destruct (built_host_ok newMenuInput host_world ml w h0 eq_refl Hrun
              eq_refl eq_refl)
    as (c & l & items & Hh & Hlen & Hnames).
  destruct (frames_ok inputs h0 c l items 0 scr Hh)
    as (h' & Hfr & Hh' & Hst & Hm' & _).
  cbn [Main.mainMenu Main.state h0] in Hfr, Hh', Hst.
  assert (Hthree : len (MenuList.MenuItems ml) = 3) by (rewrite Hlen; reflexivity).
  assert (Hitems : slice_items host_world (MenuListInput.MenuItems newMenuInput)
                   = newMenuItems) by (vm_compute; reflexivity).
  rewrite Hthree in Hfr, Hh', Hst, Hnames. rewrite Hitems in Hnames.
  assert (Hscr : screens 3 items Main.titleScreen 0 inputs = r).
  { subst r. apply screens_ext; [exact Hnames | lia]. }
  rewrite Hscr in Hfr, Hh', Hst.
  exists h0, h'. split; [exact Hmain |]. split; [reflexivity |].
  split; [reflexivity |].
  split; [apply (host_ok_selected _ _ _ _ _ Hh) |].
  split; [exact Hfr |].
  split; [intros code; apply screens_exit |].
  split; [exact Hst |].
  split.
  { rewrite Hst. destruct (fst r) as [st|code] eqn:Hv; [| discriminate].
    exact (screens_not_quit _ _ inputs Main.titleScreen 0 st
             ltac:(discriminate) Hv). }
  split; [apply (host_ok_selected _ _ _ _ _ Hh') |].
  destruct Hh' as (_ & _ & Hrg). rewrite Hm' in Hrg.
  cbn [Main.mainMenu h0] in Hrg. rewrite Hthree in Hrg. exact Hrg.
Qed.

Lemma program_runs_witness :
  ∃ h0 h',
    Main.main Main.boot = Main.Done tt h0
    ∧ Main.frames (Some 1%positive)
        [press [Main.KeyDown]; press [Main.KeyEnter]] h0
      = Main.Done None h'
    ∧ Main.state h' = Main.options
    ∧ selected (Main.world h') (Main.mainMenu h') = Some 1.
Proof.
  destruct (program_runs 1%positive
              [press [Main.KeyDown]; press [Main.KeyEnter]])
    as (h0 & h' & Hmain & _ & _ & _ & Hfr & _ & Hst & _ & Hsel & _).
  exists h0, h'. split; [exact Hmain |]. split; [exact Hfr |].
  split; [exact Hst | exact Hsel].
Defined.

(** X14: up and down in the same frame.  On the title screen of a
    program running on a built menu, a frame in which both up and down
    are pressed (and enter is not) handles up first: the cursor ends
    where it was, except on the first item, from where it ends on the
    second (if there is one). *)
Theorem up_and_down_together (input : MenuListInput.t) (w0 w : World)
  (ml : MenuList.t) (h : Main.Host) (scr : loc)
  (pre : list Main.Input) (h1 : Main.Host) (pressed : Main.Input) :
  slice_ok w0 (MenuListInput.MenuItems input) = true →
  NewMenu input w0 = Ok (ml, None) w →
  Main.world h = w → Main.mainMenu h = ml →
  Main.frames (Some scr) pre h = Main.Done None h1 →
  Main.state h1 = Main.titleScreen →
  pressed Main.KeyUp = true → pressed Main.KeyDown = true →
  pressed Main.KeyEnter = false →
  ∃ h2 s,
    Main.update pressed (Some scr) h1 = Main.Done None h2
    ∧ Main.state h2 = Main.titleScreen
    ∧ selected (Main.world h1) ml = Some s
    ∧ selected (Main.world h2) ml
      = Some (if s =? 0
              then Z.min 1 (len (MenuListInput.MenuItems input) - 1)
              else s).
Proof.
  intros Hok Hrun Hw Hm Hpre Hst Hup Hdown Henter.
  destruct (frames_reach input w0 ml w h scr pre h1 Hok Hrun Hw Hm Hpre)
    as (c & l & items & s & Hh1 & Hm1 & _ & _ & Hlen & _).
  destruct (update_ok h1 c l items s pressed scr Hh1)
    as (h2 & Hrun2 & Hh2 & Hst2 & Hm2 & _).
  rewrite Hst in Hrun2, Hh2, Hst2. cbn [frame_verdict frame_cursor] in *.
  rewrite Henter in Hrun2, Hst2.
  exists h2, s. split; [exact Hrun2 |]. split; [exact Hst2 |].
  split; [rewrite <- Hm1; apply (host_ok_selected _ _ _ _ _ Hh1) |].
  rewrite <- Hm1, <- Hm2. rewrite (host_ok_selected _ _ _ _ _ Hh2).
  f_equal. unfold title_cursor. rewrite Hup, Hdown. cbn [clamp_step].
  rewrite Hm1, Hlen. destruct Hh1 as (_ & _ & Hrg). rewrite Hm1, Hlen in Hrg.
  destruct (Z.eqb_spec s 0) as [-> | Hne].
  - cbn. destruct (Z.ltb_spec 0 (len (MenuListInput.MenuItems input) - 1));
      lia.
  - rewrite (proj2 (Z.ltb_lt 0 s)) by lia.
    rewrite (proj2 (Z.ltb_lt (s - 1) _)) by lia. lia.
Qed.

Lemma host_down_run :
  ∃ ml w h1,
    NewMenu newMenuInput host_world = Ok (ml, None) w
    ∧ Main.frames (Some 1%positive) [press [Main.KeyDown]]
        (Main.mkHost w Main.titleScreen None ml [])
      = Main.Done None h1
    ∧ Main.state h1 = Main.titleScreen.
Proof.
  eexists _, _, _. split; [vm_compute; reflexivity |].
  split; [vm_compute; reflexivity | reflexivity].
Qed.

Lemma up_and_down_together_witness :
  ∃ ml w h1 h2 s,
    NewMenu newMenuInput host_world = Ok (ml, None) w
    ∧ Main.frames (Some 1%positive) [press [Main.KeyDown]]
        (Main.mkHost w Main.titleScreen None ml [])
      = Main.Done None h1
    ∧ Main.update (press [Main.KeyUp; Main.KeyDown]) (Some 1%positive) h1
      = Main.Done None h2
    ∧ selected (Main.world h1) ml = Some s
    ∧ selected (Main.world h2) ml
      = Some (if s =? 0
              then Z.min 1 (len (MenuListInput.MenuItems newMenuInput) - 1)
              else s).
Proof.
  destruct host_down_run as (ml & w & h1 & Hrun & Hpre & Hst).
  destruct (up_and_down_together newMenuInput host_world w ml
              (Main.mkHost w Main.titleScreen None ml []) 1%positive
              [press [Main.KeyDown]] h1 (press [Main.KeyUp; Main.KeyDown])
              eq_refl Hrun eq_refl eq_refl Hpre Hst eq_refl eq_refl eq_refl)
    as (h2 & s & Hup & _ & Hs1 & Hs2).
  exists ml, w, h1, h2, s. split; [exact Hrun |]. split; [exact Hpre |].
  split; [exact Hup |]. split; [exact Hs1 | exact Hs2].
Defined.

(* ================================================================== *)
(** ** Two lists from one input *)

(** An item [NewMenu] has resolved is resolved: a list built from the
    same sizes leaves its text offset and its colours alone. *)
Lemma resolve_resolved ml1 ml2 x :
  MenuList.Height ml2 = MenuList.Height ml1 →
  is_Some (MenuList.DefaultBgColour ml1) →
  is_Some (MenuList.DefaultTxtColour ml1) →
  is_Some (MenuList.DefaultSelBgColour ml1) →
  is_Some (MenuList.DefaultSelTxtColour ml1) →
  ∀ img, resolve ml2 (MenuItem.with_image img (resolve ml1 x))
         = MenuItem.with_image img (resolve ml1 x).
Proof.
  intros HH [b Hb] [t Ht] [sb Hsb] [st Hst] img.
  unfold resolve, MenuItem.with_image. cbn. rewrite HH, Hb, Ht, Hsb, Hst.
  f_equal.
  - destruct (Z.eqb_spec (MenuItem.TxtY x) 0) as [H0|H0].
    + now destruct (GoInt.sub (MenuList.Height ml1) 5 =? 0).
    + now rewrite (proj2 (Z.eqb_neq _ _) H0).
  - now destruct (MenuItem.BgColour x).
  - now destruct (MenuItem.TxtColour x).
  - now destruct (MenuItem.SelBgColour x).
  - now destruct (MenuItem.SelTxtColour x).
Qed.

(** Calls on two lists that share their items array and have different
    cursor cells, interleaved in any order: no call panics, and each
    cursor moves by the calls made on its own list alone. *)
Lemma perform_both_ok m1 m2 c1 c2 l items ks :
  c1 ≠ c2 →
  ∀ w s1 s2,
    ready w m1 c1 l items → ready w m2 c2 l items →
    ints w !! c1 = Some s1 → ints w !! c2 = Some s2 →
    0 <= s1 <= len (MenuList.MenuItems m1) - 1 →
    0 <= s2 <= len (MenuList.MenuItems m2) - 1 →
    ∃ w3,
      perform_both m1 m2 ks w = Ok tt w3
      ∧ ready w3 m1 c1 l items ∧ ready w3 m2 c2 l items
      ∧ ints w3 !! c1
        = Some (clamp_steps (len (MenuList.MenuItems m1)) s1
                  (calls_of true ks))
      ∧ ints w3 !! c2
        = Some (clamp_steps (len (MenuList.MenuItems m2)) s2
                  (calls_of false ks)).
Proof.
  intros Hne. induction ks as [|[first k] ks IH];
    intros w s1 s2 Hr1 Hr2 Hs1 Hs2 Hrg1 Hrg2.
  - exists w. easy.
  - cbn [perform_both calls_of]. destruct first; cbn [Bool.eqb].
    + rewrite (bind_Ok _ _ _ _ _
                 (perform_ok m1 w c1 l items s1 k Hr1 Hs1 Hrg1)).
      apply IH.
      * now apply ready_frame.
      * destruct Hr2. now constructor.
      * apply lookup_insert_eq.
      * cbn. now rewrite lookup_insert_ne.
      * now apply clamp_step_range.
      * exact Hrg2.
    + rewrite (bind_Ok _ _ _ _ _
                 (perform_ok m2 w c2 l items s2 k Hr2 Hs2 Hrg2)).
      apply IH.
      * destruct Hr1. now constructor.
      * now apply ready_frame.
      * cbn. now rewrite lookup_insert_ne by (intros ->; now apply Hne).
      * apply lookup_insert_eq.
      * exact Hrg1.
      * now apply clamp_step_range.
Qed.

(** X15: two lists from one input share their items.  [NewMenu] works on
    the caller's slice, so a second [NewMenu] on the same input, after a
    first one that succeeded, succeeds too and returns a list over the
    same backing array.  It leaves every item as the first call resolved
    it except for the image: each item gets a new image, which the first
    list sees as well.  The two lists have different cursor cells: no
    sequence of calls on the second list moves the cursor of the first,
    and in any interleaving of calls on the two lists each cursor moves
    by the calls on its own list alone.  In every state such an
    interleaving reaches, if the two cursors are equal then [Draw] on the
    first list and [Draw] on the second issue the same engine calls. *)
Theorem NewMenu_twice_shares_items (input : MenuListInput.t)
  (w0 w1 : World) (ml1 : MenuList.t) :
  slice_ok w0 (MenuListInput.MenuItems input) = true →
  NewMenu input w0 = Ok (ml1, None) w1 →
  ∃ ml2 w2,
    NewMenu input w1 = Ok (ml2, None) w2
    ∧ MenuList.MenuItems ml2 = MenuList.MenuItems ml1
    ∧ MenuList.SelectedIndex ml2 ≠ MenuList.SelectedIndex ml1
    ∧ (∀ i x, slice_items w1 (MenuList.MenuItems ml1) !! i = Some x →
         ∃ img, slice_items w2 (MenuList.MenuItems ml1) !! i
                = Some (MenuItem.with_image (Some img) x)
                ∧ images w1 !! img = None)
    ∧ (∀ ks, ∃ w3, perform_all ml2 ks w2 = Ok tt w3
                   ∧ selected w3 ml1 = Some 0)
    ∧ (∀ ks : list (bool * call),
         ∃ w3,
           perform_both ml1 ml2 ks w2 = Ok tt w3
           ∧ selected w3 ml1
             = Some (clamp_steps (len (MenuList.MenuItems ml1)) 0
                       (calls_of true ks))
           ∧ selected w3 ml2
             = Some (clamp_steps (len (MenuList.MenuItems ml2)) 0
                       (calls_of false ks))
           ∧ (selected w3 ml1 = selected w3 ml2 →
              ∀ screen, ∃ es,
                Draw ml1 (Some screen) w3 = Ok tt (add_trace es w3)
                ∧ Draw ml2 (Some screen) w3 = Ok tt (add_trace es w3))).
Proof.
  intros Hok Hrun1.
  destruct (NewMenu_success input w0 ml1 w1 Hok Hrun1)
    as ((HW & HH & HL) & Hb1).
  destruct (built_items input w0 ml1 w1 Hok HL Hb1)
    as (l & items0 & items1 & Hd1 & Ha0 & Ha1 & Hn0 & Hlen1 & Hdone1 & _).
  pose proof (built_MenuItems _ _ _ _ Hb1) as HM1.
  assert (Hok1 : slice_ok w1 (MenuListInput.MenuItems input) = true).
  { unfold slice_ok. rewrite <- HM1, Hd1, Ha1.
    destruct (slice_ok_inv _ _ Hok) as [Hmax _]. rewrite <- HM1 in Hmax.
    rewrite (bool_decide_eq_true_2 _ Hmax). cbn.
    apply bool_decide_eq_true_2. lia. }
  destruct (NewMenu_valid input w1 Hok1 HW HH HL) as (ml2 & w2 & Hrun2 & Hb2).
  pose proof (built_MenuItems _ _ _ _ Hb2) as HM2.
  destruct (built_items input w1 ml2 w2 Hok1 HL Hb2)
    as (l' & items1' & items2 & Hd2 & Ha1' & Ha2 & Hn1 & Hlen2 & Hdone2 & _).
  assert (l' = l) as -> by (rewrite HM2, <- HM1, Hd1 in Hd2; congruence).
  assert (items1' = items1) as -> by congruence.
  destruct (built_cursor _ _ _ _ Hb1) as (c1 & Hc1 & Hfresh1 & Hints1).
  destruct (built_cursor _ _ _ _ Hb2) as (c2 & Hc2 & Hfresh2 & Hints2).
  assert (Hne : c2 ≠ c1).
  { intros ->. rewrite Hints1, lookup_insert_eq in Hfresh2. discriminate. }
  assert (Hsel1 : ints w2 !! c1 = Some 0).
  { rewrite Hints2, lookup_insert_ne by exact Hne.
    rewrite Hints1. apply lookup_insert_eq. }
  assert (HMM : MenuList.MenuItems ml2 = MenuList.MenuItems ml1)
    by congruence.
  exists ml2, w2. split; [exact Hrun2 |].
  split; [exact HMM |].
  split; [rewrite Hc1, Hc2; congruence |].
  split; [| split].
  - intros i x Hx.
    apply (slice_items_lookup w1 _ l items1 i x Hd1 Ha1) in Hx as [Hi Hx].
    destruct (lookup_lt_is_Some_2 items0 i) as [x0 Hx0]; [lia |].
    destruct (Hdone1 i x0 Hi Hx0) as (img1 & Hx1 & _).
    rewrite Hx in Hx1. injection Hx1 as ->.
    destruct (Hdone2 i _ ltac:(rewrite HM2, <- HM1; exact Hi) Hx)
      as (img2 & Hx2 & Hnew & _).
    rewrite (resolve_resolved ml1 ml2 x0) in Hx2.
    + exists img2. split; [| exact Hnew].
      now apply (slice_items_lookup w2 _ l items2 i _ Hd1 Ha2).
    + now rewrite (built_Height _ _ _ _ Hb1), (built_Height _ _ _ _ Hb2).
    + apply (default_resolved_is_Some _ _ _ _ _ (built_Bg _ _ _ _ Hb1)).
    + apply (default_resolved_is_Some _ _ _ _ _ (built_Txt _ _ _ _ Hb1)).
    + apply (default_resolved_is_Some _ _ _ _ _ (built_SelBg _ _ _ _ Hb1)).
    + apply (default_resolved_is_Some _ _ _ _ _ (built_SelTxt _ _ _ _ Hb1)).
  - intros ks.
    destruct (built_calls input w1 ml2 w2 ks Hok1 Hrun2)
      as (c & l2 & its & es & Hr & _ & Hes).
    eexists. split; [exact Hes |].
    assert (c = c2) as ->
      by (pose proof (ready_cursor _ _ _ _ _ Hr); congruence).
    unfold selected. rewrite Hc1. cbn.
    now rewrite lookup_insert_ne by exact Hne.
  - intros ks.
    destruct (built_ready input w1 ml2 w2 Hok1 HL Hb2)
      as (c & l2 & its & Hr2 & Hs2).
    assert (c = c2) as ->
      by (pose proof (ready_cursor _ _ _ _ _ Hr2); congruence).
    assert (Hr1 : ready w2 ml1 c1 l2 its).
    { destruct Hr2. constructor; rewrite <- ?HMM; trivial. }
    destruct (ready_len _ _ _ _ _ Hr1) as [HL1 _].
    destruct (ready_len _ _ _ _ _ Hr2) as [HL2 _].
    destruct (perform_both_ok ml1 ml2 c1 c2 l2 its ks
                ltac:(intros ->; now apply Hne) w2 0 0 Hr1 Hr2 Hsel1 Hs2
                ltac:(lia) ltac:(lia))
      as (w3 & Hrun3 & Hr13 & Hr23 & Hs13 & Hs23).
    exists w3. split; [exact Hrun3 |].
    assert (Hsel13 : selected w3 ml1
                     = Some (clamp_steps (len (MenuList.MenuItems ml1)) 0
                               (calls_of true ks)))
      by (unfold selected; now rewrite Hc1).
    assert (Hsel23 : selected w3 ml2
                     = Some (clamp_steps (len (MenuList.MenuItems ml2)) 0
                               (calls_of false ks)))
      by (unfold selected; now rewrite Hc2).
    split; [exact Hsel13 |]. split; [exact Hsel23 |].
    intros Heq screen. rewrite Hsel13, Hsel23 in Heq. injection Heq as Heq.
    exists (render (translation_at ml2) (Some screen)
              (clamp_steps (len (MenuList.MenuItems ml2)) 0
                 (calls_of false ks))
              (take (s_len (MenuList.MenuItems ml2)) its)).
    split.
    + assert (Ht : translation_at ml1 = translation_at ml2).
      { unfold translation_at.
        rewrite (built_Tx _ _ _ _ Hb1), (built_Ty _ _ _ _ Hb1),
          (built_Offx _ _ _ _ Hb1), (built_Offy _ _ _ _ Hb1).
        now rewrite (built_Tx _ _ _ _ Hb2), (built_Ty _ _ _ _ Hb2),
          (built_Offx _ _ _ _ Hb2), (built_Offy _ _ _ _ Hb2). }
      rewrite <- Ht, <- Heq, HMM.
      apply (Draw_ok ml1 screen w3 c1 _ l2 its Hc1 Hs13
               (ready_data _ _ _ _ _ Hr13) (ready_array _ _ _ _ _ Hr13)
               (ready_cap _ _ _ _ _ Hr13) (ready_renderable _ _ _ _ _ Hr13)).
    + apply (Draw_ok ml2 screen w3 c2 _ l2 its Hc2 Hs23
               (ready_data _ _ _ _ _ Hr23) (ready_array _ _ _ _ _ Hr23)
               (ready_cap _ _ _ _ _ Hr23) (ready_renderable _ _ _ _ _ Hr23)).
Qed.

Lemma NewMenu_twice_shares_items_witness :
  ∃ ml1 w1 ml2 w2,
    NewMenu newMenuInput host_world = Ok (ml1, None) w1
    ∧ NewMenu newMenuInput w1 = Ok (ml2, None) w2
    ∧ MenuList.MenuItems ml2 = MenuList.MenuItems ml1
    ∧ MenuList.SelectedIndex ml2 ≠ MenuList.SelectedIndex ml1.
Proof.
  destruct host_menu_built as (ml1 & w1 & Hrun).
  destruct (NewMenu_twice_shares_items newMenuInput host_world w1 ml1
              eq_refl Hrun) as (ml2 & w2 & Hrun2 & Hitems & Hcur & _).
  exists ml1, w1, ml2, w2. split; [exact Hrun |]. split; [exact Hrun2 |].
  split; [exact Hitems | exact Hcur].
Defined.
